(** * vote_elec: an RSA blind-signature voting protocol (app.py)

    Shallow embedding of the cryptographic tools, the four protocol
    entities (Commissaire, Administrateur, Anonymiseur, Decompteur), the
    initialisation of an election (init_scrutin) and the two routes that
    drive the entities (submit_vote, depouiller), followed by the
    properties established about them.

    Conventions.
    - Python integers are [Z]; [%] and [//] are [Z.modulo] and [Z.div]
      (both floor, sign of the divisor, as in Python).
    - A Python [str] is the list of its code points ([list Z]); [bytes] is
      a list of integers in [0, 256).
    - The random sources ([random], [secrets]) are a tape of integers read
      from left to right; each draw reduces the next tape cell into the
      requested range, so every possible draw is produced by some tape.
    - Unbounded [while] loops carry a fuel argument; running out of fuel or
      of tape is the outcome [Epuise], distinct from a Python exception.
    - SHA-256 is a parameter of the protocol ([sha256_hexdigest]); nothing
      proved here depends on which function it is.
    - The module-level entities are the fields of one world state [Monde];
      methods that receive another entity as argument are programs over the
      world.  The web layer is not modelled; of the voters file, only the
      list that init_scrutin writes to it is. *)

From Stdlib Require Import ZArith Znumtheory Zcong Lia List Bool String Ascii.
From Stdlib Require Import Zmod.ZmodInv.
From stdpp Require Import base gmap sets list.

Local Open Scope Z_scope.

(** ** Outcomes and the random tape *)

Inductive Exn : Type :=
| ValueError (msg : string)
| OverflowError (msg : string)
| UnicodeEncodeError
| UnicodeDecodeError.

Inductive Res (A : Type) : Type :=
| Ok (a : A)
| Raise (e : Exn)
| Epuise.

Arguments Ok {A} a.
Arguments Raise {A} e.
Arguments Epuise {A}.

Definition res_bind {A B} (r : Res A) (k : A -> Res B) : Res B :=
  match r with
  | Ok a => k a
  | Raise e => Raise e
  | Epuise => Epuise
  end.

(** A stateful computation over a state [S]: an outcome and the state it
    leaves (an exception keeps the writes made before it). *)
Definition M (S A : Type) : Type := S -> Res A * S.

Definition ret {S A} (a : A) : M S A := fun s => (Ok a, s).

Definition bind {S A B} (m : M S A) (k : A -> M S B) : M S B :=
  fun s =>
    match m s with
    | (Ok a, s') => k a s'
    | (Raise e, s') => (Raise e, s')
    | (Epuise, s') => (Epuise, s')
    end.

Definition lift {S A} (r : Res A) : M S A := fun s => (r, s).

Definition diverge {S A} : M S A := fun s => (Epuise, s).

Definition gets {S A} (f : S -> A) : M S A := fun s => (Ok (f s), s).

Definition modify {S} (f : S -> S) : M S unit := fun s => (Ok tt, f s).

(** [try: m except Exception as e: handler e] *)
Definition try_except {S A} (m : M S A) (handler : Exn -> M S A) : M S A :=
  fun s =>
    match m s with
    | (Raise e, s') => handler e s'
    | r => r
    end.

Declare Scope prog_scope.
Delimit Scope prog_scope with prog.
Notation "'let*' x ':=' m 'in' k" := (bind m (fun x => k))
  (at level 10, x name, m at level 100, k at level 200) : prog_scope.
Local Open Scope prog_scope.

(** A computation that draws random numbers: its state is the tape. *)
Definition Alea (A : Type) : Type := M (list Z) A.

(** [secrets.randbits(k)]: a uniform integer in [0, 2^k). *)
Definition randbits (k : Z) : Alea Z :=
  fun t =>
    if k <? 0
    then (Raise (ValueError "number of bits must be non-negative"), t)
    else match t with
         | [] => (Epuise, t)
         | v :: t' => (Ok (v mod 2 ^ k), t')
         end.

(** [random.randrange(a, b)]: a uniform integer in [a, b). *)
Definition randrange (a b : Z) : Alea Z :=
  fun t =>
    if b <=? a then (Raise (ValueError "empty range for randrange()"), t)
    else match t with
         | [] => (Epuise, t)
         | v :: t' => (Ok (a + v mod (b - a)), t')
         end.

(** ** 1. Cryptographic tools *)

(** Square-and-multiply, most significant bit first, as the built-in
    three-argument [pow] does for a non-negative exponent. *)
Fixpoint pow_pos_mod (b : Z) (e : positive) (c : Z) : Z :=
  match e with
  | xH => b mod c
  | xO e' => let r := pow_pos_mod b e' c in (r * r) mod c
  | xI e' => let r := pow_pos_mod b e' c in ((r * r) mod c * b) mod c
  end.

Definition pow_nonneg_mod (b e c : Z) : Z :=
  match e with
  | Zpos p => pow_pos_mod b p c
  | _ => 1 mod c
  end.

(** The built-in [pow(b, e, m)]: a zero modulus and a non-invertible base
    under a negative exponent raise [ValueError]; modulus 1 or -1 gives 0; the
    result takes the sign of the modulus. *)
Definition pow (b e m : Z) : Res Z :=
  if m =? 0 then Raise (ValueError "pow() 3rd argument cannot be 0")
  else
    let c := Z.abs m in
    let adjust z := if (m <? 0) && negb (z =? 0) then z - c else z in
    if c =? 1 then Ok 0
    else if e <? 0 then
      if Z.gcd b c =? 1
      then Ok (adjust (pow_nonneg_mod (Z.invmod b c) (- e) c))
      else Raise (ValueError "base is not invertible for the given modulus")
    else Ok (adjust (pow_nonneg_mod b e c)).

(** [for _ in range(r - 1): x = pow(x, 2, n); if x == n - 1: break] with its
    [else] branch: [Ok true] when the loop was left by [break], [Ok false]
    when it ran to the end. *)
Fixpoint is_prime_inner (count : nat) (x n : Z) : Res bool :=
  match count with
  | O => Ok false
  | S count' =>
      res_bind (pow x 2 n) (fun x' =>
        if x' =? n - 1 then Ok true else is_prime_inner count' x' n)
  end.

(** [while s % 2 == 0: r += 1; s //= 2], by recursion on the binary digits
    of s (s = n - 1 is positive where the loop is reached). *)
Fixpoint is_prime_split_pos (r : Z) (s : positive) : Z * Z :=
  match s with
  | xO s' => is_prime_split_pos (r + 1) s'
  | _ => (r, Zpos s)
  end.

Definition is_prime_split (r s : Z) : Z * Z :=
  match s with
  | Zpos p => is_prime_split_pos r p
  | _ => (r, s)
  end.

Fixpoint is_prime_rounds (k : nat) (n r s : Z) : Alea bool :=
  match k with
  | O => ret true
  | S k' =>
      let* a := randrange 2 (n - 1) in
      let* x := lift (pow a s n) in
      if (x =? 1) || (x =? n - 1) then is_prime_rounds k' n r s
      else
        let* broke := lift (is_prime_inner (Z.to_nat (r - 1)) x n) in
        if broke then is_prime_rounds k' n r s else ret false
  end.

(** Miller-Rabin test, [k] rounds. *)
Definition is_prime (n : Z) (k : nat) : Alea bool :=
  if n <? 2 then ret false
  else if (n =? 2) || (n =? 3) then ret true
  else if n mod 2 =? 0 then ret false
  else
    let '(r, s) := is_prime_split 0 (n - 1) in
    is_prime_rounds k n r s.

Fixpoint generate_large_prime (fuel : nat) (bits : Z) : Alea Z :=
  match fuel with
  | O => diverge
  | S fuel' =>
      let* num := randbits bits in
      let num := if num mod 2 =? 0 then num + 1 else num in
      let* ok := is_prime num 5 in
      if ok then ret num else generate_large_prime fuel' bits
  end.

Fixpoint gcd_loop (fuel : nat) (a b : Z) : Z :=
  match fuel with
  | O => a
  | S fuel' => if b =? 0 then a else gcd_loop fuel' b (a mod b)
  end.

(** [while b: a, b = b, a % b]; two iterations at least halve |b|, so
    twice its bit length, plus one, iterations are enough. *)
Definition gcd (a b : Z) : Z :=
  gcd_loop (S (2 * Z.to_nat (Z.log2 (Z.abs b) + 1))) a b.

Definition modinv (a m : Z) : Res Z := pow a (-1) m.

Definition Key : Type := Z * Z.

(** [while g != 1: e = random.randrange(1, phi); g = gcd(e, phi)] *)
Fixpoint generate_keypair_e (fuel : nat) (e g phi : Z) : Alea Z :=
  if g =? 1 then ret e
  else match fuel with
       | O => diverge
       | S fuel' =>
           let* e' := randrange 1 phi in
           generate_keypair_e fuel' e' (gcd e' phi) phi
       end.

(** The part of [generate_keypair] that follows the two prime draws. *)
Definition generate_keypair_from (fuel : nat) (p q : Z) : Alea (Key * Key) :=
  let n := p * q in
  let phi := (p - 1) * (q - 1) in
  let e := 65537 in
  let g := gcd e phi in
  let* e := generate_keypair_e fuel e g phi in
  let* d := lift (modinv e phi) in
  ret ((e, n), (d, n)).

Definition generate_keypair (fuel : nat) (bits : Z) : Alea (Key * Key) :=
  let* p := generate_large_prime fuel (bits / 2) in
  let* q := generate_large_prime fuel (bits / 2) in
  generate_keypair_from fuel p q.

(** ** Codec: text <-> integer *)

(** A string literal of the source as a list of code points (ASCII only;
    accented letters are written by their code point). *)
Definition lit (s : string) : list Z :=
  List.map (fun a => Z.of_N (N_of_ascii a)) (list_ascii_of_string s).

Definition is_surrogate (c : Z) : bool := (0xD800 <=? c) && (c <=? 0xDFFF).

(** A code point that [encode('utf-8')] accepts. *)
Definition is_scalar (c : Z) : bool :=
  (0 <=? c) && (c <=? 0x10FFFF) && negb (is_surrogate c).

(** UTF-8 encoding of one code point; [None] stands for
    [UnicodeEncodeError] (lone surrogate). *)
Definition utf8_encode_char (c : Z) : option (list Z) :=
  if negb (is_scalar c) then None
  else if c <? 0x80 then Some [c]
  else if c <? 0x800 then Some [0xC0 + c / 64; 0x80 + c mod 64]
  else if c <? 0x10000 then
    Some [0xE0 + c / 4096; 0x80 + (c / 64) mod 64; 0x80 + c mod 64]
  else
    Some [0xF0 + c / 262144; 0x80 + (c / 4096) mod 64;
          0x80 + (c / 64) mod 64; 0x80 + c mod 64].

(** [s.encode('utf-8')] *)
Fixpoint utf8_encode (s : list Z) : Res (list Z) :=
  match s with
  | [] => Ok []
  | c :: s' =>
      match utf8_encode_char c with
      | None => Raise UnicodeEncodeError
      | Some bs => res_bind (utf8_encode s') (fun rest => Ok (bs ++ rest))
      end
  end.

Definition is_continuation (b : Z) : bool := (0x80 <=? b) && (b <? 0xC0).

(** [bs.decode('utf-8')], strict: overlong forms, surrogates, values above
    U+10FFFF, stray continuation bytes and truncated sequences are refused
    ([None] stands for [UnicodeDecodeError]). *)
Fixpoint utf8_decode (bs : list Z) : option (list Z) :=
  match bs with
  | [] => Some []
  | b0 :: r0 =>
      if (0 <=? b0) && (b0 <? 0x80) then
        option_map (cons b0) (utf8_decode r0)
      else if (0xC2 <=? b0) && (b0 <? 0xE0) then
        match r0 with
        | b1 :: r1 =>
            if is_continuation b1
            then option_map (cons ((b0 - 0xC0) * 64 + (b1 - 0x80)))
                            (utf8_decode r1)
            else None
        | _ => None
        end
      else if (0xE0 <=? b0) && (b0 <? 0xF0) then
        match r0 with
        | b1 :: b2 :: r2 =>
            let c := (b0 - 0xE0) * 4096 + (b1 - 0x80) * 64 + (b2 - 0x80) in
            if is_continuation b1 && is_continuation b2
               && (0x800 <=? c) && negb (is_surrogate c)
            then option_map (cons c) (utf8_decode r2)
            else None
        | _ => None
        end
      else if (0xF0 <=? b0) && (b0 <? 0xF5) then
        match r0 with
        | b1 :: b2 :: b3 :: r3 =>
            let c := (b0 - 0xF0) * 262144 + (b1 - 0x80) * 4096
                     + (b2 - 0x80) * 64 + (b3 - 0x80) in
            if is_continuation b1 && is_continuation b2 && is_continuation b3
               && (0x10000 <=? c) && (c <=? 0x10FFFF)
            then option_map (cons c) (utf8_decode r3)
            else None
        | _ => None
        end
      else None
  end.

(** The values a [bytes] object holds. *)
Definition is_byte (b : Z) : Prop := 0 <= b < 256.

(** [int.from_bytes(bs, byteorder='big')] *)
Definition int_from_bytes_big (bs : list Z) : Z :=
  fold_left (fun acc b => acc * 256 + b) bs 0.

(** [number.bit_length()] *)
Definition bit_length (number : Z) : Z :=
  if number =? 0 then 0 else Z.log2 (Z.abs number) + 1.

Fixpoint bytes_little (length : nat) (number : Z) : list Z :=
  match length with
  | O => []
  | S length' => number mod 256 :: bytes_little length' (number / 256)
  end.

(** [number.to_bytes(length, byteorder='big')] (unsigned) *)
Definition int_to_bytes_big (number length : Z) : Res (list Z) :=
  if length <? 0 then Raise (ValueError "length argument must be non-negative")
  else if number <? 0
  then Raise (OverflowError "can't convert negative int to unsigned")
  else if 256 ^ length <=? number
  then Raise (OverflowError "int too big to convert")
  else Ok (rev (bytes_little (Z.to_nat length) number)).

Definition str_to_int (message : list Z) : Res Z :=
  res_bind (utf8_encode message) (fun message_bytes =>
    Ok (int_from_bytes_big message_bytes)).

(** The body of the [try] block of [int_to_str]. *)
Definition int_to_str_try (number : Z) : Res (list Z) :=
  let length := (bit_length number + 7) / 8 in
  res_bind (int_to_bytes_big number length) (fun bs =>
    match utf8_decode bs with
    | Some s => Ok s
    | None => Raise UnicodeDecodeError
    end).

(** [int_to_str]: the bare [except] turns every exception into [None]. *)
Definition int_to_str (number : Z) : option (list Z) :=
  match int_to_str_try number with
  | Ok s => Some s
  | _ => None
  end.

(** [secrets.token_hex(nbytes)]: [nbytes] random bytes as lowercase
    hexadecimal text, two digits per byte. *)
Definition hex_digit (d : Z) : Z := if d <? 10 then 48 + d else 87 + d.

Definition hex_of_bytes (bs : list Z) : list Z :=
  flat_map (fun b => [hex_digit (b / 16); hex_digit (b mod 16)]) bs.

Definition token_hex (nbytes : Z) : Alea (list Z) :=
  let* v := randbits (8 * nbytes) in
  ret (hex_of_bytes (rev (bytes_little (Z.to_nat nbytes) v))).

(** [text.split(sep)] for the two-character separator [sep = c1 c2]: the
    leftmost occurrences, not overlapping; [cur] is the part being read, in
    reverse. *)
Fixpoint split_pair (c1 c2 : Z) (text cur : list Z) : list (list Z) :=
  match text with
  | [] => [rev cur]
  | c :: text' =>
      match text' with
      | c' :: text'' =>
          if (c =? c1) && (c' =? c2)
          then rev cur :: split_pair c1 c2 text'' []
          else split_pair c1 c2 text' (c :: cur)
      | [] => split_pair c1 c2 text' (c :: cur)
      end
  end.

(** The separator of the ballot fields, "||". *)
Definition sep : list Z := [124; 124].

Definition split_sep (text : list Z) : list (list Z) :=
  split_pair 124 124 text [].

(** [dict(Counter(items))] *)
Definition Counter (items : list (list Z)) : gmap (list Z) Z :=
  fold_left (fun acc c => <[c := default 0 (acc !! c) + 1]> acc) items ∅.

(** ** 2. Protocol entities *)

Record Commissaire : Type := mkCommissaire {
  valid_n1 : gset (list Z);
  hashed_n2 : gset (list Z)
}.

Record Administrateur : Type := mkAdministrateur {
  admin_public_key : Key;
  admin_private_key : Key
}.

(** An envelope: (encrypted message, encrypted signature). *)
Definition Enveloppe : Type := Z * Z.

Record Anonymiseur : Type := mkAnonymiseur {
  urne : list Enveloppe
}.

Record Decompteur : Type := mkDecompteur {
  dec_public_key : Key;
  dec_private_key : Key;
  resultats : gmap (list Z) Z
}.

(** The module-level instances (app.py, section 3) and the state of the
    random generators. *)
Record Monde : Type := mkMonde {
  commissaire : Commissaire;
  admin : Administrateur;
  anonymiseur : Anonymiseur;
  decompteur : Decompteur;
  hasard : list Z
}.

Definition Prog (A : Type) : Type := M Monde A.

Definition set_commissaire (c : Commissaire) (w : Monde) : Monde :=
  mkMonde c (admin w) (anonymiseur w) (decompteur w) (hasard w).

Definition set_anonymiseur (a : Anonymiseur) (w : Monde) : Monde :=
  mkMonde (commissaire w) (admin w) a (decompteur w) (hasard w).

Definition set_decompteur (d : Decompteur) (w : Monde) : Monde :=
  mkMonde (commissaire w) (admin w) (anonymiseur w) d (hasard w).

Definition set_hasard (t : list Z) (w : Monde) : Monde :=
  mkMonde (commissaire w) (admin w) (anonymiseur w) (decompteur w) t.

(** Runs a random draw on the world's tape. *)
Definition tirer {A} (m : Alea A) : Prog A :=
  fun w => let '(r, t) := m (hasard w) in (r, set_hasard t w).

(** Runs a method of the Commissaire on the world's instance. *)
Definition sur_commissaire {A} (m : M Commissaire A) : Prog A :=
  fun w => let '(r, c) := m (commissaire w) in (r, set_commissaire c w).

Section Protocole.

(** [hashlib.sha256(bs).hexdigest()], from bytes to hexadecimal text. *)
Variable sha256_hexdigest : list Z -> list Z.

Definition hash_sha256 (data : list Z) : Res (list Z) :=
  res_bind (utf8_encode data) (fun bs => Ok (sha256_hexdigest bs)).

(** *** Commissaire *)

Definition Commissaire_init : Commissaire := mkCommissaire ∅ ∅.

Definition charger_listes (liste_n1 liste_hashed_n2 : list (list Z))
  : M Commissaire unit :=
  modify (fun _ =>
    mkCommissaire (list_to_set liste_n1) (list_to_set liste_hashed_n2)).

Definition verifier_n1 (n1 : list Z) : M Commissaire bool :=
  gets (fun self => bool_decide (n1 ∈ valid_n1 self)).

Definition consommer_n1 (n1 : list Z) : M Commissaire bool :=
  fun self =>
    if bool_decide (n1 ∈ valid_n1 self)
    then (Ok true, mkCommissaire (valid_n1 self ∖ {[n1]}) (hashed_n2 self))
    else (Ok false, self).

Definition verifier_n2_hash (n2_clear : list Z) : M Commissaire bool :=
  let* h := lift (hash_sha256 n2_clear) in
  gets (fun self => bool_decide (h ∈ hashed_n2 self)).

(** *** Administrateur *)

Definition Administrateur_init (fuel : nat) : Alea Administrateur :=
  let* keys := generate_keypair fuel 1024 in
  ret (mkAdministrateur (fst keys) (snd keys)).

Definition verifier_eligibilite (n1 : list Z) : Prog bool :=
  sur_commissaire (verifier_n1 n1).

Definition signer_aveugle (blinded_message_int : Z) : Prog Z :=
  let* key := gets (fun w => admin_private_key (admin w)) in
  let '(d, n) := key in
  lift (pow blinded_message_int d n).

(** *** Anonymiseur *)

Definition Anonymiseur_init : Anonymiseur := mkAnonymiseur [].

Definition recevoir_vote (n1 : list Z) (vote_chiffre : Enveloppe) : Prog bool :=
  let* ok := sur_commissaire (consommer_n1 n1) in
  if ok then
    let* _ := modify (fun w =>
      set_anonymiseur (mkAnonymiseur (urne (anonymiseur w) ++ [vote_chiffre])) w) in
    ret true
  else ret false.

(** *** Decompteur *)

Definition Decompteur_init (fuel : nat) : Alea Decompteur :=
  let* keys := generate_keypair fuel 1024 in
  ret (mkDecompteur (fst keys) (snd keys) ∅).

(** What the tally loop decides for one envelope. *)
Inductive Issue : Type :=
| Indecodable
| FormatInvalide
| SignatureInvalide (n2_code : list Z)
| N2Invalide (n2_code : list Z)
| Valide (choix_vote : list Z)
| ExceptionLevee (e : Exn).

Definition str_of_exn (e : Exn) : list Z :=
  match e with
  | ValueError msg => lit msg
  | OverflowError msg => lit msg
  | UnicodeEncodeError => lit "'utf-8' codec can't encode character"
  | UnicodeDecodeError => lit "'utf-8' codec can't decode byte"
  end.

(** The line appended to [logs] for each outcome. *)
Definition journal (i : Issue) : list Z :=
  match i with
  | Indecodable =>
      lit "Erreur: Impossible de d" ++ [233] ++ lit "coder le bulletin."
  | FormatInvalide => lit "Erreur: Format bulletin invalide."
  | SignatureInvalide n2_code =>
      lit "Fraude: Signature admin invalide pour " ++ n2_code ++ lit "..."
  | N2Invalide n2_code =>
      lit "Fraude: Code N2 invalide ou d" ++ [233] ++ lit "j" ++ [224]
      ++ lit " utilis" ++ [233] ++ lit " (" ++ n2_code ++ lit ")."
  | Valide choix_vote =>
      lit "Succ" ++ [232] ++ lit "s: Vote valid" ++ [233] ++ lit " pour "
      ++ choix_vote ++ lit "."
  | ExceptionLevee e =>
      lit "Exception durant le d" ++ [233] ++ lit "pouillement: "
      ++ str_of_exn e
  end.

(** The body of the [try] block for one envelope; each [continue] and the
    normal end of the block return the outcome. *)
Definition depouiller_try (d n_self e_admin n_admin : Z) (enveloppe : Enveloppe)
  : Prog Issue :=
  let '(m_int_chiffre, s_int_chiffre) := enveloppe in
  let* m_int := lift (pow m_int_chiffre d n_self) in
  let* s_int := lift (pow s_int_chiffre d n_self) in
  match int_to_str m_int with
  | None => ret Indecodable
  | Some [] => ret Indecodable
  | Some message_clair =>
      match split_sep message_clair with
      | [choix_vote; n2_code; _] =>
          let* verification := lift (pow s_int e_admin n_admin) in
          if negb (verification =? m_int) then ret (SignatureInvalide n2_code)
          else
            let* ok := sur_commissaire (verifier_n2_hash n2_code) in
            if negb ok then ret (N2Invalide n2_code)
            else ret (Valide choix_vote)
      | _ => ret FormatInvalide
      end
  end.

Definition depouiller_enveloppe (d n_self e_admin n_admin : Z)
  (enveloppe : Enveloppe) : Prog Issue :=
  try_except (depouiller_try d n_self e_admin n_admin enveloppe)
             (fun e => ret (ExceptionLevee e)).

(** The choice that an outcome adds to [bulletins_valides], if any. *)
Definition choix_valide (i : Issue) : option (list Z) :=
  match i with
  | Valide choix_vote => Some choix_vote
  | _ => None
  end.

(** [for enveloppe in anonymiseur.urne: ...], threading the two local lists
    [bulletins_valides] and [logs]. *)
Fixpoint depouiller_boucle (d n_self e_admin n_admin : Z)
  (envs : list Enveloppe) (bulletins_valides logs : list (list Z))
  : Prog (list (list Z) * list (list Z)) :=
  match envs with
  | [] => ret (bulletins_valides, logs)
  | enveloppe :: envs' =>
      let* i := depouiller_enveloppe d n_self e_admin n_admin enveloppe in
      let bulletins_valides :=
        match i with
        | Valide choix_vote => bulletins_valides ++ [choix_vote]
        | _ => bulletins_valides
        end in
      depouiller_boucle d n_self e_admin n_admin envs'
                        bulletins_valides (logs ++ [journal i])
  end.

Definition depouiller (admin_pub_key : Key)
  : Prog (gmap (list Z) Z * list (list Z)) :=
  let* key := gets (fun w => dec_private_key (decompteur w)) in
  let '(d, n_self) := key in
  let '(e_admin, n_admin) := admin_pub_key in
  let* envs := gets (fun w => urne (anonymiseur w)) in
  let* out := depouiller_boucle d n_self e_admin n_admin envs [] [] in
  let '(bulletins_valides, logs) := out in
  let* _ := modify (fun w =>
    set_decompteur
      (mkDecompteur (dec_public_key (decompteur w))
                    (dec_private_key (decompteur w))
                    (Counter bulletins_valides)) w) in
  let* res := gets (fun w => resultats (decompteur w)) in
  ret (res, logs).

(** ** 4. Routes *)

Inductive Reponse : Type :=
| ErreurN1          (* "Erreur: Code N1 invalide ou refuse par l'administrateur." *)
| ErreurCritique    (* "Erreur critique: La signature de l'admin ne correspond pas !" *)
| Redirection       (* redirect(url_for('index')) *)
| ErreurDepot.      (* "Erreur lors du depot du vote (N1 probablement deja utilise)." *)

(** [while True: k = random.randrange(2, n_admin - 1);
    if gcd(k, n_admin) == 1: break] *)
Fixpoint submit_vote_k (fuel : nat) (n_admin : Z) : Alea Z :=
  match fuel with
  | O => diverge
  | S fuel' =>
      let* k := randrange 2 (n_admin - 1) in
      if gcd k n_admin =? 1 then ret k else submit_vote_k fuel' n_admin
  end.

(** Step 3 of [submit_vote] once k is chosen: masking by the client,
    blind signature by the Administrateur, unmasking by the client. *)
Definition submit_vote_signature (e_admin n_admin m_int k : Z) : Prog Z :=
  let* blind_factor := lift (pow k e_admin n_admin) in
  let m_prime := (m_int * blind_factor) mod n_admin in
  let* s_prime := signer_aveugle m_prime in
  let* k_inv := lift (modinv k n_admin) in
  ret ((s_prime * k_inv) mod n_admin).

(** The voting software: [n1] and [n2] are the voter's codes (read from the
    voters file by the route), [choix] is the submitted form field.  The
    voters file itself (the [has_voted] flag) is outside the model. *)
Definition submit_vote (fuel : nat) (n1 n2 choix : list Z) : Prog Reponse :=
  let* eligible := verifier_eligibilite n1 in
  if negb eligible then ret ErreurN1
  else
    let* salt := tirer (token_hex 8) in
    let message_clair := choix ++ sep ++ n2 ++ sep ++ salt in
    let* m_int := lift (str_to_int message_clair) in
    let* key := gets (fun w => admin_public_key (admin w)) in
    let '(e_admin, n_admin) := key in
    let* k := tirer (submit_vote_k fuel n_admin) in
    let* signature := submit_vote_signature e_admin n_admin m_int k in
    let* verification := lift (pow signature e_admin n_admin) in
    if negb (verification =? m_int) then ret ErreurCritique
    else
      let* tkey := gets (fun w => dec_public_key (decompteur w)) in
      let '(e_teller, n_teller) := tkey in
      let* encrypted_message := lift (pow m_int e_teller n_teller) in
      let* encrypted_signature := lift (pow signature e_teller n_teller) in
      let enveloppe := (encrypted_message, encrypted_signature) in
      let* succes := recevoir_vote n1 enveloppe in
      if succes then ret Redirection else ret ErreurDepot.

Definition route_depouiller : Prog (gmap (list Z) Z * list (list Z)) :=
  let* key := gets (fun w => admin_public_key (admin w)) in
  depouiller key.

End Protocole.

(** ** 3. Initialisation *)

(** [str.upper()] on ASCII text, the only text it is applied to here (the
    output of [token_hex]). *)
Definition upper (s : list Z) : list Z :=
  List.map (fun c => if (97 <=? c) && (c <=? 122) then c - 32 else c) s.

(** [str(n)] for an integer, as the f-string of the voter's name formats
    it. *)
Fixpoint str_int_digits (fuel : nat) (n : Z) (acc : list Z) : list Z :=
  match fuel with
  | O => acc
  | S fuel' =>
      let acc' := (48 + n mod 10) :: acc in
      if n <? 10 then acc' else str_int_digits fuel' (n / 10) acc'
  end.

Definition str_int (n : Z) : list Z :=
  if n <? 0 then 45 :: str_int_digits (S (Z.to_nat (Z.log2 (- n)))) (- n) []
  else str_int_digits (S (Z.to_nat (Z.log2 n))) n [].

(** An entry of the voters file. *)
Record Voter : Type := mkVoter {
  voter_id : Z;
  voter_name : list Z;
  voter_n1 : list Z;
  voter_n2 : list Z;
  voter_has_voted : bool
}.

Section Initialisation.

Variable sha256_hexdigest : list Z -> list Z.

(** [for i in range(1, 6): ...] of [init_scrutin], threading the three
    local lists. *)
Fixpoint init_scrutin_boucle (ids : list Z) (voters : list Voter)
  (n1_list n2_hashed_list : list (list Z))
  : Prog (list Voter * list (list Z) * list (list Z)) :=
  match ids with
  | [] => ret (voters, n1_list, n2_hashed_list)
  | i :: ids' =>
      let* t1 := tirer (token_hex 6) in
      let n1 := upper t1 in
      let* t2 := tirer (token_hex 6) in
      let n2 := upper t2 in
      let voter := mkVoter i (lit "Citoyen " ++ str_int i) n1 n2 false in
      let* h := lift (hash_sha256 sha256_hexdigest n2) in
      init_scrutin_boucle ids' (voters ++ [voter]) (n1_list ++ [n1])
                          (n2_hashed_list ++ [h])
  end.

(** [init_scrutin]; the list handed to [save_voters], which becomes the
    content of the voters file, is the result. *)
Definition init_scrutin : Prog (list Voter) :=
  let* out := init_scrutin_boucle (seqZ 1 5) [] [] [] in
  let '(voters, n1_list, n2_hashed_list) := out in
  let* _ := sur_commissaire (charger_listes n1_list n2_hashed_list) in
  let* _ := modify (set_anonymiseur (mkAnonymiseur [])) in
  ret voters.

End Initialisation.

(** A stand-in for SHA-256 to run the protocol on concrete data: the
    hexadecimal text of the bytes themselves. *)
Definition empreinte_test (bs : list Z) : list Z := hex_of_bytes bs.

(** A small election for the examples: one voter with codes N1 = "A1" and
    N2 = "N2", and 12-bit keys built from the primes 61 and 53. *)
Definition monde_exemple : Monde :=
  mkMonde (mkCommissaire {[ lit "A1" ]} {[ empreinte_test (lit "N2") ]})
          (mkAdministrateur (65537, 3233) (2753, 3233))
          (mkAnonymiseur [])
          (mkDecompteur (65537, 3233) (2753, 3233) ∅)
          [0; 0].

(** The same election with keys large enough for a ballot: the
    Administrateur's from the primes 2^89 - 1 and 2^107 - 1, the
    Decompteur's from 2^107 - 1 and 2^127 - 1 (e = 65537 for both). *)
Definition monde_exemple_grand : Monde :=
  mkMonde (mkCommissaire {[ lit "A1" ]} {[ empreinte_test (lit "N2") ]})
          (mkAdministrateur
             (65537,
              100433627766186892221372630609062766858404681029709092356097)
             (15499423397885381203395986760745292550657831765628692176393,
              100433627766186892221372630609062766858404681029709092356097))
          (mkAnonymiseur [])
          (mkDecompteur
             (65537,
              27606985387162255149739023449107931668458716142620601169954803000803329)
             (15148310137902892372854494747293348982658810495089518801664574316425701,
              27606985387162255149739023449107931668458716142620601169954803000803329)
             ∅)
          [12345678901234567890; 987654321].

(** Five draws, as much as one run of [is_prime] with k = 5 consumes. *)
Definition cinq_tirages : list Z := [0; 0; 0; 0; 0].

(** The envelope that the voter of [monde_exemple_grand] casts for "A". *)
Definition enveloppe_exemple : Enveloppe :=
  (12545475714177835509240760034091720024600328966738450696591432594908376,
   1025583371510437961588229511272010774808787960330399293830722458838831).

(** The election of [monde_exemple_grand] with a Decompteur whose primes are
    5 * 2^127 + 1 and 7 * 2^92 + 1. *)
Definition monde_exemple_proth : Monde :=
  set_decompteur
    (mkDecompteur
       (65537, (5 * 2 ^ 127 + 1) * (7 * 2 ^ 92 + 1))
       (Z.invmod 65537 ((5 * 2 ^ 127) * (7 * 2 ^ 92)),
        (5 * 2 ^ 127 + 1) * (7 * 2 ^ 92 + 1))
       ∅)
    monde_exemple_grand.

(** [monde_exemple] with ten draws on the tape, enough for [init_scrutin]. *)
Definition monde_exemple_tirages : Monde :=
  set_hasard [1; 2; 3; 4; 5; 6; 7; 8; 9; 10] monde_exemple.

(** ** Vocabulary of the statements *)

(** [sep.join(parts)] for the separator of the ballot fields. *)
Fixpoint join_sep (parts : list (list Z)) : list Z :=
  match parts with
  | [] => []
  | [part] => part
  | part :: parts' => part ++ sep ++ join_sep parts'
  end.

(** A character of [token_hex]: a digit or a lowercase letter a-f. *)
Definition is_hex_char (c : Z) : Prop := 48 <= c <= 57 \/ 97 <= c <= 102.

(** A character of a voter's code: a digit or an uppercase letter A-F. *)
Definition is_code_char (c : Z) : Prop := 48 <= c <= 57 \/ 65 <= c <= 70.

(** A voter as [init_scrutin] creates it, with the digest [h] of the code
    N2. *)
Definition voter_cree (sha256_hexdigest : list Z -> list Z) (v : Voter)
  (h : list Z) : Prop :=
  voter_has_voted v = false
  /\ voter_name v = lit "Citoyen " ++ str_int (voter_id v)
  /\ length (voter_n1 v) = 12%nat /\ Forall is_code_char (voter_n1 v)
  /\ length (voter_n2 v) = 12%nat /\ Forall is_code_char (voter_n2 v)
  /\ hash_sha256 sha256_hexdigest (voter_n2 v) = Ok h.

(* ====================================================================== *)
(** * Properties *)

Example generate_keypair_61_53 :
  generate_keypair 1 12 [61; 0; 0; 0; 0; 0; 53; 0; 0; 0; 0; 0]
  = (Ok ((65537, 3233), (2753, 3233)), []).
Proof. vm_compute. reflexivity. Qed.

Example generate_keypair_3_3 :
  generate_keypair 1 1024 [3; 3] = (Ok ((65537, 9), (1, 9)), []).
Proof. vm_compute. reflexivity. Qed.

Example str_to_int_oui : str_to_int (lit "oui") = Ok 7304553.
Proof. vm_compute. reflexivity. Qed.

Example int_to_str_oui : int_to_str 7304553 = Some (lit "oui").
Proof. vm_compute. reflexivity. Qed.

Example int_to_str_255 : int_to_str 255 = None.
Proof. vm_compute. reflexivity. Qed.

Example str_to_int_e_acute : str_to_int [233] = Ok 50089.
Proof. vm_compute. reflexivity. Qed.

Example int_to_str_e_acute : int_to_str 50089 = Some [233].
Proof. vm_compute. reflexivity. Qed.

Example generate_keypair_from_mersenne :
  fst (generate_keypair_from 1 (2 ^ 89 - 1) (2 ^ 107 - 1) [])
  = Ok (admin_public_key (admin monde_exemple_grand),
        admin_private_key (admin monde_exemple_grand))
  /\ fst (generate_keypair_from 1 (2 ^ 107 - 1) (2 ^ 127 - 1) [])
     = Ok (dec_public_key (decompteur monde_exemple_grand),
           dec_private_key (decompteur monde_exemple_grand)).
Proof. split; vm_compute; reflexivity. Qed.

(** One voter casts "A": the vote is deposited and the code N1 consumed; a
    second attempt is refused; the tally counts the vote. *)
Example scrutin_exemple :
  let '(r1, w1) :=
    submit_vote 3 (lit "A1") (lit "N2") (lit "A") monde_exemple_grand in
  let '(r2, w2) := submit_vote 3 (lit "A1") (lit "N2") (lit "A") w1 in
  let '(r3, w3) := route_depouiller empreinte_test w2 in
  r1 = Ok Redirection
  /\ length (urne (anonymiseur w1)) = 1%nat
  /\ valid_n1 (commissaire w1) = ∅
  /\ r2 = Ok ErreurN1
  /\ r3 = Ok ({[ lit "A" := 1 ]}, [journal (Valide (lit "A"))]).
Proof. vm_compute. repeat split. Qed.

Example codec_leading_nul :
  res_bind (str_to_int (0 :: lit "a")) (fun m => Ok (int_to_str m))
  = Ok (Some (lit "a")).
Proof. vm_compute. reflexivity. Qed.

(** ** Proof tactics *)

Ltac decide_tests :=
  repeat match goal with
    | |- context [Z.ltb ?a ?b] =>
        destruct (Z.ltb_spec a b);
        try (exfalso; Z.div_mod_to_equations; lia)
    | |- context [Z.leb ?a ?b] =>
        destruct (Z.leb_spec a b);
        try (exfalso; Z.div_mod_to_equations; lia)
    end.

Ltac decide_tests_in H :=
  repeat match type of H with
    | context [Z.ltb ?a ?b] => destruct (Z.ltb_spec a b)
    | context [Z.leb ?a ?b] => destruct (Z.leb_spec a b)
    end.

Ltac bool_to_prop :=
  repeat match goal with
    | H : andb _ _ = true |- _ => apply andb_true_iff in H as [? ?]
    | H : negb _ = true |- _ => apply negb_true_iff in H
    | H : Z.leb _ _ = true |- _ => apply Z.leb_le in H
    | H : Z.ltb _ _ = true |- _ => apply Z.ltb_lt in H
    | H : andb _ _ = false |- _ => apply andb_false_iff in H as [?|?]
    | H : Z.leb _ _ = false |- _ => apply Z.leb_gt in H
    | H : Z.ltb _ _ = false |- _ => apply Z.ltb_ge in H
    end.

(** ** Arithmetic of the built-ins *)

Lemma pow_pos_mod_spec (b : Z) (e : positive) (c : Z) :
  pow_pos_mod b e c = (b ^ Zpos e) mod c.
Proof.
  induction e as [e IH | e IH |]; simpl pow_pos_mod.
  - rewrite IH, Pos2Z.inj_xI.
    replace (2 * Z.pos e + 1) with (Z.pos e + Z.pos e + 1) by lia.
    rewrite !Z.pow_add_r, Z.pow_1_r by lia.
    rewrite <- (Zmult_mod (b ^ Z.pos e) (b ^ Z.pos e)), Zmult_mod_idemp_l.
    reflexivity.
  - rewrite IH, Pos2Z.inj_xO.
    replace (2 * Z.pos e) with (Z.pos e + Z.pos e) by lia.
    rewrite Z.pow_add_r by lia.
    rewrite <- Zmult_mod. reflexivity.
  - now rewrite Z.pow_1_r.
Qed.

Lemma pow_nonneg_mod_spec (b e c : Z) :
  0 <= e -> pow_nonneg_mod b e c = (b ^ e) mod c.
Proof.
  destruct e as [| p | p]; intros He; simpl.
  - reflexivity.
  - apply pow_pos_mod_spec.
  - lia.
Qed.

(** For a non-negative exponent and a positive modulus, the built-in [pow]
    returns b^e mod m. *)
Lemma pow_spec (b e m : Z) :
  0 <= e -> 0 < m -> pow b e m = Ok ((b ^ e) mod m).
Proof.
  intros He Hm. unfold pow.
  destruct (Z.eqb_spec m 0) as [|_]; [lia|].
  rewrite Z.abs_eq by lia.
  destruct (Z.ltb_spec m 0) as [|_]; [lia|]. simpl.
  destruct (Z.eqb_spec m 1) as [->|_].
  - now rewrite Z.mod_1_r.
  - destruct (Z.ltb_spec e 0) as [|_]; [lia|].
    now rewrite pow_nonneg_mod_spec.
Qed.

Lemma pow_range (b e m r : Z) :
  0 < m -> pow b e m = Ok r -> 0 <= r < m.
Proof.
  intros Hm. unfold pow.
  destruct (Z.eqb_spec m 0) as [|_]; [lia|].
  rewrite Z.abs_eq by lia.
  destruct (Z.ltb_spec m 0) as [|_]; [lia|]. simpl.
  destruct (Z.eqb_spec m 1) as [->|_]; [intros [= <-]; lia|].
  assert (Hn : forall x y, 0 <= pow_nonneg_mod x y m < m).
  { intros x y. destruct y; simpl; rewrite ?pow_pos_mod_spec;
      apply Z.mod_pos_bound; lia. }
  destruct (e <? 0).
  - destruct (Z.gcd b m =? 1); [intros [= <-]; apply Hn | discriminate].
  - intros [= <-]; apply Hn.
Qed.

(** [modinv] on a base coprime to a modulus of at least 2. *)
Lemma modinv_spec (a m : Z) :
  2 <= m -> Z.gcd a m = 1 ->
  modinv a m = Ok (Z.invmod a m) /\ (Z.invmod a m * a) mod m = 1
  /\ 0 <= Z.invmod a m < m.
Proof.
  intros Hm Hg. unfold modinv, pow.
  destruct (Z.eqb_spec m 0) as [|_]; [lia|].
  rewrite Z.abs_eq by lia.
  destruct (Z.ltb_spec m 0) as [|_]; [lia|]. simpl.
  destruct (Z.eqb_spec m 1) as [|_]; [lia|].
  rewrite Hg. simpl.
  rewrite Z.mod_invmod.
  split; [reflexivity|]. split.
  - now apply Z.invmod_coprime.
  - rewrite <- (Z.mod_invmod m a). apply Z.mod_pos_bound. lia.
Qed.

Lemma gcd_loop_spec (k : nat) :
  forall (fuel : nat) (a b : Z),
    0 <= a -> 0 <= b < 2 ^ Z.of_nat k -> (2 * k + 1 <= fuel)%nat ->
    gcd_loop fuel a b = Z.gcd a b.
Proof.
  induction k as [|k IH]; intros fuel a b Ha Hb Hf.
  - assert (b = 0) by (simpl in Hb; lia). subst b.
    destruct fuel as [|fuel]; [lia|]. simpl.
    rewrite Z.gcd_0_r, Z.abs_eq; lia.
  - destruct fuel as [|fuel]; [lia|]. simpl gcd_loop.
    destruct (Z.eqb_spec b 0) as [->|Hb0].
    { rewrite Z.gcd_0_r, Z.abs_eq; lia. }
    assert (Hr : 0 <= a mod b < b) by (apply Z.mod_pos_bound; lia).
    destruct fuel as [|fuel]; [lia|]. simpl gcd_loop.
    destruct (Z.eqb_spec (a mod b) 0) as [Hr0|Hr0].
    { rewrite <- (Z.gcd_mod_l a b), Hr0, Z.gcd_0_l, Z.abs_eq; lia. }
    assert (Hs : 0 <= b mod (a mod b) < a mod b) by (apply Z.mod_pos_bound; lia).
    rewrite IH.
    + rewrite Z.gcd_comm, Z.gcd_mod_l, Z.gcd_comm, Z.gcd_mod_l. reflexivity.
    + lia.
    + split; [lia|].
      pose proof (Z.div_mod b (a mod b) ltac:(lia)) as Hdm.
      assert (1 <= b / (a mod b)) by (apply Z.div_le_lower_bound; lia).
      rewrite Nat2Z.inj_succ, Z.pow_succ_r in Hb by lia. nia.
    + lia.
Qed.

(** On non-negative arguments the source's [gcd] is the greatest common
    divisor. *)
Lemma gcd_spec (a b : Z) : 0 <= a -> 0 <= b -> gcd a b = Z.gcd a b.
Proof.
  intros Ha Hb. unfold gcd.
  apply (gcd_loop_spec (Z.to_nat (Z.log2 (Z.abs b) + 1))); [lia| |lia].
  rewrite Z.abs_eq by lia. split; [lia|].
  rewrite Z2Nat.id by (pose proof (Z.log2_nonneg b); lia).
  destruct (Z.eq_dec b 0) as [->|Hb0]; [simpl; lia|].
  apply Z.log2_lt_pow2; lia.
Qed.

(** ** Reasoning about monadic programs *)

Lemma bind_Ok {S A B} (m : M S A) (k : A -> M S B) (s s' : S) (b : B) :
  bind m k s = (Ok b, s') ->
  exists a s1, m s = (Ok a, s1) /\ k a s1 = (Ok b, s').
Proof.
  unfold bind. destruct (m s) as [[a | e |] s1]; intros H; try discriminate.
  now exists a, s1.
Qed.

Lemma bind_step {S A B} (m : M S A) (k : A -> M S B) (s s1 : S) (a : A) :
  m s = (Ok a, s1) -> bind m k s = k a s1.
Proof. intros H. unfold bind. now rewrite H. Qed.

Lemma randrange_Ok (a b r : Z) (t t' : list Z) :
  randrange a b t = (Ok r, t') ->
  a <= r < b /\ exists v, t = v :: t' /\ r = a + v mod (b - a).
Proof.
  unfold randrange. destruct (Z.leb_spec b a); [discriminate|].
  destruct t as [|v t0]; [discriminate|]. intros [= <- <-].
  split; [|eauto].
  pose proof (Z.mod_pos_bound v (b - a)). lia.
Qed.

Lemma randrange_Raise (a b : Z) (e : Exn) (t t' : list Z) :
  randrange a b t = (Raise e, t') -> b <= a.
Proof.
  unfold randrange. destruct (Z.leb_spec b a); [auto|].
  destruct t; discriminate.
Qed.

Lemma randbits_Ok (k r : Z) (t t' : list Z) :
  randbits k t = (Ok r, t') ->
  0 <= k /\ 0 <= r < 2 ^ k /\ exists v, t = v :: t' /\ r = v mod 2 ^ k.
Proof.
  unfold randbits. destruct (Z.ltb_spec k 0); [discriminate|].
  destruct t as [|v t0]; [discriminate|]. intros [= <- <-].
  split; [lia|]. split; [|eauto].
  apply Z.mod_pos_bound. apply Z.pow_pos_nonneg; lia.
Qed.

Lemma bind_inv {S A B} (m : M S A) (k : A -> M S B) (s s' : S) (r : Res B) :
  bind m k s = (r, s') ->
  match m s with
  | (Ok a, s1) => k a s1 = (r, s')
  | (Raise e, s1) => r = Raise e /\ s' = s1
  | (Epuise, s1) => r = Epuise /\ s' = s1
  end.
Proof.
  unfold bind. destruct (m s) as [[a | e |] s1]; intros H;
    [exact H | |]; injection H as <- <-; auto.
Qed.

(** ** RSA *)

Lemma rsa_mod_prime (p x k : Z) :
  Z.prime p -> 0 <= k -> (x ^ (1 + k * (p - 1))) mod p = x mod p.
Proof.
  intros Hp Hk. pose proof (Z.prime_ge_2 _ Hp) as Hp2.
  rewrite Z.pow_add_r, Z.pow_1_r by nia.
  destruct (Z.eq_dec (x mod p) 0) as [Hx|Hx].
  - rewrite Z.mul_mod, Hx by lia. now rewrite Z.mul_0_l, Z.mod_0_l by lia.
  - assert (H1 : x ^ (k * (p - 1)) mod p = 1).
    { rewrite Z.mul_comm, Z.pow_mul_r by lia.
      rewrite <- Z.mod_pow_l, (Z.fermat_nz p x Hp Hx), Z.pow_1_l by lia.
      apply Z.mod_small; lia. }
    rewrite Zmult_mod, H1, Z.mul_1_r. apply Z.mod_mod; lia.
Qed.

Lemma rsa_core (p q e d x : Z) :
  Z.prime p -> Z.prime q -> p <> q -> 0 <= e -> 0 <= d ->
  (e * d) mod ((p - 1) * (q - 1)) = 1 ->
  (x ^ (e * d)) mod (p * q) = x mod (p * q).
Proof.
  intros Hp Hq Hpq He Hd Hed.
  pose proof (Z.prime_ge_2 _ Hp) as Hp2. pose proof (Z.prime_ge_2 _ Hq) as Hq2.
  set (phi := (p - 1) * (q - 1)) in *.
  assert (Hphi : 0 < phi) by (unfold phi; nia).
  pose proof (Z.div_mod (e * d) phi ltac:(lia)) as Hdm. rewrite Hed in Hdm.
  assert (Hj : 0 <= e * d / phi) by (apply Z.div_pos; nia).
  set (j := e * d / phi) in *.
  assert (Hmp : (x ^ (e * d)) mod p = x mod p).
  { replace (e * d) with (1 + (j * (q - 1)) * (p - 1)) by (unfold phi in Hdm; lia).
    apply rsa_mod_prime; [assumption | nia]. }
  assert (Hmq : (x ^ (e * d)) mod q = x mod q).
  { replace (e * d) with (1 + (j * (p - 1)) * (q - 1)) by (unfold phi in Hdm; lia).
    apply rsa_mod_prime; [assumption | nia]. }
  assert (Dp : (p | x ^ (e * d) - x)).
  { apply Z.mod_divide; [lia|]. rewrite Zminus_mod, Hmp, Z.sub_diag. apply Z.mod_0_l; lia. }
  assert (Dq : (q | x ^ (e * d) - x)).
  { apply Z.mod_divide; [lia|]. rewrite Zminus_mod, Hmq, Z.sub_diag. apply Z.mod_0_l; lia. }
  assert (Hrp : Z.gcd p q = 1).
  { apply Z.coprime_prime_l; [assumption|].
    intros Hd'. apply Hpq. now apply Z.divide_prime_prime. }
  destruct Dq as [m Hm].
  assert (Dm : (p | m)).
  { apply Z.gauss with q; [|assumption]. rewrite Z.mul_comm, <- Hm. exact Dp. }
  destruct Dm as [m' ->].
  replace (x ^ (e * d)) with (x + m' * (p * q)) by lia.
  apply Z_mod_plus_full.
Qed.

(** ** Facts about prime and key generation *)

Lemma is_prime_true_ge_2 (n : Z) (k : nat) (t t' : list Z) :
  is_prime n k t = (Ok true, t') -> 2 <= n.
Proof.
  unfold is_prime. destruct (Z.ltb_spec n 2); [discriminate | lia].
Qed.

(** What [generate_large_prime] returns is odd, at least 3, below 2^bits,
    and was accepted by [is_prime]. *)
Lemma generate_large_prime_Ok (fuel : nat) (bits : Z) :
  forall (t t' : list Z) (p : Z),
    generate_large_prime fuel bits t = (Ok p, t') ->
    3 <= p < 2 ^ bits /\ p mod 2 = 1
    /\ exists t1 t2, is_prime p 5 t1 = (Ok true, t2).
Proof.
  induction fuel as [|fuel IH]; intros t t' p H; [discriminate|].
  simpl in H.
  apply bind_Ok in H as (num & t1 & Hnum & H).
  apply bind_Ok in H as (ok & t2 & Hok & H).
  destruct ok.
  - injection H as <- <-.
    apply randbits_Ok in Hnum as (Hbits & Hrange & _).
    pose proof (is_prime_true_ge_2 _ _ _ _ Hok) as H2.
    assert (Hodd : (if num mod 2 =? 0 then num + 1 else num) mod 2 = 1).
    { destruct (Z.eqb_spec (num mod 2) 0) as [E|E].
      - rewrite Z.add_mod, E by lia. reflexivity.
      - pose proof (Z.mod_pos_bound num 2). lia. }
    split; [|split; [exact Hodd | eauto]].
    split.
    + destruct (Z.eq_dec (if num mod 2 =? 0 then num + 1 else num) 2) as [E|E];
        [rewrite E in Hodd; discriminate | lia].
    + destruct (Z.eqb_spec (num mod 2) 0) as [E|E]; [|lia].
      destruct (Z.eq_dec bits 0) as [->|Hb]; [simpl in Hrange; lia|].
      assert (Hev : (2 ^ bits) mod 2 = 0).
      { replace bits with (1 + (bits - 1)) by lia.
        rewrite Z.pow_add_r, Z.pow_1_r by lia.
        rewrite Z.mul_comm. apply Z.mod_mul; lia. }
      destruct (Z.eq_dec (num + 1) (2 ^ bits)) as [E2|E2]; [|lia].
      rewrite <- E2, Z.add_mod, E in Hev by lia. discriminate.
  - eapply IH. exact H.
Qed.

Lemma generate_keypair_e_spec (fuel : nat) (phi : Z) :
  2 <= phi ->
  forall (e : Z) (t t' : list Z) (r : Res Z),
    1 <= e ->
    generate_keypair_e fuel e (gcd e phi) phi t = (r, t') ->
    match r with
    | Ok e' => 1 <= e' /\ Z.gcd e' phi = 1
    | Raise _ => False
    | Epuise => True
    end.
Proof.
  intros Hphi. induction fuel as [|fuel IH]; intros e t t' r He H.
  - simpl in H. destruct (Z.eqb_spec (gcd e phi) 1) as [Hg|Hg].
    + injection H as <- <-. rewrite gcd_spec in Hg by lia. auto.
    + injection H as <- <-. exact I.
  - simpl in H. destruct (Z.eqb_spec (gcd e phi) 1) as [Hg|Hg].
    + injection H as <- <-. rewrite gcd_spec in Hg by lia. auto.
    + unfold bind in H.
      destruct (randrange 1 phi t) as [[e' | ex |] t1] eqn:Hr.
      * apply randrange_Ok in Hr as [Hr _]. eapply IH; [|exact H]. lia.
      * apply randrange_Raise in Hr. lia.
      * injection H as <- <-. exact I.
Qed.

(** The key pair built from two numbers p, q >= 3: never an exception, and
    when it is returned, e and d are inverse modulo (p-1)(q-1). *)
Lemma generate_keypair_from_spec (fuel : nat) (p q : Z) (t t' : list Z)
      (r : Res (Key * Key)) :
  3 <= p -> 3 <= q ->
  generate_keypair_from fuel p q t = (r, t') ->
  match r with
  | Ok (pub, priv) =>
      exists e d, pub = (e, p * q) /\ priv = (d, p * q)
                  /\ 1 <= e /\ 0 <= d < (p - 1) * (q - 1)
                  /\ (e * d) mod ((p - 1) * (q - 1)) = 1
  | Raise _ => False
  | Epuise => True
  end.
Proof.
  intros Hp Hq H. unfold generate_keypair_from in H.
  assert (Hphi : 2 <= (p - 1) * (q - 1)) by nia.
  unfold bind in H.
  destruct (generate_keypair_e fuel 65537 (gcd 65537 ((p - 1) * (q - 1)))
              ((p - 1) * (q - 1)) t) as [[e | ex |] t1] eqn:He;
    pose proof (generate_keypair_e_spec fuel _ Hphi 65537 _ _ _ ltac:(lia) He) as Hs;
    simpl in Hs.
  - destruct Hs as [He1 Hg].
    destruct (modinv_spec e _ Hphi Hg) as (Hm & Hinv & Hrange).
    unfold lift in H. rewrite Hm in H. injection H as <- <-.
    exists e, (Z.invmod e ((p - 1) * (q - 1))).
    repeat split; try lia. now rewrite Z.mul_comm.
  - contradiction.
  - injection H as <- <-. exact I.
Qed.

(** [generate_keypair] runs [generate_keypair_from] on its two draws. *)
Lemma generate_keypair_draws (fuel : nat) (bits p q : Z) (t t1 t2 : list Z) :
  generate_large_prime fuel (bits / 2) t = (Ok p, t1) ->
  generate_large_prime fuel (bits / 2) t1 = (Ok q, t2) ->
  generate_keypair fuel bits t = generate_keypair_from fuel p q t2.
Proof.
  intros Hp Hq. unfold generate_keypair.
  rewrite (bind_step _ _ _ _ _ Hp), (bind_step _ _ _ _ _ Hq). reflexivity.
Qed.

(** Every key pair that [generate_keypair] returns has a public and a
    private half over the same modulus n >= 9, with 1 <= e and 0 <= d. *)
Lemma generate_keypair_Ok (fuel : nat) (bits : Z) (t t' : list Z)
      (pub priv : Key) :
  generate_keypair fuel bits t = (Ok (pub, priv), t') ->
  exists p q e d,
    3 <= p /\ 3 <= q /\ pub = (e, p * q) /\ priv = (d, p * q)
    /\ 1 <= e /\ 0 <= d /\ (e * d) mod ((p - 1) * (q - 1)) = 1.
Proof.
  intros H. unfold generate_keypair in H.
  apply bind_Ok in H as (p & t1 & Hp & H).
  apply bind_Ok in H as (q & t2 & Hq & H).
  apply generate_large_prime_Ok in Hp as ([Hp _] & _).
  apply generate_large_prime_Ok in Hq as ([Hq _] & _).
  pose proof (generate_keypair_from_spec _ _ _ _ _ _ Hp Hq H) as Hs.
  simpl in Hs. destruct Hs as (e & d & -> & -> & He & Hd & Hed).
  exists p, q, e, d. repeat split; try assumption; lia.
Qed.

(** The keys that the constructors of Administrateur and Decompteur
    install are usable: same modulus n >= 9 in both halves, 1 <= e, 0 <= d. *)
Lemma Administrateur_init_keys (fuel : nat) (t t' : list Z)
      (a : Administrateur) :
  Administrateur_init fuel t = (Ok a, t') ->
  exists e d n,
    admin_public_key a = (e, n) /\ admin_private_key a = (d, n)
    /\ 9 <= n /\ 1 <= e /\ 0 <= d.
Proof.
  unfold Administrateur_init. intros H.
  apply bind_Ok in H as ([pub priv] & t1 & Hk & H). injection H as <- <-.
  apply generate_keypair_Ok in Hk
    as (p & q & e & d & Hp & Hq & -> & -> & He & Hd & _).
  exists e, d, (p * q). repeat split; try assumption. nia.
Qed.

Lemma Decompteur_init_keys (fuel : nat) (t t' : list Z) (dec : Decompteur) :
  Decompteur_init fuel t = (Ok dec, t') ->
  exists e d n,
    dec_public_key dec = (e, n) /\ dec_private_key dec = (d, n)
    /\ 9 <= n /\ 1 <= e /\ 0 <= d /\ resultats dec = ∅.
Proof.
  unfold Decompteur_init. intros H.
  apply bind_Ok in H as ([pub priv] & t1 & Hk & H). injection H as <- <-.
  apply generate_keypair_Ok in Hk
    as (p & q & e & d & Hp & Hq & -> & -> & He & Hd & _).
  exists e, d, (p * q). repeat split; try assumption. nia.
Qed.

(** ** RSA round trips *)

(** Primality by trial division, for concrete numbers. *)
Lemma prime_by_trial (p : Z) :
  1 < p ->
  forallb (fun n => negb (p mod n =? 0)) (seqZ 2 (p - 2)) = true ->
  Z.prime p.
Proof.
  intros Hp Hall. split; [exact Hp|]. intros n Hn Hdiv.
  rewrite forallb_forall in Hall.
  assert (Hin : In n (seqZ 2 (p - 2))).
  { apply list_elem_of_In, elem_of_seqZ. lia. }
  apply Hall in Hin. apply Z.mod_divide in Hdiv; [|lia].
  rewrite Hdiv in Hin. discriminate.
Qed.

Lemma prime_61 : Z.prime 61.
Proof. apply prime_by_trial; [lia | vm_compute; reflexivity]. Qed.

Lemma prime_53 : Z.prime 53.
Proof. apply prime_by_trial; [lia | vm_compute; reflexivity]. Qed.

(** Exponentiation with e then d (or d then e) is the identity on [0, n)
    for keys built from two distinct primes. *)
Lemma rsa_pow_pow (p q e d x : Z) :
  Z.prime p -> Z.prime q -> p <> q -> 0 <= e -> 0 <= d ->
  (e * d) mod ((p - 1) * (q - 1)) = 1 ->
  0 <= x < p * q ->
  res_bind (pow x e (p * q)) (fun c => pow c d (p * q)) = Ok x.
Proof.
  intros Hp Hq Hpq He Hd Hed Hx.
  assert (Hn : 0 < p * q) by lia.
  rewrite pow_spec by assumption. simpl.
  rewrite pow_spec by assumption.
  rewrite Z.mod_pow_l, <- Z.pow_mul_r by assumption.
  rewrite (rsa_core p q e d x) by assumption.
  now rewrite Z.mod_small.
Qed.

(** C2 (amended). For every key pair ((e,n),(d,n)) returned by
    generate_keypair when the two numbers it drew are distinct primes, and
    every x in [0, n): decrypting the encryption of x gives x,
    (x^e mod n)^d mod n = x, and verifying the signature of x gives x,
    (x^d mod n)^e mod n = x. *)
Theorem rsa_round_trip (fuel : nat) (bits p q : Z) (t t1 t2 t' : list Z)
        (pub priv : Key) :
  generate_large_prime fuel (bits / 2) t = (Ok p, t1) ->
  generate_large_prime fuel (bits / 2) t1 = (Ok q, t2) ->
  Z.prime p -> Z.prime q -> p <> q ->
  generate_keypair fuel bits t = (Ok (pub, priv), t') ->
  forall x : Z, 0 <= x < snd pub ->
    res_bind (pow x (fst pub) (snd pub))
             (fun c => pow c (fst priv) (snd priv)) = Ok x
    /\ res_bind (pow x (fst priv) (snd priv))
                (fun s => pow s (fst pub) (snd pub)) = Ok x.
Proof.
  intros Gp Gq Hp Hq Hpq Hk x Hx.
  rewrite (generate_keypair_draws _ _ _ _ _ _ _ Gp Gq) in Hk.
  apply generate_large_prime_Ok in Gp as ([Hp3 _] & _).
  apply generate_large_prime_Ok in Gq as ([Hq3 _] & _).
  pose proof (generate_keypair_from_spec _ _ _ _ _ _ Hp3 Hq3 Hk) as Hs.
  simpl in Hs. destruct Hs as (e & d & -> & -> & He & Hd & Hed).
  simpl in *. split.
  - apply rsa_pow_pow; try assumption; lia.
  - apply rsa_pow_pow; try assumption; try lia. now rewrite Z.mul_comm.
Qed.

Lemma rsa_round_trip_witness :
  generate_large_prime 1 (12 / 2) [61; 0; 0; 0; 0; 0; 53; 0; 0; 0; 0; 0]
  = (Ok 61, [53; 0; 0; 0; 0; 0])
  /\ generate_large_prime 1 (12 / 2) [53; 0; 0; 0; 0; 0] = (Ok 53, [])
  /\ generate_keypair 1 12 [61; 0; 0; 0; 0; 0; 53; 0; 0; 0; 0; 0]
     = (Ok ((65537, 3233), (2753, 3233)), [])
  /\ res_bind (pow 65 65537 3233) (fun c => pow c 2753 3233) = Ok 65
  /\ res_bind (pow 65 2753 3233) (fun s => pow s 65537 3233) = Ok 65.
Proof.
  split; [vm_compute; reflexivity|].
  split; [vm_compute; reflexivity|].
  split; [vm_compute; reflexivity|].
  apply (rsa_round_trip 1 12 61 53 [61; 0; 0; 0; 0; 0; 53; 0; 0; 0; 0; 0]
           [53; 0; 0; 0; 0; 0] [] [] (65537, 3233) (2753, 3233)).
  - vm_compute; reflexivity.
  - vm_compute; reflexivity.
  - exact prime_61.
  - exact prime_53.
  - lia.
  - vm_compute; reflexivity.
  - simpl; lia.
Defined.

(** C2 as stated fails: when both draws of generate_keypair(bits=1024)
    give 3, it returns ((65537, 9), (1, 9)), and x = 3 is sent to 0 and
    never recovered. *)
Lemma rsa_equal_primes_not_inverted :
  ~ (forall (fuel : nat) (bits : Z) (t t' : list Z) (pub priv : Key),
        generate_keypair fuel bits t = (Ok (pub, priv), t') ->
        forall x : Z, 0 <= x < snd pub ->
          res_bind (pow x (fst pub) (snd pub))
                   (fun c => pow c (fst priv) (snd priv)) = Ok x
          /\ res_bind (pow x (fst priv) (snd priv))
                      (fun s => pow s (fst pub) (snd pub)) = Ok x).
Proof.
  intros H.
  destruct (H 1%nat 1024 [3; 3] [] (65537, 9) (1, 9) eq_refl 3) as [H1 _].
  - simpl; lia.
  - vm_compute in H1. discriminate H1.
Qed.

(** The arithmetic of masking, signing and unmasking. *)
Lemma blind_core (p q e d m k k_inv : Z) :
  Z.prime p -> Z.prime q -> p <> q -> 0 <= e -> 0 <= d ->
  (e * d) mod ((p - 1) * (q - 1)) = 1 ->
  (k_inv * k) mod (p * q) = 1 ->
  let n := p * q in
  let blind_factor := (k ^ e) mod n in
  let m_prime := (m * blind_factor) mod n in
  let s_prime := (m_prime ^ d) mod n in
  let signature := (s_prime * k_inv) mod n in
  (signature ^ e) mod n = m mod n.
Proof.
  intros Hp Hq Hpq He Hd Hed Hk n blind_factor m_prime s_prime signature.
  change (p * q) with n in Hk.
  assert (Hbf : (blind_factor ^ d) mod n = k mod n).
  { unfold blind_factor. rewrite Z.mod_pow_l, <- Z.pow_mul_r by assumption.
    now apply rsa_core. }
  assert (Hs' : s_prime = (m ^ d * k) mod n).
  { unfold s_prime, m_prime.
    rewrite Z.mod_pow_l, Z.pow_mul_l.
    rewrite Zmult_mod, Hbf, <- Zmult_mod. reflexivity. }
  assert (Hs : signature = (m ^ d) mod n).
  { unfold signature. rewrite Hs', Zmult_mod_idemp_l.
    rewrite <- Z.mul_assoc, (Z.mul_comm k k_inv).
    rewrite Zmult_mod, Hk, Z.mul_1_r. apply Z.mod_mod.
    pose proof (Z.prime_ge_2 _ Hp). pose proof (Z.prime_ge_2 _ Hq).
    unfold n. nia. }
  rewrite Hs, Z.mod_pow_l, <- Z.pow_mul_r by assumption.
  rewrite Z.mul_comm. now apply rsa_core.
Qed.

(** With keys built from two distinct primes, the signature that
    [submit_vote_signature] returns for any integer m (below the modulus or
    not) has e-th power m mod n. *)
Lemma submit_vote_signature_recovers (p q e d m k : Z) (w : Monde) :
  Z.prime p -> Z.prime q -> p <> q -> 0 <= e -> 0 <= d ->
  (e * d) mod ((p - 1) * (q - 1)) = 1 ->
  admin_private_key (admin w) = (d, p * q) ->
  Z.gcd k (p * q) = 1 ->
  bind (submit_vote_signature e (p * q) m k)
       (fun signature => lift (pow signature e (p * q))) w
  = (Ok (m mod (p * q)), w).
Proof.
  intros Hp Hq Hpq He Hd Hed Hw Hg.
  pose proof (Z.prime_ge_2 _ Hp). pose proof (Z.prime_ge_2 _ Hq).
  assert (Hn : 2 <= p * q) by nia.
  destruct (modinv_spec k (p * q) Hn Hg) as (Hinv & Hki & _).
  unfold submit_vote_signature, signer_aveugle, bind, lift, gets, ret.
  rewrite Hw.
  rewrite (pow_spec k e) by lia.
  rewrite (pow_spec _ d) by lia.
  rewrite Hinv.
  rewrite pow_spec by lia.
  now rewrite (blind_core p q e d m k (Z.invmod k (p * q))).
Qed.

(** C1 (amended). For every Administrateur key pair ((e,n),(d,n)) returned
    by generate_keypair when the two numbers it drew are distinct primes,
    every message 0 <= m < n and every blinding factor 2 <= k <= n-2 with
    gcd(k,n) = 1: masking m, having it signed by signer_aveugle and
    unmasking the result gives a signature s with s^e mod n = m; the world
    is left unchanged. *)
Theorem blind_signature_round_trip (fuel : nat) (bits p q : Z)
        (t t1 t2 t' : list Z) (pub priv : Key) (w : Monde) :
  generate_large_prime fuel (bits / 2) t = (Ok p, t1) ->
  generate_large_prime fuel (bits / 2) t1 = (Ok q, t2) ->
  Z.prime p -> Z.prime q -> p <> q ->
  generate_keypair fuel bits t = (Ok (pub, priv), t') ->
  admin w = mkAdministrateur pub priv ->
  forall m k : Z,
    0 <= m < snd pub -> 2 <= k <= snd pub - 2 -> gcd k (snd pub) = 1 ->
    bind (submit_vote_signature (fst pub) (snd pub) m k)
         (fun signature => lift (pow signature (fst pub) (snd pub))) w
    = (Ok m, w).
Proof.
  intros Gp Gq Hp Hq Hpq Hk Hw m k Hm Hkr Hg.
  rewrite (generate_keypair_draws _ _ _ _ _ _ _ Gp Gq) in Hk.
  apply generate_large_prime_Ok in Gp as ([Hp3 _] & _).
  apply generate_large_prime_Ok in Gq as ([Hq3 _] & _).
  pose proof (generate_keypair_from_spec _ _ _ _ _ _ Hp3 Hq3 Hk) as Hs.
  simpl in Hs. destruct Hs as (e & d & -> & -> & He & Hd & Hed).
  simpl in *.
  rewrite gcd_spec in Hg by lia.
  rewrite (submit_vote_signature_recovers p q e d m k w);
    try assumption; try lia.
  - now rewrite Z.mod_small.
  - now rewrite Hw.
Qed.

Lemma blind_signature_round_trip_witness :
  generate_large_prime 1 (12 / 2) [61; 0; 0; 0; 0; 0; 53; 0; 0; 0; 0; 0]
  = (Ok 61, [53; 0; 0; 0; 0; 0])
  /\ generate_large_prime 1 (12 / 2) [53; 0; 0; 0; 0; 0] = (Ok 53, [])
  /\ generate_keypair 1 12 [61; 0; 0; 0; 0; 0; 53; 0; 0; 0; 0; 0]
     = (Ok ((65537, 3233), (2753, 3233)), [])
  /\ gcd 7 3233 = 1
  /\ let w := mkMonde (mkCommissaire ∅ ∅)
                      (mkAdministrateur (65537, 3233) (2753, 3233))
                      (mkAnonymiseur [])
                      (mkDecompteur (65537, 3233) (2753, 3233) ∅) [] in
     bind (submit_vote_signature 65537 3233 1234 7)
          (fun signature => lift (pow signature 65537 3233)) w
     = (Ok 1234, w).
Proof.
  split; [vm_compute; reflexivity|].
  split; [vm_compute; reflexivity|].
  split; [vm_compute; reflexivity|].
  split; [vm_compute; reflexivity|].
  intros w.
  apply (blind_signature_round_trip 1 12 61 53
           [61; 0; 0; 0; 0; 0; 53; 0; 0; 0; 0; 0] [53; 0; 0; 0; 0; 0] [] []
           (65537, 3233) (2753, 3233) w).
  - vm_compute; reflexivity.
  - vm_compute; reflexivity.
  - exact prime_61.
  - exact prime_53.
  - lia.
  - vm_compute; reflexivity.
  - reflexivity.
  - simpl; lia.
  - simpl; lia.
  - vm_compute; reflexivity.
Defined.

(** C1 as stated fails: when both draws of generate_keypair(bits=1024)
    give 3, the Administrateur's keys are ((65537, 9), (1, 9)); the message
    m = 3 masked with k = 2 comes back with a signature whose e-th power is
    0, not 3. *)
Lemma blind_signature_equal_primes :
  ~ (forall (fuel : nat) (bits : Z) (t t' : list Z) (pub priv : Key)
            (w : Monde),
        generate_keypair fuel bits t = (Ok (pub, priv), t') ->
        admin w = mkAdministrateur pub priv ->
        forall m k : Z,
          0 <= m < snd pub -> 2 <= k <= snd pub - 2 ->
          gcd k (snd pub) = 1 ->
          bind (submit_vote_signature (fst pub) (snd pub) m k)
               (fun signature => lift (pow signature (fst pub) (snd pub))) w
          = (Ok m, w)).
Proof.
  intros H.
  pose (w := mkMonde (mkCommissaire ∅ ∅)
                     (mkAdministrateur (65537, 9) (1, 9))
                     (mkAnonymiseur [])
                     (mkDecompteur (65537, 9) (1, 9) ∅) []).
  assert (H1 := H 1%nat 1024 [3; 3] [] (65537, 9) (1, 9) w eq_refl eq_refl 3 2).
  simpl in H1.
  specialize (H1 ltac:(lia) ltac:(lia) eq_refl).
  apply (f_equal fst) in H1. vm_compute in H1. discriminate H1.
Qed.

(** ** Prime and key generation against the claims *)

Lemma bit_length_bound (x bits : Z) :
  0 < x < 2 ^ bits -> 0 < bit_length x <= bits.
Proof.
  intros Hx. unfold bit_length.
  destruct (Z.eqb_spec x 0) as [|_]; [lia|].
  rewrite Z.abs_eq by lia.
  pose proof (Z.log2_nonneg x).
  assert (Z.log2 x < bits) by (apply Z.log2_lt_pow2; lia).
  lia.
Qed.

(** What does hold of [generate_large_prime]: the value returned is odd, has
    at most [bits] bits, and was accepted by the primality test. *)
Lemma generate_large_prime_at_most_bits (fuel : nat) (bits p : Z)
      (t t' : list Z) :
  generate_large_prime fuel bits t = (Ok p, t') ->
  0 < bit_length p <= bits /\ p mod 2 = 1
  /\ exists t1 t2, is_prime p 5 t1 = (Ok true, t2).
Proof.
  intros H. apply generate_large_prime_Ok in H as (Hr & Hodd & Hpr).
  split; [apply bit_length_bound; lia | auto].
Qed.

(** C6 (the code departs from it). Asked for a 512-bit prime, as
    generate_keypair(bits=1024) does, with secrets.randbits(512) drawing 3,
    generate_large_prime returns 3: it passes the primality test but its bit
    length is 2, not 512. *)
Theorem generate_large_prime_short :
  generate_large_prime 1 512 [3] = (Ok 3, [])
  /\ is_prime 3 5 [] = (Ok true, [])
  /\ bit_length 3 = 2
  /\ ~ (forall (fuel : nat) (bits p : Z) (t t' : list Z),
          2 <= bits ->
          generate_large_prime fuel bits t = (Ok p, t') ->
          bit_length p = bits).
Proof.
  split; [reflexivity|]. split; [reflexivity|]. split; [reflexivity|].
  intros H. specialize (H 1%nat 512 3 [3] [] ltac:(lia) eq_refl).
  discriminate H.
Qed.

(** C7 as stated fails: both draws of generate_keypair(bits=1024) give 3
    and a key pair is returned. *)
Lemma equal_primes_keypair_returned :
  ~ (forall (fuel : nat) (bits p : Z) (t t1 t2 : list Z),
        generate_large_prime fuel (bits / 2) t = (Ok p, t1) ->
        generate_large_prime fuel (bits / 2) t1 = (Ok p, t2) ->
        exists e t', generate_keypair fuel bits t = (Raise e, t')).
Proof.
  intros H.
  destruct (H 1%nat 1024 3 [3; 3] [3] [] eq_refl eq_refl) as (e & t' & He).
  vm_compute in He. discriminate He.
Qed.

(** C7 (amended). When the two primes drawn during generate_keypair are
    equal (p == q), key generation raises no error: whatever it returns is
    the key pair ((e, p*p), (d, p*p)) with e*d = 1 modulo (p-1)^2, and it
    returns it at once, with e = 65537, whenever gcd(65537, (p-1)^2) = 1. *)
Theorem generate_keypair_equal_primes (fuel : nat) (bits p : Z)
        (t t1 t2 : list Z) :
  generate_large_prime fuel (bits / 2) t = (Ok p, t1) ->
  generate_large_prime fuel (bits / 2) t1 = (Ok p, t2) ->
  (forall (r : Res (Key * Key)) (t' : list Z),
      generate_keypair fuel bits t = (r, t') ->
      match r with
      | Ok (pub, priv) =>
          exists e d, pub = (e, p * p) /\ priv = (d, p * p)
                      /\ (e * d) mod ((p - 1) * (p - 1)) = 1
      | Raise _ => False
      | Epuise => True
      end)
  /\ (Z.gcd 65537 ((p - 1) * (p - 1)) = 1 ->
      generate_keypair fuel bits t
      = (Ok ((65537, p * p), (Z.invmod 65537 ((p - 1) * (p - 1)), p * p)),
         t2)).
Proof.
  intros G1 G2.
  rewrite (generate_keypair_draws _ _ _ _ _ _ _ G1 G2).
  apply generate_large_prime_Ok in G1 as ([Hp3 _] & _).
  split.
  - intros r t' H.
    pose proof (generate_keypair_from_spec _ _ _ _ _ _ Hp3 Hp3 H) as Hs.
    destruct r as [[pub priv] | e |]; [|exact Hs|exact I].
    destruct Hs as (e & d & -> & -> & _ & _ & Hed). eauto.
  - intros Hg.
    assert (Hphi : 2 <= (p - 1) * (p - 1)) by nia.
    unfold generate_keypair_from.
    assert (He : generate_keypair_e fuel 65537
                   (gcd 65537 ((p - 1) * (p - 1))) ((p - 1) * (p - 1)) t2
                 = (Ok 65537, t2)).
    { rewrite gcd_spec, Hg by lia. destruct fuel; reflexivity. }
    rewrite (bind_step _ _ _ _ _ He).
    destruct (modinv_spec 65537 _ Hphi Hg) as (Hm & _).
    unfold bind, lift. rewrite Hm. reflexivity.
Qed.

Lemma generate_keypair_equal_primes_witness :
  generate_large_prime 1 (1024 / 2) [3; 3] = (Ok 3, [3])
  /\ generate_large_prime 1 (1024 / 2) [3] = (Ok 3, [])
  /\ Z.gcd 65537 ((3 - 1) * (3 - 1)) = 1
  /\ generate_keypair 1 1024 [3; 3]
     = (Ok ((65537, 3 * 3), (Z.invmod 65537 ((3 - 1) * (3 - 1)), 3 * 3)), []).
Proof.
  split; [reflexivity|]. split; [reflexivity|]. split; [reflexivity|].
  apply (proj2 (generate_keypair_equal_primes 1 1024 3 [3; 3] [3] []
                  eq_refl eq_refl)).
  reflexivity.
Defined.

(** ** The registry of voting codes *)

Lemma consommer_n1_shrinks (n1 : list Z) (self self' : Commissaire)
      (r : Res bool) :
  consommer_n1 n1 self = (r, self') ->
  valid_n1 self' ⊆ valid_n1 self /\ hashed_n2 self' = hashed_n2 self.
Proof.
  unfold consommer_n1. destruct (bool_decide (n1 ∈ valid_n1 self));
    intros H; inversion H; subst; simpl; split; try reflexivity.
  intros x Hx. apply elem_of_difference in Hx. tauto.
Qed.

(** C3. For a token t in valid_n1, consommer_n1(t) returns true and removes
    t (hashed_n2 is untouched); every later call with t, from the state just
    reached or from any state whose valid_n1 is a subset of it (the only
    states further calls of consommer_n1 can lead to), returns false and
    changes nothing; for t not in valid_n1, consommer_n1(t) returns false
    and changes nothing. *)
Theorem consommer_n1_once (self : Commissaire) (t : list Z) :
  (t ∈ valid_n1 self ->
   exists self',
     consommer_n1 t self = (Ok true, self')
     /\ valid_n1 self' = valid_n1 self ∖ {[t]}
     /\ hashed_n2 self' = hashed_n2 self
     /\ consommer_n1 t self' = (Ok false, self')
     /\ forall later : Commissaire,
          valid_n1 later ⊆ valid_n1 self' ->
          consommer_n1 t later = (Ok false, later))
  /\ (t ∉ valid_n1 self -> consommer_n1 t self = (Ok false, self)).
Proof.
  assert (Habsent : forall c : Commissaire,
             t ∉ valid_n1 c -> consommer_n1 t c = (Ok false, c)).
  { intros c Hnot. unfold consommer_n1.
    rewrite (bool_decide_eq_false_2 _ Hnot). reflexivity. }
  split; [|apply Habsent].
  intros Hin.
  exists (mkCommissaire (valid_n1 self ∖ {[t]}) (hashed_n2 self)).
  assert (Hgone : t ∉ valid_n1 self ∖ {[t]}).
  { intros Hx. apply elem_of_difference in Hx as [_ Hx].
    apply Hx, elem_of_singleton_2. reflexivity. }
  split.
  { unfold consommer_n1. rewrite (bool_decide_eq_true_2 _ Hin). reflexivity. }
  split; [reflexivity|]. split; [reflexivity|]. split.
  - apply Habsent. exact Hgone.
  - intros later Hsub. apply Habsent. intros Hx. apply Hgone.
    apply Hsub. exact Hx.
Qed.

Lemma consommer_n1_once_witness :
  ([65; 49] ∈ valid_n1 (mkCommissaire {[ [65; 49] ]} {[ [104] ]}))
  /\ ([66; 50] ∉ valid_n1 (mkCommissaire {[ [65; 49] ]} {[ [104] ]}))
  /\ (exists self',
        consommer_n1 [65; 49] (mkCommissaire {[ [65; 49] ]} {[ [104] ]})
        = (Ok true, self')
        /\ valid_n1 self' = ({[ [65; 49] ]} : gset (list Z)) ∖ {[ [65; 49] ]}
        /\ hashed_n2 self' = {[ [104] ]}
        /\ consommer_n1 [65; 49] self' = (Ok false, self')
        /\ forall later : Commissaire,
             valid_n1 later ⊆ valid_n1 self' ->
             consommer_n1 [65; 49] later = (Ok false, later))
  /\ consommer_n1 [66; 50] (mkCommissaire {[ [65; 49] ]} {[ [104] ]})
     = (Ok false, mkCommissaire {[ [65; 49] ]} {[ [104] ]}).
Proof.
  assert (Hin : [65; 49] ∈ valid_n1 (mkCommissaire {[ [65; 49] ]} {[ [104] ]})).
  { simpl. apply elem_of_singleton_2. reflexivity. }
  assert (Hnot : [66; 50] ∉ valid_n1 (mkCommissaire {[ [65; 49] ]} {[ [104] ]})).
  { simpl. intros H. apply elem_of_singleton_1 in H. discriminate H. }
  split; [exact Hin|]. split; [exact Hnot|]. split.
  - exact (proj1 (consommer_n1_once _ [65; 49]) Hin).
  - exact (proj2 (consommer_n1_once _ [66; 50]) Hnot).
Defined.

(** ** The codec *)

Lemma int_from_bytes_big_snoc (bs : list Z) (b : Z) :
  int_from_bytes_big (bs ++ [b]) = int_from_bytes_big bs * 256 + b.
Proof. unfold int_from_bytes_big. now rewrite fold_left_app. Qed.

Lemma int_from_bytes_big_range (bs : list Z) :
  Forall is_byte bs ->
  0 <= int_from_bytes_big bs < 256 ^ Z.of_nat (length bs).
Proof.
  induction bs as [|b bs IH] using rev_ind; intros Hb.
  - simpl. unfold int_from_bytes_big. simpl. lia.
  - apply Forall_app in Hb as [Hbs Hb]. apply Forall_inv in Hb.
    specialize (IH Hbs). unfold is_byte in Hb.
    rewrite int_from_bytes_big_snoc, length_app, Nat2Z.inj_add.
    rewrite Z.pow_add_r by lia. simpl (Z.of_nat (length [b])).
    change (256 ^ 1) with 256. lia.
Qed.

Lemma int_from_bytes_big_cons (b : Z) (bs : list Z) :
  int_from_bytes_big (b :: bs)
  = b * 256 ^ Z.of_nat (length bs) + int_from_bytes_big bs.
Proof.
  induction bs as [|x bs IH] using rev_ind.
  - unfold int_from_bytes_big. simpl. lia.
  - rewrite app_comm_cons, !int_from_bytes_big_snoc, IH.
    rewrite length_app, Nat2Z.inj_add, Z.pow_add_r by lia.
    simpl (Z.of_nat (length [x])). change (256 ^ 1) with 256. lia.
Qed.

Lemma bytes_little_from_bytes (bs : list Z) :
  Forall is_byte bs ->
  rev (bytes_little (length bs) (int_from_bytes_big bs)) = bs.
Proof.
  induction bs as [|b bs IH] using rev_ind; intros Hb; [reflexivity|].
  apply Forall_app in Hb as [Hbs Hb]. apply Forall_inv in Hb.
  unfold is_byte in Hb.
  rewrite length_app, Nat.add_comm. simpl.
  rewrite int_from_bytes_big_snoc.
  replace ((int_from_bytes_big bs * 256 + b) mod 256) with b
    by (rewrite Z.add_comm, Z.mod_add, Z.mod_small; lia).
  replace ((int_from_bytes_big bs * 256 + b) / 256) with (int_from_bytes_big bs)
    by (rewrite Z.add_comm, Z.div_add, Z.div_small; lia).
  now rewrite IH.
Qed.

(** The byte length that [int_to_str] computes is the length of the byte
    string the integer came from, when that string has no leading zero. *)
Lemma byte_length_from_bytes (b : Z) (bs : list Z) :
  Forall is_byte (b :: bs) -> b <> 0 ->
  (bit_length (int_from_bytes_big (b :: bs)) + 7) / 8
  = Z.of_nat (length (b :: bs)).
Proof.
  intros Hb Hb0.
  pose proof (int_from_bytes_big_range _ Hb) as Hhi.
  pose proof (int_from_bytes_big_range _ (Forall_inv_tail Hb)) as Hlo.
  apply Forall_inv in Hb. unfold is_byte in Hb.
  rewrite int_from_bytes_big_cons in *.
  set (v := b * 256 ^ Z.of_nat (length bs) + int_from_bytes_big bs) in *.
  set (n := Z.of_nat (length bs)) in *.
  assert (Hn : 0 <= n) by (unfold n; lia).
  assert (Hp : 0 < 256 ^ n) by (apply Z.pow_pos_nonneg; lia).
  assert (Hv : 256 ^ n <= v) by (unfold v; nia).
  simpl length in *. rewrite Nat2Z.inj_succ in *. fold n in Hhi |- *.
  assert (E1 : 256 ^ n = 2 ^ (8 * n))
    by (rewrite Z.pow_mul_r by lia; reflexivity).
  assert (E2 : 256 ^ Z.succ n = 2 ^ (8 * n + 8)).
  { replace (8 * n + 8) with (8 * Z.succ n) by lia.
    rewrite Z.pow_mul_r by lia. reflexivity. }
  unfold bit_length. destruct (Z.eqb_spec v 0) as [|_]; [lia|].
  rewrite Z.abs_eq by lia.
  assert (L1 : 8 * n <= Z.log2 v) by (apply Z.log2_le_pow2; lia).
  assert (L2 : Z.log2 v < 8 * n + 8) by (apply Z.log2_lt_pow2; lia).
  symmetry. apply Z.div_unique with (Z.log2 v + 8 - 8 * Z.succ n); lia.
Qed.

(** Bytes to integer and back, for a byte string without leading zero. *)
Lemma int_to_bytes_from_bytes (bs : list Z) :
  Forall is_byte bs -> head bs <> Some 0 ->
  int_to_bytes_big (int_from_bytes_big bs)
                   ((bit_length (int_from_bytes_big bs) + 7) / 8)
  = Ok bs.
Proof.
  intros Hb Hhd. destruct bs as [|b bs]; [reflexivity|].
  rewrite byte_length_from_bytes; [|assumption|intros ->; now apply Hhd].
  pose proof (int_from_bytes_big_range _ Hb) as Hr.
  unfold int_to_bytes_big.
  destruct (Z.ltb_spec (Z.of_nat (length (b :: bs))) 0); [lia|].
  destruct (Z.ltb_spec (int_from_bytes_big (b :: bs)) 0); [lia|].
  destruct (Z.leb_spec (256 ^ Z.of_nat (length (b :: bs)))
                       (int_from_bytes_big (b :: bs))); [lia|].
  rewrite Nat2Z.id. now rewrite bytes_little_from_bytes.
Qed.

(** One code point: its encoding is made of bytes, starts with a zero byte
    only for U+0000, and is read back by the decoder. *)
Lemma utf8_encode_char_spec (c : Z) (bs : list Z) :
  utf8_encode_char c = Some bs ->
  Forall is_byte bs
  /\ (exists b r, bs = b :: r /\ (b = 0 -> c = 0))
  /\ forall rest : list Z,
       utf8_decode (bs ++ rest) = option_map (cons c) (utf8_decode rest).
Proof.
  unfold utf8_encode_char, is_scalar, is_surrogate. intros H.
  decide_tests_in H; simpl in H; try discriminate H;
    injection H as <-.
  all: split; [repeat constructor; unfold is_byte;
               Z.div_mod_to_equations; lia|].
  all: split; [eexists _, _; split; [reflexivity|];
               intros; Z.div_mod_to_equations; lia|].
  all: intros rest; cbn [app utf8_decode];
    unfold is_continuation, is_surrogate; decide_tests;
    cbn [andb negb]; f_equal; f_equal; Z.div_mod_to_equations; lia.
Qed.

(** Encoding then decoding a text gives the text back. *)
Lemma utf8_round_trip (s : list Z) :
  forall bs : list Z,
    utf8_encode s = Ok bs ->
    utf8_decode bs = Some s /\ Forall is_byte bs
    /\ (head s <> Some 0 -> head bs <> Some 0).
Proof.
  induction s as [|c s IH]; intros bs H; simpl in H.
  - injection H as <-. repeat split; [constructor | intros _; discriminate].
  - destruct (utf8_encode_char c) as [bc|] eqn:Hc; [|discriminate].
    destruct (utf8_encode s) as [rest | |]; simpl in H; try discriminate.
    injection H as <-.
    apply utf8_encode_char_spec in Hc as (Hbytes & (b & r & -> & Hb0) & Hdec).
    destruct (IH rest eq_refl) as (Hd & Hrest & _).
    rewrite Hdec, Hd. repeat split.
    + apply Forall_app; auto.
    + simpl. intros Hne [= E]. apply Hne. f_equal. auto.
Qed.

(** Every text without lone surrogates can be encoded. *)
Lemma utf8_encode_scalar (s : list Z) :
  Forall (fun c => is_scalar c = true) s -> exists bs, utf8_encode s = Ok bs.
Proof.
  induction 1 as [|c s Hc _ [bs IH]]; simpl; [eauto|].
  unfold utf8_encode_char. rewrite Hc. simpl. rewrite IH. simpl.
  destruct (c <? 128); [eauto|]. destruct (c <? 2048); [eauto|].
  destruct (c <? 65536); eauto.
Qed.

Lemma byte_length_covers (number : Z) :
  0 <= number -> number < 256 ^ ((bit_length number + 7) / 8).
Proof.
  intros Hn. unfold bit_length.
  destruct (Z.eqb_spec number 0) as [->|Hne]; [reflexivity|].
  rewrite Z.abs_eq by lia.
  pose proof (Z.log2_nonneg number) as Hl.
  set (L := (Z.log2 number + 1 + 7) / 8).
  assert (HL : Z.log2 number + 1 <= 8 * L)
    by (unfold L; Z.div_mod_to_equations; lia).
  replace (256 ^ L) with (2 ^ (8 * L))
    by (rewrite Z.pow_mul_r by lia; reflexivity).
  apply Z.log2_lt_pow2; lia.
Qed.

(** The bytes that [int_to_str] rebuilds from a non-negative integer. *)
Lemma int_to_bytes_big_nonneg (number : Z) :
  0 <= number ->
  int_to_bytes_big number ((bit_length number + 7) / 8)
  = Ok (rev (bytes_little (Z.to_nat ((bit_length number + 7) / 8)) number)).
Proof.
  intros Hn. pose proof (byte_length_covers number Hn) as Hc.
  assert (Hl : 0 <= (bit_length number + 7) / 8).
  { unfold bit_length. destruct (number =? 0); [discriminate|].
    pose proof (Z.log2_nonneg (Z.abs number)).
    apply Z.div_pos; lia. }
  unfold int_to_bytes_big.
  destruct (Z.ltb_spec ((bit_length number + 7) / 8) 0); [lia|].
  destruct (Z.ltb_spec number 0); [lia|].
  destruct (Z.leb_spec (256 ^ ((bit_length number + 7) / 8)) number); [lia|].
  reflexivity.
Qed.

(** C8 as stated fails: the text made of U+0000 then "a" is encoded as 97,
    which decodes to "a". *)
Lemma codec_leading_nul_lost :
  ~ (forall (s : list Z) (m : Z),
        str_to_int s = Ok m -> int_to_str m = Some s).
Proof.
  intros H. specialize (H [0; 97] 97 eq_refl).
  vm_compute in H. discriminate H.
Qed.

(** C8 (amended). For every text s that does not begin with U+0000,
    decoding the integer that encodes s gives s back,
    int_to_str(str_to_int(s)) == s (str_to_int returns for every text
    without lone surrogates); and int_to_str returns None, rather than
    raising, exactly when the integer is negative or the bytes rebuilt from
    it are not valid UTF-8. *)
Theorem codec_round_trip :
  (forall s : list Z,
      head s <> Some 0 ->
      (forall m : Z, str_to_int s = Ok m -> int_to_str m = Some s)
      /\ (Forall (fun c => is_scalar c = true) s ->
          exists m, str_to_int s = Ok m))
  /\ (forall number : Z,
        int_to_str number = None
        <-> (number < 0
             \/ utf8_decode
                  (rev (bytes_little
                          (Z.to_nat ((bit_length number + 7) / 8)) number))
                = None)).
Proof.
  split.
  - intros s Hhd. split.
    + intros m Hm. unfold str_to_int in Hm.
      destruct (utf8_encode s) as [bs | |] eqn:He; simpl in Hm;
        try discriminate.
      injection Hm as <-.
      apply utf8_round_trip in He as (Hd & Hb & Hz).
      unfold int_to_str, int_to_str_try.
      rewrite int_to_bytes_from_bytes by auto. simpl. now rewrite Hd.
    + intros Hs. destruct (utf8_encode_scalar s Hs) as [bs Hbs].
      unfold str_to_int. rewrite Hbs. simpl. eauto.
  - intros number. unfold int_to_str, int_to_str_try.
    destruct (Z.lt_ge_cases number 0) as [Hneg|Hpos].
    + split; [auto|]. intros _. unfold int_to_bytes_big.
      destruct ((bit_length number + 7) / 8 <? 0); [reflexivity|].
      destruct (Z.ltb_spec number 0); [reflexivity | lia].
    + rewrite int_to_bytes_big_nonneg by assumption. simpl.
      destruct (utf8_decode _) as [s|].
      * split; [discriminate|]. intros [?|?]; [lia | discriminate].
      * split; auto.
Qed.

Lemma codec_round_trip_witness :
  head (lit "oui") <> Some 0
  /\ Forall (fun c => is_scalar c = true) (lit "oui")
  /\ str_to_int (lit "oui") = Ok 7304553
  /\ int_to_str 7304553 = Some (lit "oui")
  /\ (exists m, str_to_int (lit "oui") = Ok m)
  /\ int_to_str 255 = None.
Proof.
  assert (Hhd : head (lit "oui") <> Some 0) by (vm_compute; discriminate).
  assert (Hs : Forall (fun c => is_scalar c = true) (lit "oui"))
    by (repeat constructor).
  destruct codec_round_trip as [Hrt Hnone].
  destruct (Hrt (lit "oui") Hhd) as [Hback Hex].
  split; [exact Hhd|]. split; [exact Hs|].
  split; [reflexivity|].
  split; [exact (Hback 7304553 eq_refl)|].
  split; [exact (Hex Hs)|].
  apply (proj2 (Hnone 255)). right. vm_compute. reflexivity.
Defined.

(** ** What decoded ballots are made of *)

Lemma option_map_cons_Some (c : Z) (o : option (list Z)) (s : list Z) :
  option_map (cons c) o = Some s -> exists s', o = Some s' /\ s = c :: s'.
Proof. destruct o as [s'|]; simpl; [intros [= <-]; eauto | discriminate]. Qed.

(** Whatever the decoder accepts is made of code points that can be encoded
    again. *)
Lemma utf8_decode_scalar (n : nat) :
  forall bs s : list Z,
    (length bs <= n)%nat -> utf8_decode bs = Some s ->
    Forall (fun c => is_scalar c = true) s.
Proof.
  induction n as [|n IH]; intros bs s Hlen H.
  - destruct bs; [|simpl in Hlen; lia]. injection H as <-. constructor.
  - destruct bs as [|b0 r0]; [injection H as <-; constructor|].
    simpl in Hlen. cbn [utf8_decode] in H.
    destruct ((0 <=? b0) && (b0 <? 128)) eqn:T1.
    { apply option_map_cons_Some in H as (s' & Hd & ->).
      constructor; [|apply (IH r0); [lia | exact Hd]].
      bool_to_prop. unfold is_scalar, is_surrogate.
      decide_tests; reflexivity. }
    destruct ((194 <=? b0) && (b0 <? 224)) eqn:T2.
    { destruct r0 as [|b1 r1]; [discriminate|].
      destruct (is_continuation b1) eqn:C1; [|discriminate].
      apply option_map_cons_Some in H as (s' & Hd & ->). simpl in Hlen.
      constructor; [|apply (IH r1); [lia | exact Hd]].
      unfold is_continuation in C1.
      bool_to_prop; unfold is_scalar, is_surrogate; decide_tests;
        reflexivity. }
    destruct ((224 <=? b0) && (b0 <? 240)) eqn:T3.
    { destruct r0 as [|b1 [|b2 r2]]; try discriminate.
      match type of H with (if ?t then _ else _) = _ =>
        destruct t eqn:C; [|discriminate] end.
      apply option_map_cons_Some in H as (s' & Hd & ->). simpl in Hlen.
      constructor; [|apply (IH r2); [lia | exact Hd]].
      apply andb_true_iff in C as [C Hsur].
      apply andb_true_iff in C as [C Hlow].
      unfold is_scalar. rewrite Hsur.
      unfold is_continuation in C.
      bool_to_prop; decide_tests; reflexivity. }
    destruct ((240 <=? b0) && (b0 <? 245)) eqn:T4; [|discriminate].
    destruct r0 as [|b1 [|b2 [|b3 r3]]]; try discriminate.
    match type of H with (if ?t then _ else _) = _ =>
      destruct t eqn:C; [|discriminate] end.
    apply option_map_cons_Some in H as (s' & Hd & ->). simpl in Hlen.
    constructor; [|apply (IH r3); [lia | exact Hd]].
    unfold is_continuation in C.
    bool_to_prop; unfold is_scalar, is_surrogate; decide_tests; reflexivity.
Qed.

Lemma int_to_str_scalar (number : Z) (s : list Z) :
  int_to_str number = Some s -> Forall (fun c => is_scalar c = true) s.
Proof.
  unfold int_to_str, int_to_str_try.
  destruct (int_to_bytes_big _ _) as [bs | |]; simpl; try discriminate.
  destruct (utf8_decode bs) as [s'|] eqn:Hd; [|discriminate].
  intros [= <-]. eapply utf8_decode_scalar; [|exact Hd]. reflexivity.
Qed.

(** The parts of a split are made of characters of the text. *)
Lemma split_pair_Forall (P : Z -> Prop) (c1 c2 : Z) (n : nat) :
  forall text cur : list Z,
    (length text <= n)%nat -> Forall P text -> Forall P cur ->
    Forall (Forall P) (split_pair c1 c2 text cur).
Proof.
  induction n as [|n IH]; intros text cur Hlen Ht Hc.
  - destruct text; [|simpl in Hlen; lia]. cbn [split_pair].
    constructor; [now apply List.Forall_rev | constructor].
  - destruct text as [|c text'].
    { cbn [split_pair].
      constructor; [now apply List.Forall_rev | constructor]. }
    simpl in Hlen. apply Forall_cons in Ht as [Hc0 Ht'].
    cbn [split_pair]. destruct text' as [|c' text''].
    { cbn [split_pair]. constructor; [|constructor].
      apply List.Forall_rev. now constructor. }
    destruct ((c =? c1) && (c' =? c2)).
    + constructor; [now apply List.Forall_rev|].
      apply Forall_cons in Ht' as [_ Ht'']. simpl in Hlen.
      apply IH; [lia | exact Ht'' | constructor].
    + apply IH; [lia | exact Ht' | now constructor].
Qed.

(** ** The tally *)

Lemma pow_not_Epuise (b e m : Z) : pow b e m <> Epuise.
Proof.
  unfold pow. destruct (m =? 0); [discriminate|].
  destruct (Z.abs m =? 1); [discriminate|].
  destruct (e <? 0); [|discriminate].
  destruct (Z.gcd b (Z.abs m) =? 1); discriminate.
Qed.

Lemma pow_not_Raise (b e m : Z) (ex : Exn) :
  0 <= e -> m <> 0 -> pow b e m <> Raise ex.
Proof.
  intros He Hm. unfold pow.
  destruct (Z.eqb_spec m 0); [contradiction|].
  destruct (Z.abs m =? 1); [discriminate|].
  destruct (Z.ltb_spec e 0); [lia | discriminate].
Qed.

Lemma utf8_encode_not_Epuise (s : list Z) : utf8_encode s <> Epuise.
Proof.
  induction s as [|c s IH]; simpl; [discriminate|].
  destruct (utf8_encode_char c); [|discriminate].
  destruct (utf8_encode s); simpl; [discriminate | discriminate | contradiction].
Qed.

Lemma set_commissaire_same (w : Monde) : set_commissaire (commissaire w) w = w.
Proof. destruct w; reflexivity. Qed.

Section Depouillement.

Variable sha256_hexdigest : list Z -> list Z.

(** Checking a secondary code reads the registry and never fails to
    answer with [Epuise]. *)
Lemma verifier_n2_hash_reads (n2_clear : list Z) (w : Monde) :
  exists r, sur_commissaire (verifier_n2_hash sha256_hexdigest n2_clear) w = (r, w)
            /\ r <> Epuise
            /\ (forall w', commissaire w' = commissaire w ->
                  sur_commissaire (verifier_n2_hash sha256_hexdigest n2_clear) w'
                  = (r, w')).
Proof.
  unfold sur_commissaire, verifier_n2_hash, hash_sha256, bind, lift, gets.
  pose proof (utf8_encode_not_Epuise n2_clear) as Hne.
  destruct (utf8_encode n2_clear) as [bs | ex |]; simpl;
    [| |contradiction]; rewrite set_commissaire_same;
    (eexists; split; [reflexivity|]; split; [discriminate|]);
    intros w' Hw'; rewrite Hw', <- Hw', set_commissaire_same; reflexivity.
Qed.

(** One envelope: the loop body always produces an outcome, leaves the
    world as it found it, and consults nothing but the registry. *)
Lemma depouiller_enveloppe_total (d n_self e_admin n_admin : Z)
      (enveloppe : Enveloppe) (w : Monde) :
  exists i : Issue,
    depouiller_enveloppe sha256_hexdigest d n_self e_admin n_admin enveloppe w
    = (Ok i, w)
    /\ forall w', commissaire w' = commissaire w ->
         depouiller_enveloppe sha256_hexdigest d n_self e_admin n_admin
                              enveloppe w'
         = (Ok i, w').
Proof.
  destruct enveloppe as [m_int_chiffre s_int_chiffre].
  unfold depouiller_enveloppe, try_except, depouiller_try, bind, lift, ret.
  pose proof (pow_not_Epuise m_int_chiffre d n_self) as H1.
  destruct (pow m_int_chiffre d n_self) as [m_int | ex |];
    [|eexists; split; reflexivity | contradiction].
  pose proof (pow_not_Epuise s_int_chiffre d n_self) as H2.
  destruct (pow s_int_chiffre d n_self) as [s_int | ex |];
    [|eexists; split; reflexivity | contradiction].
  destruct (int_to_str m_int) as [[|c message]|];
    [eexists; split; reflexivity | | eexists; split; reflexivity].
  destruct (split_sep (c :: message)) as [|choix_vote [|n2_code [|alea [|]]]];
    try (eexists; split; reflexivity).
  pose proof (pow_not_Epuise s_int e_admin n_admin) as H3.
  destruct (pow s_int e_admin n_admin) as [verification | ex |];
    [|eexists; split; reflexivity | contradiction].
  destruct (negb (verification =? m_int));
    [eexists; split; reflexivity|].
  destruct (verifier_n2_hash_reads n2_code w) as (r & Hr & Hne & Hr').
  rewrite Hr.
  destruct r as [[|] | ex |]; simpl; [| | |contradiction];
    (eexists; split; [reflexivity|]);
    intros w' Hw'; rewrite (Hr' w' Hw'); reflexivity.
Qed.

(** The loop appends one log line per envelope and the choice of each
    accepted envelope, in the order of the box. *)
Lemma depouiller_boucle_spec (d n_self e_admin n_admin : Z) (w : Monde)
      (envs : list Enveloppe) (issues : list Issue) :
  Forall2 (fun enveloppe i =>
             depouiller_enveloppe sha256_hexdigest d n_self e_admin n_admin
                                  enveloppe w = (Ok i, w))
          envs issues ->
  forall bulletins_valides logs : list (list Z),
    depouiller_boucle sha256_hexdigest d n_self e_admin n_admin envs
                      bulletins_valides logs w
    = (Ok (bulletins_valides ++ omap choix_valide issues,
           logs ++ List.map journal issues), w).
Proof.
  induction 1 as [|enveloppe i envs issues Hi _ IH]; intros bv logs.
  - simpl. unfold ret. now rewrite !app_nil_r.
  - simpl depouiller_boucle. rewrite (bind_step _ _ _ _ _ Hi).
    rewrite IH. destruct i; simpl; rewrite <- ?app_assoc; reflexivity.
Qed.

Lemma depouiller_issues (d n_self e_admin n_admin : Z) (w : Monde)
      (envs : list Enveloppe) :
  exists issues : list Issue,
    Forall2 (fun enveloppe i =>
               forall w', commissaire w' = commissaire w ->
                 depouiller_enveloppe sha256_hexdigest d n_self e_admin
                                      n_admin enveloppe w' = (Ok i, w'))
            envs issues.
Proof.
  induction envs as [|enveloppe envs [issues IH]].
  - exists []. constructor.
  - destruct (depouiller_enveloppe_total d n_self e_admin n_admin enveloppe w)
      as (i & _ & Hi).
    exists (i :: issues). now constructor.
Qed.

(** The whole tally: its result and the world it leaves, from any world
    with the same registry, ballot box and Decompteur key. *)
Lemma depouiller_spec (admin_pub_key : Key) (w : Monde) :
  exists issues : list Issue,
    Forall2 (fun enveloppe i =>
               forall w', commissaire w' = commissaire w ->
                 depouiller_enveloppe sha256_hexdigest
                   (fst (dec_private_key (decompteur w)))
                   (snd (dec_private_key (decompteur w)))
                   (fst admin_pub_key) (snd admin_pub_key) enveloppe w'
                 = (Ok i, w'))
            (urne (anonymiseur w)) issues
    /\ forall w',
         commissaire w' = commissaire w ->
         anonymiseur w' = anonymiseur w ->
         dec_private_key (decompteur w') = dec_private_key (decompteur w) ->
         depouiller sha256_hexdigest admin_pub_key w'
         = (Ok (Counter (omap choix_valide issues), List.map journal issues),
            set_decompteur
              (mkDecompteur (dec_public_key (decompteur w'))
                            (dec_private_key (decompteur w'))
                            (Counter (omap choix_valide issues))) w').
Proof.
  destruct (depouiller_issues (fst (dec_private_key (decompteur w)))
              (snd (dec_private_key (decompteur w)))
              (fst admin_pub_key) (snd admin_pub_key) w (urne (anonymiseur w)))
    as [issues Hi].
  exists issues. split; [exact Hi|].
  intros w' Hc Ha Hk.
  unfold depouiller. destruct admin_pub_key as [e_admin n_admin].
  destruct (dec_private_key (decompteur w)) as [d n_self] eqn:Hkey.
  unfold bind at 1. unfold gets at 1. rewrite Hk.
  unfold bind at 1. unfold gets at 1. rewrite Ha.
  rewrite (bind_step _ _ _ _ _
             (depouiller_boucle_spec d n_self e_admin n_admin w' _ issues
                ltac:(eapply Forall2_impl; [exact Hi|];
                      intros ? ? Hw; apply Hw; exact Hc) [] [])).
  simpl. unfold bind, modify, gets, ret. simpl. rewrite Hk. reflexivity.
Qed.

Lemma Counter_acc (items : list (list Z)) :
  forall (acc : gmap (list Z) Z) (c : list Z),
    default 0 (fold_left (fun acc c => <[c := default 0 (acc !! c) + 1]> acc)
                         items acc !! c)
    = default 0 (acc !! c) + Z.of_nat (length (filter (fun x => x = c) items)).
Proof.
  induction items as [|x items IH]; intros acc c; simpl.
  - lia.
  - rewrite IH. rewrite filter_cons.
    destruct (decide (x = c)) as [->|Hne].
    + rewrite lookup_insert_eq. simpl. lia.
    + rewrite lookup_insert_ne by assumption. lia.
Qed.

(** [Counter] maps each choice to its number of occurrences. *)
Lemma Counter_count (items : list (list Z)) (c : list Z) :
  default 0 (Counter items !! c)
  = Z.of_nat (length (filter (fun x => x = c) items)).
Proof. unfold Counter. rewrite Counter_acc, lookup_empty. reflexivity. Qed.

(** C4. Running depouiller twice in succession on the same ballot box,
    registry and keys gives the same result mapping (and the same log) both
    times. *)
Theorem depouiller_idempotent (admin_pub_key : Key) (w : Monde) :
  exists (res : gmap (list Z) Z) (logs : list (list Z)) (w1 : Monde),
    depouiller sha256_hexdigest admin_pub_key w = (Ok (res, logs), w1)
    /\ depouiller sha256_hexdigest admin_pub_key w1 = (Ok (res, logs), w1).
Proof.
  destruct (depouiller_spec admin_pub_key w) as (issues & _ & H).
  eexists _, _, _. split.
  - apply H; reflexivity.
  - rewrite H by reflexivity. reflexivity.
Qed.

(** C9. depouiller leaves the ballot box, the Commissaire (valid_n1 and
    hashed_n2), the Administrateur, the random state and the Decompteur's
    keys as they were; it writes only the Decompteur's resultats, which
    becomes the returned mapping whatever it held before. *)
Theorem depouiller_frame (admin_pub_key : Key) (w : Monde) :
  exists (res : gmap (list Z) Z) (logs : list (list Z)) (w1 : Monde),
    depouiller sha256_hexdigest admin_pub_key w = (Ok (res, logs), w1)
    /\ anonymiseur w1 = anonymiseur w
    /\ commissaire w1 = commissaire w
    /\ admin w1 = admin w
    /\ hasard w1 = hasard w
    /\ dec_public_key (decompteur w1) = dec_public_key (decompteur w)
    /\ dec_private_key (decompteur w1) = dec_private_key (decompteur w)
    /\ resultats (decompteur w1) = res
    /\ forall previous : gmap (list Z) Z,
         depouiller sha256_hexdigest admin_pub_key
           (set_decompteur
              (mkDecompteur (dec_public_key (decompteur w))
                            (dec_private_key (decompteur w)) previous) w)
         = (Ok (res, logs), w1).
Proof.
  destruct (depouiller_spec admin_pub_key w) as (issues & _ & H).
  eexists _, _, _. split; [apply H; reflexivity|].
  repeat (split; [reflexivity|]).
  intros previous. rewrite H by reflexivity. reflexivity.
Qed.

(** With a usable Decompteur key (d >= 0, n <> 0) and Administrateur key
    (e >= 0, n <> 0), the [except] branch is never taken. *)
Lemma depouiller_enveloppe_no_exception (d n_self e_admin n_admin : Z)
      (enveloppe : Enveloppe) (w w' : Monde) (i : Issue) :
  0 <= d -> n_self <> 0 -> 0 <= e_admin -> n_admin <> 0 ->
  depouiller_enveloppe sha256_hexdigest d n_self e_admin n_admin enveloppe w
  = (Ok i, w') ->
  forall ex : Exn, i <> ExceptionLevee ex.
Proof.
  intros Hd Hn He Hna. destruct enveloppe as [m_int_chiffre s_int_chiffre].
  unfold depouiller_enveloppe, try_except, depouiller_try, bind, lift, ret.
  pose proof (fun ex => pow_not_Raise m_int_chiffre d n_self ex Hd Hn) as H1.
  destruct (pow m_int_chiffre d n_self) as [m_int | ex |];
    [|now destruct (H1 ex) | discriminate].
  pose proof (fun ex => pow_not_Raise s_int_chiffre d n_self ex Hd Hn) as H2.
  destruct (pow s_int_chiffre d n_self) as [s_int | ex |];
    [|now destruct (H2 ex) | discriminate].
  destruct (int_to_str m_int) as [[|c message]|] eqn:Hstr;
    [intros [= <- _]; discriminate | | intros [= <- _]; discriminate].
  apply int_to_str_scalar in Hstr.
  pose proof (split_pair_Forall _ 124 124 _ (c :: message) []
                (Nat.le_refl _) Hstr (List.Forall_nil _)) as Hparts.
  fold (split_sep (c :: message)) in Hparts.
  destruct (split_sep (c :: message)) as [|choix_vote [|n2_code [|alea [|]]]];
    try (intros [= <- _]; discriminate).
  pose proof (fun ex => pow_not_Raise s_int e_admin n_admin ex He Hna) as H3.
  destruct (pow s_int e_admin n_admin) as [verification | ex |];
    [|now destruct (H3 ex) | discriminate].
  destruct (negb (verification =? m_int));
    [intros [= <- _]; discriminate|].
  apply Forall_cons in Hparts as [_ Hparts].
  apply Forall_cons in Hparts as [Hn2 _].
  destruct (utf8_encode_scalar n2_code Hn2) as [bs Hbs].
  unfold sur_commissaire, verifier_n2_hash, hash_sha256, bind, lift, gets.
  rewrite Hbs. simpl.
  destruct (bool_decide _); simpl; intros [= <- _]; discriminate.
Qed.

(** C5. For every ballot box, depouiller examines every envelope on its
    own: each envelope gets exactly one outcome, computed from that
    envelope and the unchanged world, and one log line; no envelope stops
    the loop.  The result counts, for each choice, the envelopes accepted
    with that choice.  With usable keys (d >= 0, e >= 0, moduli not zero,
    as the constructors install them) the outcome is one of: accepted,
    undecodable, malformed, forged signature, invalid credential. *)
Theorem depouiller_isolation (admin_pub_key : Key) (w : Monde) :
  exists issues : list Issue,
    Forall2 (fun enveloppe i =>
               depouiller_enveloppe sha256_hexdigest
                 (fst (dec_private_key (decompteur w)))
                 (snd (dec_private_key (decompteur w)))
                 (fst admin_pub_key) (snd admin_pub_key) enveloppe w
               = (Ok i, w))
            (urne (anonymiseur w)) issues
    /\ fst (depouiller sha256_hexdigest admin_pub_key w)
       = Ok (Counter (omap choix_valide issues), List.map journal issues)
    /\ (forall c : list Z,
          default 0 (Counter (omap choix_valide issues) !! c)
          = Z.of_nat (length (filter (fun x => x = c)
                                     (omap choix_valide issues))))
    /\ (0 <= fst (dec_private_key (decompteur w)) ->
        snd (dec_private_key (decompteur w)) <> 0 ->
        0 <= fst admin_pub_key -> snd admin_pub_key <> 0 ->
        Forall (fun i =>
                  i = Indecodable \/ i = FormatInvalide
                  \/ (exists n2_code, i = SignatureInvalide n2_code)
                  \/ (exists n2_code, i = N2Invalide n2_code)
                  \/ (exists choix_vote, i = Valide choix_vote))
               issues).
Proof.
  destruct (depouiller_spec admin_pub_key w) as (issues & Hi & H).
  assert (Hi' : Forall2 (fun enveloppe i =>
               depouiller_enveloppe sha256_hexdigest
                 (fst (dec_private_key (decompteur w)))
                 (snd (dec_private_key (decompteur w)))
                 (fst admin_pub_key) (snd admin_pub_key) enveloppe w
               = (Ok i, w))
            (urne (anonymiseur w)) issues).
  { eapply Forall2_impl; [exact Hi|]. intros ? ? Hw. now apply Hw. }
  exists issues. split; [exact Hi'|]. split.
  { rewrite H by reflexivity. reflexivity. }
  split; [intros c; apply Counter_count|].
  intros Hd Hn He Hna.
  clear Hi H. induction Hi' as [|enveloppe i envs issues Hx _ IH];
    constructor; [|exact IH].
  pose proof (depouiller_enveloppe_no_exception _ _ _ _ _ _ _ _
                Hd Hn He Hna Hx) as Hex.
  destruct i; eauto 6. now destruct (Hex e).
Qed.

End Depouillement.

Lemma depouiller_isolation_witness :
  0 <= 2753 /\ 3233 <> 0 /\ 0 <= 65537
  /\ exists issues : list Issue,
       Forall2 (fun enveloppe i =>
                  depouiller_enveloppe empreinte_test 2753 3233 65537 3233
                    enveloppe
                    (set_anonymiseur (mkAnonymiseur [(5, 7); (0, 0)])
                                     monde_exemple)
                  = (Ok i, set_anonymiseur (mkAnonymiseur [(5, 7); (0, 0)])
                                           monde_exemple))
               [(5, 7); (0, 0)] issues
       /\ fst (depouiller empreinte_test (65537, 3233)
                 (set_anonymiseur (mkAnonymiseur [(5, 7); (0, 0)])
                                  monde_exemple))
          = Ok (Counter (omap choix_valide issues), List.map journal issues)
       /\ Forall (fun i =>
                    i = Indecodable \/ i = FormatInvalide
                    \/ (exists n2_code, i = SignatureInvalide n2_code)
                    \/ (exists n2_code, i = N2Invalide n2_code)
                    \/ (exists choix_vote, i = Valide choix_vote))
                 issues.
Proof.
  split; [lia|]. split; [lia|]. split; [lia|].
  destruct (depouiller_isolation empreinte_test (65537, 3233)
              (set_anonymiseur (mkAnonymiseur [(5, 7); (0, 0)]) monde_exemple))
    as (issues & H1 & H2 & _ & H4).
  exists issues. split; [exact H1|]. split; [exact H2|].
  apply H4; simpl; lia.
Defined.

(** ** Casting a vote *)

Lemma verifier_eligibilite_run (n1 : list Z) (w : Monde) :
  verifier_eligibilite n1 w
  = (Ok (bool_decide (n1 ∈ valid_n1 (commissaire w))), w).
Proof.
  unfold verifier_eligibilite, sur_commissaire, verifier_n1, gets.
  now rewrite set_commissaire_same.
Qed.

Lemma recevoir_vote_run (n1 : list Z) (vote_chiffre : Enveloppe) (w : Monde) :
  recevoir_vote n1 vote_chiffre w
  = if bool_decide (n1 ∈ valid_n1 (commissaire w))
    then (Ok true,
          set_anonymiseur
            (mkAnonymiseur (urne (anonymiseur w) ++ [vote_chiffre]))
            (set_commissaire
               (mkCommissaire (valid_n1 (commissaire w) ∖ {[n1]})
                              (hashed_n2 (commissaire w))) w))
    else (Ok false, w).
Proof.
  unfold recevoir_vote, bind, sur_commissaire, consommer_n1.
  destruct (bool_decide (n1 ∈ valid_n1 (commissaire w))).
  - reflexivity.
  - now rewrite set_commissaire_same.
Qed.

Lemma submit_vote_k_Ok (fuel : nat) (n_admin : Z) :
  forall (t t' : list Z) (k : Z),
    submit_vote_k fuel n_admin t = (Ok k, t') ->
    2 <= k < n_admin - 1 /\ gcd k n_admin = 1.
Proof.
  induction fuel as [|fuel IH]; intros t t' k H; [discriminate|].
  simpl in H. apply bind_Ok in H as (k0 & t1 & Hk & H).
  destruct (Z.eqb_spec (gcd k0 n_admin) 1) as [Hg|Hg].
  - injection H as <- <-. apply randrange_Ok in Hk as [Hk _]. auto.
  - eapply IH. exact H.
Qed.

(** For an odd modulus n >= 5 (every product of two values of
    [generate_large_prime] is one) the search for k can end at its first
    draw, with k = 2. *)
Lemma submit_vote_k_first_draw (fuel : nat) (n_admin : Z) (t : list Z) :
  5 <= n_admin -> n_admin mod 2 = 1 ->
  submit_vote_k (S fuel) n_admin (0 :: t) = (Ok 2, t).
Proof.
  intros Hn Hodd. simpl. unfold bind, randrange.
  destruct (Z.leb_spec (n_admin - 1) 2) as [|_]; [lia|].
  rewrite Z.mod_0_l by lia. rewrite Z.add_0_r.
  assert (Hg : Z.gcd 2 n_admin = 1).
  { apply Z.coprime_prime_l; [exact Z.prime_2|].
    intros Hdiv. apply Z.mod_divide in Hdiv; lia. }
  rewrite gcd_spec, Hg by lia. reflexivity.
Qed.

(** Masking, signing and unmasking never touch the world. *)
Lemma submit_vote_signature_frame (e_admin n_admin m_int k : Z)
      (w w' : Monde) (r : Res Z) :
  submit_vote_signature e_admin n_admin m_int k w = (r, w') -> w' = w.
Proof.
  unfold submit_vote_signature, signer_aveugle, bind, lift, gets, ret.
  destruct (pow k e_admin n_admin); [|now intros [= _ <-] ..].
  destruct (admin_private_key (admin w)) as [d n].
  destruct (pow _ d n); [|now intros [= _ <-] ..].
  destruct (modinv k n_admin); now intros [= _ <-].
Qed.

Lemma submit_vote_signature_run (e n d m_int k : Z) (w : Monde) :
  admin_private_key (admin w) = (d, n) ->
  2 <= n -> 0 <= e -> 0 <= d -> Z.gcd k n = 1 ->
  exists signature, submit_vote_signature e n m_int k w = (Ok signature, w).
Proof.
  intros Hkey Hn He Hd Hg.
  unfold submit_vote_signature, signer_aveugle, bind, lift, gets, ret.
  rewrite Hkey, (pow_spec k e n), (pow_spec _ d n) by lia.
  destruct (modinv_spec k n Hn Hg) as [-> _]. eauto.
Qed.

(** C10. In submit_vote, with the Administrateur's modulus n_admin > 0:
    (a) when the voter is eligible and the encoded ballot m_int is at least
    n_admin, the local check pow(signature, e_admin, n_admin) != m_int
    fires, the response is the critical error, and nothing but the random
    state has changed (no envelope is deposited, no code is consumed);
    (b) whatever submit_vote does, either the ballot box is unchanged or
    exactly one envelope was appended, and that envelope encrypts a message
    integer m_int with 0 <= m_int < n_admin. *)
Theorem submit_vote_oversize_guard (fuel : nat) (n1 n2 choix : list Z)
        (w : Monde) (e_admin n_admin : Z) :
  admin_public_key (admin w) = (e_admin, n_admin) ->
  0 < n_admin ->
  (forall (d : Z) (t t' salt : list Z) (m_int k : Z),
      admin_private_key (admin w) = (d, n_admin) ->
      0 <= e_admin -> 0 <= d ->
      n1 ∈ valid_n1 (commissaire w) ->
      token_hex 8 (hasard w) = (Ok salt, t) ->
      str_to_int (choix ++ sep ++ n2 ++ sep ++ salt) = Ok m_int ->
      n_admin <= m_int ->
      submit_vote_k fuel n_admin t = (Ok k, t') ->
      submit_vote fuel n1 n2 choix w = (Ok ErreurCritique, set_hasard t' w))
  /\ (forall (r : Res Reponse) (w' : Monde),
        submit_vote fuel n1 n2 choix w = (r, w') ->
        urne (anonymiseur w') = urne (anonymiseur w)
        \/ exists (salt : list Z) (m_int signature em es : Z),
             str_to_int (choix ++ sep ++ n2 ++ sep ++ salt) = Ok m_int
             /\ 0 <= m_int < n_admin
             /\ pow m_int (fst (dec_public_key (decompteur w)))
                    (snd (dec_public_key (decompteur w))) = Ok em
             /\ pow signature (fst (dec_public_key (decompteur w)))
                    (snd (dec_public_key (decompteur w))) = Ok es
             /\ r = Ok Redirection
             /\ urne (anonymiseur w') = urne (anonymiseur w) ++ [(em, es)]).
Proof.
  intros Hpub Hn. split.
  - intros d t t' salt m_int k Hpriv He Hd Hin Hsalt Hm Hbig Hk.
    pose proof (submit_vote_k_Ok _ _ _ _ _ Hk) as [Hkr Hg].
    rewrite gcd_spec in Hg by lia.
    unfold submit_vote.
    rewrite (bind_step _ _ _ _ _ (verifier_eligibilite_run n1 w)).
    rewrite (bool_decide_eq_true_2 _ Hin). cbn [negb].
    assert (Hs : tirer (token_hex 8) w = (Ok salt, set_hasard t w))
      by (unfold tirer; now rewrite Hsalt).
    rewrite (bind_step _ _ _ _ _ Hs).
    unfold bind at 1. unfold lift at 1. rewrite Hm.
    unfold bind at 1. unfold gets at 1. cbn [admin set_hasard]. rewrite Hpub.
    assert (Hk' : tirer (submit_vote_k fuel n_admin) (set_hasard t w)
                  = (Ok k, set_hasard t' w))
      by (unfold tirer; cbn [hasard set_hasard]; now rewrite Hk).
    rewrite (bind_step _ _ _ _ _ Hk').
    destruct (submit_vote_signature_run e_admin n_admin d m_int k
                (set_hasard t' w) Hpriv ltac:(lia) He Hd Hg)
      as [signature Hsig].
    rewrite (bind_step _ _ _ _ _ Hsig).
    unfold bind at 1. unfold lift at 1.
    rewrite pow_spec by lia.
    pose proof (Z.mod_pos_bound (signature ^ e_admin) n_admin Hn).
    destruct (Z.eqb_spec ((signature ^ e_admin) mod n_admin) m_int); [lia|].
    reflexivity.
  - intros r w' H. unfold submit_vote in H.
    rewrite (bind_step _ _ _ _ _ (verifier_eligibilite_run n1 w)) in H.
    destruct (bool_decide (n1 ∈ valid_n1 (commissaire w))) eqn:Hel;
      cbn [negb] in H; [|injection H as _ <-; now left].
    apply bind_inv in H. unfold tirer at 1 in H.
    destruct (token_hex 8 (hasard w)) as [[salt | ex |] t];
      [|destruct H as [_ ->]; now left ..].
    apply bind_inv in H. unfold lift at 1 in H.
    destruct (str_to_int (choix ++ sep ++ n2 ++ sep ++ salt))
      as [m_int | ex |] eqn:Hm; [|destruct H as [_ ->]; now left ..].
    apply bind_inv in H. unfold gets at 1 in H.
    cbn [admin set_hasard] in H. rewrite Hpub in H.
    apply bind_inv in H. unfold tirer at 1 in H.
    destruct (submit_vote_k fuel n_admin (hasard (set_hasard t w)))
      as [[k | ex |] t1]; [|destruct H as [_ ->]; now left ..].
    apply bind_inv in H.
    destruct (submit_vote_signature e_admin n_admin m_int k
                (set_hasard t1 (set_hasard t w))) as [rs w2] eqn:Hsig.
    apply submit_vote_signature_frame in Hsig as ->.
    destruct rs as [signature | ex |]; [|destruct H as [_ ->]; now left ..].
    apply bind_inv in H. unfold lift at 1 in H.
    destruct (pow signature e_admin n_admin) as [verification | ex |] eqn:Hv;
      [|destruct H as [_ ->]; now left ..].
    apply pow_range in Hv; [|exact Hn].
    destruct (Z.eqb_spec verification m_int) as [->|Hne]; cbn [negb] in H;
      [|injection H as _ <-; now left].
    apply bind_inv in H. unfold gets at 1 in H.
    cbn [decompteur set_hasard] in H.
    destruct (dec_public_key (decompteur w)) as [e_teller n_teller].
    apply bind_inv in H. unfold lift at 1 in H.
    destruct (pow m_int e_teller n_teller) as [em | ex |] eqn:Hem;
      [|destruct H as [_ ->]; now left ..].
    apply bind_inv in H. unfold lift at 1 in H.
    destruct (pow signature e_teller n_teller) as [es | ex |] eqn:Hes;
      [|destruct H as [_ ->]; now left ..].
    apply bind_inv in H. rewrite recevoir_vote_run in H.
    cbn [commissaire set_hasard] in H. rewrite Hel in H.
    injection H as <- <-. right.
    exists salt, m_int, signature, em, es. repeat split; try assumption; lia.
Qed.

Lemma submit_vote_oversize_guard_witness :
  exists (salt : list Z) (m_int : Z),
    lit "A1" ∈ valid_n1 (commissaire monde_exemple)
    /\ token_hex 8 (hasard monde_exemple) = (Ok salt, [0])
    /\ str_to_int (lit "oui" ++ sep ++ lit "N2" ++ sep ++ salt) = Ok m_int
    /\ 3233 <= m_int
    /\ submit_vote_k 1 3233 [0] = (Ok 2, [])
    /\ submit_vote 1 (lit "A1") (lit "N2") (lit "oui") monde_exemple
       = (Ok ErreurCritique, set_hasard [] monde_exemple).
Proof.
  assert (Hin : lit "A1" ∈ valid_n1 (commissaire monde_exemple))
    by (unfold monde_exemple; cbn [commissaire valid_n1];
        apply elem_of_singleton_2; reflexivity).
  eexists _, _.
  split; [exact Hin|].
  split; [vm_compute; reflexivity|].
  split; [vm_compute; reflexivity|].
  split; [vm_compute; discriminate|].
  split; [vm_compute; reflexivity|].
  apply (proj1 (submit_vote_oversize_guard 1 (lit "A1") (lit "N2") (lit "oui")
                  monde_exemple 65537 3233 eq_refl ltac:(lia))
           2753 [0] []
           (hex_of_bytes (rev (bytes_little 8 (0 mod 2 ^ 64))))
           (int_from_bytes_big
              [111; 117; 105; 124; 124; 78; 50; 124; 124;
               48; 48; 48; 48; 48; 48; 48; 48; 48; 48; 48; 48; 48; 48; 48; 48])
           2).
  - reflexivity.
  - lia.
  - lia.
  - exact Hin.
  - vm_compute; reflexivity.
  - vm_compute; reflexivity.
  - vm_compute; discriminate.
  - vm_compute; reflexivity.
Defined.

(* ---------------------------------------------------------------------- *)
(** * Further properties *)

(** ** The Miller-Rabin test *)

Lemma is_prime_split_pos_spec (s : positive) :
  forall r : Z,
    0 <= r ->
    let '(r', s') := is_prime_split_pos r s in
    r <= r' /\ 0 < s' /\ Zpos s = 2 ^ (r' - r) * s'.
Proof.
  induction s as [s IH | s IH |]; intros r Hr; simpl.
  - split; [lia|]. split; [lia|]. rewrite Z.sub_diag. lia.
  - specialize (IH (r + 1) ltac:(lia)). revert IH.
    destruct (is_prime_split_pos (r + 1) s) as [r' s'].
    cbv beta iota. intros (H1 & H2 & H3). split; [lia|]. split; [lia|].
    rewrite Pos2Z.inj_xO, H3.
    replace (r' - r) with (1 + (r' - (r + 1))) by lia.
    rewrite Z.pow_add_r by lia. lia.
  - split; [lia|]. split; [lia|]. rewrite Z.sub_diag. lia.
Qed.

(** For an odd n >= 3 the loop writes n - 1 as 2^r * s with r >= 1. *)
Lemma is_prime_split_spec (n : Z) :
  3 <= n -> n mod 2 = 1 ->
  let '(r, s) := is_prime_split 0 (n - 1) in
  1 <= r /\ 0 < s /\ n - 1 = 2 ^ r * s.
Proof.
  intros Hn Hodd. unfold is_prime_split.
  destruct (n - 1) as [| p | p] eqn:Hp; try lia.
  destruct p as [p | p |].
  - exfalso. rewrite Pos2Z.inj_xI in Hp.
    assert (E : n = (Z.pos p + 1) * 2) by lia.
    rewrite E, Z.mod_mul in Hodd; lia.
  - simpl. pose proof (is_prime_split_pos_spec p 1 ltac:(lia)) as H.
    change (0 + 1) with 1.
    revert H. destruct (is_prime_split_pos 1 p) as [r s].
    cbv beta iota. intros (H1 & H2 & H3). split; [lia|]. split; [lia|].
    rewrite Pos2Z.inj_xO, H3.
    replace r with (1 + (r - 1)) at 2 by lia.
    rewrite Z.pow_add_r by lia. lia.
  - lia.
Qed.

(** Modulo a prime, 1 has no square root besides 1 and n - 1. *)
Lemma sqrt_one_prime (n x : Z) :
  Z.prime n -> 0 <= x < n -> (x * x) mod n = 1 -> x = 1 \/ x = n - 1.
Proof.
  intros Hp Hx Hsq. pose proof (Z.prime_ge_2 _ Hp) as H2.
  assert (Hd : (n | (x - 1) * (x + 1))).
  { apply Z.mod_divide; [lia|].
    replace ((x - 1) * (x + 1)) with (x * x - 1) by lia.
    rewrite Zminus_mod, Hsq, (Z.mod_small 1 n) by lia.
    rewrite Z.sub_diag. apply Z.mod_0_l. lia. }
  apply Z.divide_prime_mul in Hd as [[q Hq] | [q Hq]]; [|  |assumption].
  - left. assert (q = 0) by nia. lia.
  - right. assert (q = 1) by nia. lia.
Qed.

Lemma is_prime_inner_prime (n : Z) (count : nat) :
  Z.prime n ->
  forall x : Z,
    0 <= x < n -> x <> 1 -> x <> n - 1 ->
    (x ^ (2 ^ (Z.of_nat count + 1))) mod n = 1 ->
    is_prime_inner count x n = Ok true.
Proof.
  intros Hp. pose proof (Z.prime_ge_2 _ Hp) as H2.
  induction count as [|count IH]; intros x Hx H1 Hn1 Hpow.
  - exfalso. simpl in Hpow. change (2 ^ 1) with 2 in Hpow.
    rewrite Z.pow_2_r in Hpow.
    destruct (sqrt_one_prime n x Hp Hx Hpow); contradiction.
  - simpl is_prime_inner. rewrite pow_spec by lia. simpl res_bind.
    destruct (Z.eqb_spec (x ^ 2 mod n) (n - 1)) as [|Hne]; [reflexivity|].
    apply IH.
    + apply Z.mod_pos_bound. lia.
    + intros Hsq. rewrite Z.pow_2_r in Hsq.
      destruct (sqrt_one_prime n x Hp Hx Hsq); contradiction.
    + exact Hne.
    + rewrite Z.mod_pow_l, <- Z.pow_mul_r by lia.
      replace (2 * 2 ^ (Z.of_nat count + 1))
        with (2 ^ (Z.of_nat (S count) + 1)); [exact Hpow|].
      rewrite Nat2Z.inj_succ.
      replace (Z.succ (Z.of_nat count) + 1) with (1 + (Z.of_nat count + 1)) by lia.
      rewrite Z.pow_add_r by lia. reflexivity.
Qed.

Lemma is_prime_rounds_prime (n r s : Z) :
  Z.prime n -> 5 <= n -> 1 <= r -> 0 < s -> n - 1 = 2 ^ r * s ->
  forall (k : nat) (t : list Z),
    (k <= length t)%nat ->
    is_prime_rounds k n r s t = (Ok true, drop k t).
Proof.
  intros Hp Hn Hr Hs Hrs.
  induction k as [|k IH]; intros t Hlen; [reflexivity|].
  destruct t as [|v t]; [simpl in Hlen; lia|]. simpl in Hlen.
  simpl is_prime_rounds. unfold bind at 1. unfold randrange.
  destruct (Z.leb_spec (n - 1) 2) as [|_]; [lia|].
  set (a := 2 + v mod (n - 1 - 2)).
  assert (Ha : 2 <= a <= n - 2).
  { unfold a. pose proof (Z.mod_pos_bound v (n - 1 - 2) ltac:(lia)). lia. }
  unfold bind at 1. unfold lift at 1. rewrite pow_spec by lia.
  assert (Hxr : 0 <= a ^ s mod n < n) by (apply Z.mod_pos_bound; lia).
  destruct ((a ^ s mod n =? 1) || (a ^ s mod n =? n - 1)) eqn:Hc.
  { simpl drop. apply IH. lia. }
  apply orb_false_iff in Hc as [Hc1 Hc2].
  apply Z.eqb_neq in Hc1. apply Z.eqb_neq in Hc2.
  unfold bind at 1. unfold lift at 1.
  rewrite (is_prime_inner_prime n (Z.to_nat (r - 1)) Hp _ Hxr Hc1 Hc2).
  { simpl drop. apply IH. lia. }
  rewrite Z2Nat.id by lia. replace (r - 1 + 1) with r by lia.
  rewrite Z.mod_pow_l, <- Z.pow_mul_r by (try lia; apply Z.pow_nonneg; lia).
  rewrite (Z.mul_comm s), <- Hrs.
  apply Z.fermat_nz; [exact Hp|]. rewrite Z.mod_small; lia.
Qed.

(** Completeness of the test: whatever the bases drawn, a prime passes. *)
Lemma is_prime_of_prime (n : Z) (k : nat) (t : list Z) :
  Z.prime n -> (k <= length t)%nat ->
  exists t', is_prime n k t = (Ok true, t').
Proof.
  intros Hp Hlen. pose proof (Z.prime_ge_2 _ Hp) as H2.
  unfold is_prime.
  destruct (Z.ltb_spec n 2) as [|_]; [lia|].
  destruct ((n =? 2) || (n =? 3)) eqn:H23; [eexists; reflexivity|].
  apply orb_false_iff in H23 as [E2 E3].
  apply Z.eqb_neq in E2. apply Z.eqb_neq in E3.
  assert (Hodd : n mod 2 = 1).
  { destruct (Z.eq_dec (n mod 2) 0) as [E|E].
    - exfalso. destruct Hp as [_ Hp]. apply (Hp 2); [lia|].
      apply Z.mod_divide; lia.
    - pose proof (Z.mod_pos_bound n 2). lia. }
  destruct (Z.eqb_spec (n mod 2) 0) as [|_]; [lia|].
  assert (Hn5 : 5 <= n).
  { destruct (Z.eq_dec n 4) as [->|]; [discriminate Hodd | lia]. }
  pose proof (is_prime_split_spec n ltac:(lia) Hodd) as Hsp. revert Hsp.
  destruct (is_prime_split 0 (n - 1)) as [r s].
  cbv beta iota. intros (Hr & Hs & Hrs).
  eexists. apply is_prime_rounds_prime; assumption.
Qed.

Lemma is_prime_inner_answers (n : Z) (count : nat) :
  0 < n -> forall x : Z, exists b, is_prime_inner count x n = Ok b.
Proof.
  intros Hn. induction count as [|count IH]; intros x; simpl; [eauto|].
  rewrite pow_spec by lia. simpl.
  destruct (x ^ 2 mod n =? n - 1); eauto.
Qed.

Lemma is_prime_rounds_answers (n r s : Z) :
  5 <= n -> 0 <= s ->
  forall (k : nat) (t : list Z),
    (k <= length t)%nat ->
    exists (b : bool) (j : nat),
      (j <= k)%nat /\ is_prime_rounds k n r s t = (Ok b, drop j t).
Proof.
  intros Hn Hs. induction k as [|k IH]; intros t Hlen.
  - exists true, 0%nat. split; [lia | reflexivity].
  - destruct t as [|v t]; [simpl in Hlen; lia|]. simpl in Hlen.
    destruct (IH t ltac:(lia)) as (b & j & Hj & Hrec).
    simpl is_prime_rounds. unfold bind at 1. unfold randrange.
    destruct (Z.leb_spec (n - 1) 2) as [|_]; [lia|].
    unfold bind at 1. unfold lift at 1. rewrite pow_spec by lia.
    destruct (_ || _).
    { exists b, (S j). split; [lia | exact Hrec]. }
    unfold bind at 1. unfold lift at 1.
    destruct (is_prime_inner_answers n (Z.to_nat (r - 1)) ltac:(lia)
                ((2 + v mod (n - 1 - 2)) ^ s mod n)) as [broke ->].
    destruct broke.
    + exists b, (S j). split; [lia | exact Hrec].
    + exists false, 1%nat. split; [lia | reflexivity].
Qed.
(** X1. [is_prime] never rejects a prime: for a prime n and a tape holding
    at least k draws, the answer is True whatever the bases drawn. *)
Theorem is_prime_accepts_primes (n : Z) (k : nat) (t : list Z) :
  Z.prime n -> (k <= length t)%nat ->
  exists t', is_prime n k t = (Ok true, t').
Proof. exact (is_prime_of_prime n k t). Qed.

Lemma is_prime_accepts_primes_witness :
  Z.prime 61 /\ (5 <= length cinq_tirages)%nat
  /\ exists t', is_prime 61 5 cinq_tirages = (Ok true, t').
Proof.
  split; [exact prime_61|]. split; [simpl; lia|].
  apply is_prime_accepts_primes; [exact prime_61 | simpl; lia].
Defined.

(** X2. [is_prime] always answers: with k draws available it returns a
    boolean (no exception, in particular no empty range for randrange),
    consumes at most k draws and none at all when n < 5 or n is even; it
    answers True only for 2 and for odd numbers from 3 on. *)
Theorem is_prime_answers (n : Z) (k : nat) (t : list Z) :
  (k <= length t)%nat ->
  exists (b : bool) (j : nat),
    (j <= k)%nat
    /\ is_prime n k t = (Ok b, drop j t)
    /\ (b = true -> n = 2 \/ (3 <= n /\ n mod 2 = 1))
    /\ (n < 5 \/ n mod 2 = 0 -> j = 0%nat).
Proof.
  intros Hlen. unfold is_prime.
  destruct (Z.ltb_spec n 2).
  { exists false, 0%nat. repeat split; try lia; discriminate. }
  destruct ((n =? 2) || (n =? 3)) eqn:H23.
  { exists true, 0%nat. apply orb_true_iff in H23 as [E|E];
      apply Z.eqb_eq in E; subst n;
      (split; [lia|]; split; [reflexivity|]; split; [intros _|reflexivity]).
    - left. reflexivity.
    - right. split; [lia | reflexivity]. }
  apply orb_false_iff in H23 as [E2 E3].
  apply Z.eqb_neq in E2. apply Z.eqb_neq in E3.
  destruct (Z.eqb_spec (n mod 2) 0) as [Hev|Hodd].
  { exists false, 0%nat. repeat split; try lia; discriminate. }
  assert (Hodd' : n mod 2 = 1) by (pose proof (Z.mod_pos_bound n 2); lia).
  assert (Hn5 : 5 <= n).
  { destruct (Z.eq_dec n 4) as [->|]; [discriminate Hodd' | lia]. }
  pose proof (is_prime_split_spec n ltac:(lia) Hodd') as Hsp. revert Hsp.
  destruct (is_prime_split 0 (n - 1)) as [r s].
  cbv beta iota. intros (Hr & Hs & Hrs).
  destruct (is_prime_rounds_answers n r s Hn5 ltac:(lia) k t Hlen)
    as (b & j & Hj & Hrun).
  exists b, j. split; [exact Hj|]. split; [exact Hrun|].
  split; [intros _; right; lia | intros [?|?]; lia].
Qed.

Lemma is_prime_answers_witness :
  (5 <= length cinq_tirages)%nat
  /\ exists (b : bool) (j : nat),
       (j <= 5)%nat
       /\ is_prime 15 5 cinq_tirages = (Ok b, drop j cinq_tirages)
       /\ (b = true -> 15 = 2 \/ (3 <= 15 /\ 15 mod 2 = 1))
       /\ (15 < 5 \/ 15 mod 2 = 0 -> j = 0%nat).
Proof.
  split; [simpl; lia|]. apply is_prime_answers. simpl; lia.
Defined.


(** ** Prime generation *)

Lemma randbits_run (bits : Z) (v : Z) (t : list Z) :
  0 <= bits -> randbits bits (v :: t) = (Ok (v mod 2 ^ bits), t).
Proof.
  intros Hb. unfold randbits.
  destruct (Z.ltb_spec bits 0); [lia | reflexivity].
Qed.

(** X3. [generate_large_prime] returns the first candidate when it is
    prime: the draw reduced to [bits] bits and made odd. *)
Theorem generate_large_prime_returns_prime (fuel : nat) (bits v : Z)
        (t : list Z) :
  0 <= bits -> (5 <= length t)%nat ->
  Z.prime (if v mod 2 ^ bits mod 2 =? 0
           then v mod 2 ^ bits + 1 else v mod 2 ^ bits) ->
  exists t',
    generate_large_prime (S fuel) bits (v :: t)
    = (Ok (if v mod 2 ^ bits mod 2 =? 0
           then v mod 2 ^ bits + 1 else v mod 2 ^ bits), t').
Proof.
  intros Hb Hlen Hp. simpl generate_large_prime.
  rewrite (bind_step _ _ _ _ _ (randbits_run bits v t Hb)).
  destruct (is_prime_of_prime _ 5 t Hp Hlen) as [t' Ht'].
  rewrite (bind_step _ _ _ _ _ Ht'). eexists. reflexivity.
Qed.

Lemma generate_large_prime_returns_prime_witness :
  0 <= 6 /\ (5 <= length cinq_tirages)%nat /\ Z.prime 61
  /\ exists t',
       generate_large_prime 1 6 (61 :: cinq_tirages) = (Ok 61, t').
Proof.
  split; [lia|]. split; [simpl; lia|]. split; [exact prime_61|].
  apply (generate_large_prime_returns_prime 0 6 61 cinq_tirages);
    [lia | simpl; lia | exact prime_61].
Defined.


Lemma is_prime_rounds_no_raise (n r s : Z) :
  5 <= n -> 0 <= s ->
  forall (k : nat) (t t' : list Z) (e : Exn),
    is_prime_rounds k n r s t <> (Raise e, t').
Proof.
  intros Hn Hs. induction k as [|k IH]; intros t t' e; [discriminate|].
  simpl. unfold bind at 1. unfold randrange.
  destruct (Z.leb_spec (n - 1) 2) as [|_]; [lia|].
  destruct t as [|v t]; [discriminate|].
  unfold bind at 1. unfold lift at 1. rewrite pow_spec by lia.
  destruct (_ || _); [apply IH|].
  unfold bind at 1. unfold lift at 1.
  destruct (is_prime_inner_answers n (Z.to_nat (r - 1)) ltac:(lia)
              ((2 + v mod (n - 1 - 2)) ^ s mod n)) as [broke ->].
  destruct broke; [apply IH | discriminate].
Qed.

Lemma is_prime_no_raise (n : Z) (k : nat) (t t' : list Z) (e : Exn) :
  is_prime n k t <> (Raise e, t').
Proof.
  unfold is_prime.
  destruct (Z.ltb_spec n 2); [discriminate|].
  destruct ((n =? 2) || (n =? 3)) eqn:H23; [discriminate|].
  apply orb_false_iff in H23 as [E2 E3].
  apply Z.eqb_neq in E2. apply Z.eqb_neq in E3.
  destruct (Z.eqb_spec (n mod 2) 0) as [Hev|Hodd]; [discriminate|].
  assert (Hodd' : n mod 2 = 1) by (pose proof (Z.mod_pos_bound n 2); lia).
  assert (Hn5 : 5 <= n).
  { destruct (Z.eq_dec n 4) as [->|]; [discriminate Hodd' | lia]. }
  pose proof (is_prime_split_spec n ltac:(lia) Hodd') as Hsp. revert Hsp.
  destruct (is_prime_split 0 (n - 1)) as [r s].
  cbv beta iota. intros (Hr & Hs & Hrs).
  apply is_prime_rounds_no_raise; lia.
Qed.

Lemma generate_large_prime_no_raise (fuel : nat) (bits : Z) :
  0 <= bits ->
  forall (t t' : list Z) (e : Exn),
    generate_large_prime fuel bits t <> (Raise e, t').
Proof.
  intros Hb. induction fuel as [|fuel IH]; intros t t' e; [discriminate|].
  simpl. destruct t as [|v t].
  { unfold bind, randbits. destruct (Z.ltb_spec bits 0); [lia | discriminate]. }
  rewrite (bind_step _ _ _ _ _ (randbits_run bits v t Hb)).
  unfold bind.
  destruct (is_prime _ 5 t) as [[b | ex |] t1] eqn:Hrun.
  - destruct b; [discriminate | apply IH].
  - exfalso. exact (is_prime_no_raise _ _ _ _ _ Hrun).
  - discriminate.
Qed.

(** X4. The only exception of [generate_large_prime] is the ValueError of
    getrandbits for a negative bit count, raised at the first draw; for
    bits >= 0 no run raises. *)
Theorem generate_large_prime_errors (fuel : nat) (bits : Z) (t : list Z) :
  (bits < 0 ->
   generate_large_prime (S fuel) bits t
   = (Raise (ValueError "number of bits must be non-negative"), t))
  /\ (0 <= bits ->
      forall (e : Exn) (t' : list Z),
        generate_large_prime fuel bits t <> (Raise e, t')).
Proof.
  split.
  - intros Hneg. simpl. unfold bind, randbits.
    destruct (Z.ltb_spec bits 0); [reflexivity | lia].
  - intros Hb e t'. now apply generate_large_prime_no_raise.
Qed.

(** ** gcd and modinv *)

Lemma gcd_loop_abs (k : nat) :
  forall (fuel : nat) (a b : Z),
    Z.abs b < 2 ^ Z.of_nat k -> (2 * k + 1 <= fuel)%nat ->
    Z.abs (gcd_loop fuel a b) = Z.gcd a b.
Proof.
  induction k as [|k IH]; intros fuel a b Hb Hf.
  - assert (b = 0) by (simpl in Hb; lia). subst b.
    destruct fuel as [|fuel]; [lia|]. simpl. now rewrite Z.gcd_0_r.
  - destruct fuel as [|fuel]; [lia|]. simpl gcd_loop.
    destruct (Z.eqb_spec b 0) as [->|Hb0]; [now rewrite Z.gcd_0_r|].
    destruct fuel as [|fuel]; [lia|]. simpl gcd_loop.
    destruct (Z.eqb_spec (a mod b) 0) as [Hr0|Hr0].
    { transitivity (Z.gcd (a mod b) b); [|apply Z.gcd_mod_l].
      rewrite Hr0. symmetry. apply Z.gcd_0_l. }
    rewrite IH.
    + rewrite Z.gcd_comm, Z.gcd_mod_l, Z.gcd_comm, Z.gcd_mod_l. reflexivity.
    + assert (Hb' : Z.abs b < 2 * 2 ^ Z.of_nat k).
      { replace (Z.of_nat (S k)) with (Z.succ (Z.of_nat k)) in Hb by lia.
        rewrite Z.pow_succ_r in Hb; lia. }
      pose proof (Z.div_mod b (a mod b) Hr0) as Hdm.
      destruct (Z.lt_total b 0) as [Hneg | [? | Hpos]]; [| lia |].
      * pose proof (Z.mod_neg_bound a b Hneg) as Hr.
        pose proof (Z.mod_neg_bound b (a mod b) ltac:(lia)) as Hs.
        assert (1 <= b / (a mod b)).
        { rewrite <- Z.div_opp_opp by lia.
          apply Z.div_le_lower_bound; lia. }
        nia.
      * pose proof (Z.mod_pos_bound a b Hpos) as Hr.
        pose proof (Z.mod_pos_bound b (a mod b) ltac:(lia)) as Hs.
        assert (1 <= b / (a mod b)) by (apply Z.div_le_lower_bound; lia).
        nia.
    + lia.
Qed.

(** X5. [gcd] is the greatest common divisor up to sign (Python's [%]
    takes the sign of the divisor), and exactly it on non-negative
    arguments. *)
Theorem gcd_correct (a b : Z) :
  Z.abs (gcd a b) = Z.gcd a b
  /\ (0 <= a -> 0 <= b -> gcd a b = Z.gcd a b).
Proof.
  split; [|apply gcd_spec].
  unfold gcd.
  apply (gcd_loop_abs (Z.to_nat (Z.log2 (Z.abs b) + 1))); [|lia].
  pose proof (Z.log2_nonneg (Z.abs b)).
  rewrite Z2Nat.id by lia.
  destruct (Z.eq_dec b 0) as [->|Hb0]; [reflexivity|].
  apply Z.log2_lt_pow2; lia.
Qed.

(** X6. For a modulus m >= 2, [modinv a m] returns the inverse of a in
    [0, m) when a and m are coprime and raises ValueError otherwise. *)
Theorem modinv_behaviour (a m : Z) :
  2 <= m ->
  (Z.gcd a m = 1 ->
   exists x, modinv a m = Ok x /\ 0 <= x < m /\ (a * x) mod m = 1)
  /\ (Z.gcd a m <> 1 ->
      modinv a m
      = Raise (ValueError "base is not invertible for the given modulus")).
Proof.
  intros Hm. split.
  - intros Hg. destruct (modinv_spec a m Hm Hg) as (H1 & H2 & H3).
    exists (Z.invmod a m). rewrite Z.mul_comm. auto.
  - intros Hg. unfold modinv, pow.
    destruct (Z.eqb_spec m 0) as [|_]; [lia|].
    rewrite Z.abs_eq by lia.
    destruct (Z.eqb_spec m 1) as [|_]; [lia|].
    simpl. destruct (Z.eqb_spec (Z.gcd a m) 1); [contradiction | reflexivity].
Qed.

Lemma modinv_behaviour_witness :
  2 <= 3120 /\ Z.gcd 17 3120 = 1 /\ Z.gcd 6 3120 <> 1
  /\ (exists x, modinv 17 3120 = Ok x /\ 0 <= x < 3120
                 /\ (17 * x) mod 3120 = 1)
  /\ modinv 6 3120
     = Raise (ValueError "base is not invertible for the given modulus").
Proof.
  destruct (modinv_behaviour 17 3120 ltac:(lia)) as [H1 _].
  destruct (modinv_behaviour 6 3120 ltac:(lia)) as [_ H2].
  split; [lia|]. split; [reflexivity|]. split; [vm_compute; discriminate|].
  split; [apply H1; reflexivity | apply H2; vm_compute; discriminate].
Defined.


(** ** Key generation *)

Lemma generate_keypair_e_range (fuel : nat) (phi : Z) :
  2 <= phi ->
  forall (e e' : Z) (t t' : list Z),
    1 <= e ->
    generate_keypair_e fuel e (gcd e phi) phi t = (Ok e', t') ->
    Z.gcd e' phi = 1 /\ (e' = e \/ 1 <= e' < phi).
Proof.
  intros Hphi. induction fuel as [|fuel IH]; intros e e' t t' He H.
  - simpl in H. destruct (Z.eqb_spec (gcd e phi) 1) as [Hg|Hg];
      [|discriminate].
    injection H as <- <-. rewrite gcd_spec in Hg by lia. auto.
  - simpl in H. destruct (Z.eqb_spec (gcd e phi) 1) as [Hg|Hg].
    + injection H as <- <-. rewrite gcd_spec in Hg by lia. auto.
    + apply bind_Ok in H as (e1 & t1 & Hr & H).
      apply randrange_Ok in Hr as [Hr _].
      destruct (IH e1 e' t1 t' ltac:(lia) H) as [Hg' [-> | Hrange]];
        split; auto.
Qed.

(** X7. What [generate_keypair] returns: both keys share the modulus p * q
    of two odd numbers from 3 on, below 2^bits; e is coprime with
    phi = (p - 1) * (q - 1) and is 65537 or a redrawn value in [1, phi);
    d is the inverse of e modulo phi, in [1, phi).  No run raises. *)
Theorem generate_keypair_result (fuel : nat) (bits : Z) (t t' : list Z)
        (r : Res (Key * Key)) :
  0 <= bits ->
  generate_keypair fuel bits t = (r, t') ->
  match r with
  | Ok (pub, priv) =>
      exists p q e d,
        pub = (e, p * q) /\ priv = (d, p * q)
        /\ 3 <= p /\ p mod 2 = 1 /\ 3 <= q /\ q mod 2 = 1
        /\ p * q < 2 ^ bits
        /\ Z.gcd e ((p - 1) * (q - 1)) = 1
        /\ (e = 65537 \/ 1 <= e < (p - 1) * (q - 1))
        /\ 1 <= d < (p - 1) * (q - 1)
        /\ (e * d) mod ((p - 1) * (q - 1)) = 1
  | Raise _ => False
  | Epuise => True
  end.
Proof.
  intros Hb H. unfold generate_keypair in H.
  assert (Hh : 0 <= bits / 2) by (apply Z.div_pos; lia).
  apply bind_inv in H.
  destruct (generate_large_prime fuel (bits / 2) t) as [[p | ex |] t1] eqn:Gp.
  2: { exfalso. exact (generate_large_prime_no_raise _ _ Hh _ _ _ Gp). }
  2: { destruct H as [-> _]. exact I. }
  apply bind_inv in H.
  destruct (generate_large_prime fuel (bits / 2) t1) as [[q | ex |] t2] eqn:Gq.
  2: { exfalso. exact (generate_large_prime_no_raise _ _ Hh _ _ _ Gq). }
  2: { destruct H as [-> _]. exact I. }
  apply generate_large_prime_Ok in Gp as ([Hp3 Hplt] & Hpodd & _).
  apply generate_large_prime_Ok in Gq as ([Hq3 Hqlt] & Hqodd & _).
  pose proof (generate_keypair_from_spec _ _ _ _ _ _ Hp3 Hq3 H) as Hs.
  destruct r as [[pub priv] | ex |]; [|exact Hs | exact I].
  destruct Hs as (e & d & -> & -> & He & Hd & Hed).
  assert (Hphi : 2 <= (p - 1) * (q - 1)) by nia.
  unfold generate_keypair_from in H.
  apply bind_Ok in H as (e0 & t3 & He0 & H).
  apply bind_Ok in H as (d0 & t4 & Hd0 & H).
  injection H as -> -> _.
  apply generate_keypair_e_range in He0 as [Hg Hrange]; [|lia..].
  exists p, q, e, d. repeat split; try assumption; try lia.
  - assert (Hpow : 2 ^ (bits / 2) * 2 ^ (bits / 2) <= 2 ^ bits).
    { rewrite <- Z.pow_add_r by lia. apply Z.pow_le_mono_r; [lia|].
      pose proof (Z.div_mod bits 2 ltac:(lia)).
      pose proof (Z.mod_pos_bound bits 2 ltac:(lia)). lia. }
    nia.
  - destruct (Z.eq_dec d 0) as [->|]; [|lia].
    rewrite Z.mul_0_r, Z.mod_0_l in Hed; lia.
Qed.

Lemma generate_keypair_result_witness :
  0 <= 12
  /\ exists p q e d,
       (65537, 3233) = (e, p * q) /\ (2753, 3233) = (d, p * q)
       /\ 3 <= p /\ p mod 2 = 1 /\ 3 <= q /\ q mod 2 = 1
       /\ p * q < 2 ^ 12
       /\ Z.gcd e ((p - 1) * (q - 1)) = 1
       /\ (e = 65537 \/ 1 <= e < (p - 1) * (q - 1))
       /\ 1 <= d < (p - 1) * (q - 1)
       /\ (e * d) mod ((p - 1) * (q - 1)) = 1.
Proof.
  split; [lia|].
  exact (generate_keypair_result 1 12
           [61; 0; 0; 0; 0; 0; 53; 0; 0; 0; 0; 0] []
           (Ok ((65537, 3233), (2753, 3233))) ltac:(lia) eq_refl).
Defined.

(** ** Proth's criterion, to certify the primes of an example *)

(** ** Primality certificates for the examples (Proth's criterion) *)

Lemma exists_prime_divisor_aux (k : nat) :
  forall n : Z, 1 < n <= Z.of_nat k -> exists p, Z.prime p /\ (p | n).
Proof.
  induction k as [|k IH]; intros n Hn; [lia|].
  destruct (prime_dec n) as [Hp | Hnp].
  - exists n. split; [now apply prime_alt | apply Z.divide_refl].
  - destruct (not_prime_divide n ltac:(lia) Hnp) as (d & Hd & Hdiv).
    destruct (IH d ltac:(lia)) as (p & Hp & Hpd).
    exists p. split; [exact Hp | now apply Z.divide_trans with d].
Qed.

Lemma exists_prime_divisor (n : Z) :
  1 < n -> exists p, Z.prime p /\ (p | n).
Proof.
  intros Hn. apply (exists_prime_divisor_aux (Z.to_nat n)). lia.
Qed.

(** If x^a = 1 and x^b = 1 modulo n then x^gcd(a,b) = 1 modulo n. *)
Lemma pow_gcd_one_aux (n x : Z) (k : nat) :
  1 < n ->
  forall a b : Z,
    0 <= a -> 0 <= b < Z.of_nat k ->
    x ^ a mod n = 1 -> x ^ b mod n = 1 -> x ^ Z.gcd a b mod n = 1.
Proof.
  intros Hn. induction k as [|k IH]; intros a b Ha Hb Hxa Hxb; [lia|].
  destruct (Z.eq_dec b 0) as [->|Hb0].
  { rewrite Z.gcd_0_r, Z.abs_eq by lia. exact Hxa. }
  pose proof (Z.mod_pos_bound a b ltac:(lia)) as Hr.
  pose proof (Z.div_mod a b Hb0) as Hdm.
  assert (Hq : 0 <= a / b) by (apply Z.div_pos; lia).
  rewrite <- Z.gcd_mod_l, Z.gcd_comm. apply IH; [lia | lia | exact Hxb |].
  rewrite Hdm, Z.pow_add_r, Z.pow_mul_r in Hxa by lia.
  rewrite Zmult_mod, <- Z.mod_pow_l, Hxb, Z.pow_1_l in Hxa by lia.
  rewrite (Z.mod_small 1 n), Z.mul_1_l, Z.mod_mod in Hxa by lia.
  exact Hxa.
Qed.

Lemma pow_gcd_one (n x a b : Z) :
  1 < n -> 0 <= a -> 0 <= b ->
  x ^ a mod n = 1 -> x ^ b mod n = 1 -> x ^ Z.gcd a b mod n = 1.
Proof.
  intros Hn Ha Hb. apply (pow_gcd_one_aux n x (Z.to_nat (b + 1))); lia.
Qed.

(** A positive divisor of 2^m is 2^m itself or divides 2^(m-1). *)
Lemma divide_pow2 (m : nat) :
  forall d : Z,
    0 < d -> (d | 2 ^ Z.of_nat (S m)) ->
    d = 2 ^ Z.of_nat (S m) \/ (d | 2 ^ Z.of_nat m).
Proof.
  induction m as [|m IH]; intros d Hd Hdiv.
  - change (2 ^ Z.of_nat 1) with 2 in *. change (2 ^ Z.of_nat 0) with 1.
    apply Z.divide_pos_le in Hdiv as Hle; [|lia].
    destruct (Z.eq_dec d 2) as [->|]; [now left|].
    right. assert (d = 1) by lia. subst d. apply Z.divide_refl.
  - replace (2 ^ Z.of_nat (S (S m))) with (2 * 2 ^ Z.of_nat (S m)) in *
      by (rewrite (Nat2Z.inj_succ (S m)), Z.pow_succ_r by lia; reflexivity).
    destruct (Z.eq_dec (d mod 2) 0) as [Hev|Hodd].
    + apply Z.mod_divide in Hev; [|lia]. destruct Hev as [d' ->].
      assert (Hd' : (d' | 2 ^ Z.of_nat (S m))).
      { destruct Hdiv as [c Hc]. exists c. nia. }
      destruct (IH d' ltac:(lia) Hd') as [-> | Hsmall].
      * left. lia.
      * right. destruct Hsmall as [c Hc].
        exists c. rewrite (Nat2Z.inj_succ m), Z.pow_succ_r by lia. nia.
    + right. apply Z.gauss with 2; [exact Hdiv|].
      rewrite Z.gcd_comm.
      apply Z.coprime_prime_l; [exact Z.prime_2|].
      intros H2. apply Z.mod_divide in H2; lia.
Qed.

Lemma proth_size (k M p d : Z) :
  0 < k < M -> M <= p - 1 -> p <= d -> d * d <= k * M + 1 -> False.
Proof.
  intros Hk HM Hp Hd.
  assert ((M + 1) * (M + 1) <= d * d) by (apply Z.mul_le_mono_nonneg; lia).
  assert (k * M < M * M) by (apply Z.mul_lt_mono_pos_r; lia).
  lia.
Qed.

Lemma nonneg_factor (c g h : Z) : 0 < g -> 0 < h -> h = c * g -> 0 <= c.
Proof.
  intros Hg Hh E. destruct (Z.le_gt_cases 0 c) as [|Hneg]; [assumption|].
  exfalso. assert (c * g <= 0) by (apply Z.mul_nonpos_nonneg; lia). lia.
Qed.

(** Proth's criterion: N = k * 2^m + 1 with 0 < k < 2^m is prime as soon
    as some a has a^((N-1)/2) = -1 modulo N. *)
Lemma proth (k a : Z) (m : nat) :
  0 < k < 2 ^ Z.of_nat (S m) ->
  (a ^ (k * 2 ^ Z.of_nat m)) mod (k * 2 ^ Z.of_nat (S m) + 1)
  = k * 2 ^ Z.of_nat (S m) ->
  Z.prime (k * 2 ^ Z.of_nat (S m) + 1).
Proof.
  intros Hk Ha.
  set (M := 2 ^ Z.of_nat (S m)) in *. set (N := k * M + 1) in *.
  assert (HM : M = 2 * 2 ^ Z.of_nat m)
    by (unfold M; rewrite Nat2Z.inj_succ, Z.pow_succ_r by lia; reflexivity).
  assert (Hh : 0 < 2 ^ Z.of_nat m) by (apply Z.pow_pos_nonneg; lia).
  assert (HN : 1 < N) by (unfold N; nia).
  split; [exact HN|]. intros d Hd Hdiv.
  (* a divisor d' of N with 1 < d' and d'^2 <= N *)
  assert (Hsmall : exists d', 1 < d' /\ (d' | N) /\ d' * d' <= N).
  { destruct Hdiv as [c Hc].
    assert (1 < c) by nia.
    destruct (Z.le_gt_cases d c).
    - exists d. repeat split; [lia | now exists c | nia].
    - exists c. repeat split; [lia | exists d; lia | nia]. }
  destruct Hsmall as (d' & Hd'1 & Hd'N & Hd'sq).
  destruct (exists_prime_divisor d' Hd'1) as (p & Hp & Hpd).
  pose proof (Z.prime_ge_2 _ Hp) as Hp2.
  assert (HpN : (p | N)) by (now apply Z.divide_trans with d').
  assert (Hple : p <= d') by (apply Z.divide_pos_le; [lia | exact Hpd]).
  (* modulo p: x = a^k has x^(2^m) = -1 *)
  assert (Hxp : (a ^ (k * 2 ^ Z.of_nat m)) mod p = (N - 1) mod p).
  { rewrite <- (Z.mod_mod_divide _ N p HpN), Ha.
    unfold N. f_equal. lia. }
  assert (Hm1 : (N - 1) mod p = p - 1).
  { destruct HpN as [c Hc]. replace (N - 1) with (p - 1 + (c - 1) * p) by lia.
    rewrite Z.mod_add by lia. apply Z.mod_small. lia. }
  rewrite Hm1 in Hxp.
  assert (Hp3 : 3 <= p).
  { destruct (Z.eq_dec p 2) as [->|]; [|lia]. exfalso.
    destruct HpN as [c Hc]. unfold N in Hc. rewrite HM in Hc. lia. }
  set (x := a ^ k) in *.
  assert (Hx : x ^ (2 ^ Z.of_nat m) mod p = p - 1)
    by (unfold x; rewrite <- Z.pow_mul_r by lia; exact Hxp).
  assert (HxM : x ^ M mod p = 1).
  { rewrite HM, Z.mul_comm, Z.pow_mul_r by lia.
    rewrite <- Z.mod_pow_l, Hx, Z.pow_2_r.
    replace ((p - 1) * (p - 1)) with (1 + (p - 2) * p) by lia.
    rewrite Z.mod_add by lia. apply Z.mod_small. lia. }
  assert (Hxnz : x mod p <> 0).
  { intros Hz. rewrite <- Z.mod_pow_l, Hz, Z.pow_0_l, Z.mod_0_l in Hx; lia. }
  assert (Hferm : x ^ (p - 1) mod p = 1) by (now apply Z.fermat_nz).
  pose proof (pow_gcd_one p x M (p - 1) ltac:(lia) ltac:(unfold M; lia)
                ltac:(lia) HxM Hferm) as Hg.
  set (g := Z.gcd M (p - 1)) in *.
  assert (HgM : (g | M)) by apply Z.gcd_divide_l.
  assert (Hgp : (g | p - 1)) by apply Z.gcd_divide_r.
  assert (Hg0 : 0 < g).
  { pose proof (Z.gcd_nonneg M (p - 1)). fold g in H.
    destruct (Z.eq_dec g 0) as [E|]; [|lia].
    rewrite E in HgM. apply Z.divide_0_l in HgM. unfold M in HgM. lia. }
  destruct (divide_pow2 m g Hg0 HgM) as [HgE | [c Hc]].
  - (* 2^(m+1) divides p - 1, so p is too large *)
    fold M in HgE. rewrite HgE in Hgp.
    apply Z.divide_pos_le in Hgp; [|clear - Hp3; lia].
    exact (proth_size k M p d' Hk Hgp Hple Hd'sq).
  - (* otherwise x^(2^m) = 1, but it is -1 *)
    exfalso.
    pose proof (nonneg_factor c g _ Hg0 Hh Hc) as Hc0.
    rewrite Hc, Z.mul_comm, Z.pow_mul_r in Hx
      by (assumption || (clear - Hg0; lia)).
    rewrite <- Z.mod_pow_l, Hg, Z.pow_1_l in Hx by assumption.
    rewrite Z.mod_small in Hx by (clear - Hp3; lia).
    clear - Hx Hp3. lia.
Qed.

(** ** The codec, from integer to text and back *)

Lemma int_from_bytes_little (len : nat) :
  forall number : Z,
    0 <= number ->
    int_from_bytes_big (rev (bytes_little len number))
    = number mod 256 ^ Z.of_nat len.
Proof.
  induction len as [|len IH]; intros number Hn.
  - simpl. now rewrite Z.mod_1_r.
  - cbn [bytes_little rev]. rewrite int_from_bytes_big_snoc.
    rewrite IH by (apply Z.div_pos; lia).
    rewrite Nat2Z.inj_succ, Z.pow_succ_r by lia.
    rewrite Z.rem_mul_r by (try lia; apply Z.pow_pos_nonneg; lia).
    lia.
Qed.

(** The decoder only accepts what the encoder produces. *)
Lemma utf8_decode_encode (n : nat) :
  forall bs s : list Z,
    (length bs <= n)%nat -> utf8_decode bs = Some s -> utf8_encode s = Ok bs.
Proof.
  induction n as [|n IH]; intros bs s Hlen H.
  - destruct bs; [|simpl in Hlen; lia]. injection H as <-. reflexivity.
  - destruct bs as [|b0 r0]; [injection H as <-; reflexivity|].
    simpl in Hlen. cbn [utf8_decode] in H.
    destruct ((0 <=? b0) && (b0 <? 128)) eqn:T1.
    { apply option_map_cons_Some in H as (s' & Hd & ->).
      cbn [utf8_encode]. rewrite (IH r0 s') by (lia || exact Hd).
      unfold utf8_encode_char, is_scalar, is_surrogate.
      bool_to_prop; decide_tests; reflexivity. }
    destruct ((194 <=? b0) && (b0 <? 224)) eqn:T2.
    { destruct r0 as [|b1 r1]; [discriminate|].
      destruct (is_continuation b1) eqn:C1; [|discriminate].
      apply option_map_cons_Some in H as (s' & Hd & ->). simpl in Hlen.
      cbn [utf8_encode]. rewrite (IH r1 s') by (lia || exact Hd).
      unfold is_continuation in C1.
      unfold utf8_encode_char, is_scalar, is_surrogate.
      bool_to_prop; decide_tests; cbn [negb andb res_bind app];
        do 3 f_equal; Z.div_mod_to_equations; lia. }
    destruct ((224 <=? b0) && (b0 <? 240)) eqn:T3.
    { destruct r0 as [|b1 [|b2 r2]]; try discriminate.
      match type of H with (if ?t then _ else _) = _ =>
        destruct t eqn:C; [|discriminate] end.
      apply option_map_cons_Some in H as (s' & Hd & ->). simpl in Hlen.
      cbn [utf8_encode]. rewrite (IH r2 s') by (lia || exact Hd).
      unfold is_continuation, is_surrogate in C.
      unfold utf8_encode_char, is_scalar, is_surrogate.
      bool_to_prop; decide_tests; cbn [negb andb res_bind app];
        do 4 f_equal; Z.div_mod_to_equations; lia. }
    destruct ((240 <=? b0) && (b0 <? 245)) eqn:T4; [|discriminate].
    destruct r0 as [|b1 [|b2 [|b3 r3]]]; try discriminate.
    match type of H with (if ?t then _ else _) = _ =>
      destruct t eqn:C; [|discriminate] end.
    apply option_map_cons_Some in H as (s' & Hd & ->). simpl in Hlen.
    cbn [utf8_encode]. rewrite (IH r3 s') by (lia || exact Hd).
    unfold is_continuation in C.
    unfold utf8_encode_char, is_scalar, is_surrogate.
    bool_to_prop; decide_tests; cbn [negb andb res_bind app];
      do 5 f_equal; Z.div_mod_to_equations; lia.
Qed.

(** X8. The codec in the other direction: whatever text [int_to_str]
    returns for an integer, [str_to_int] encodes back to that integer. *)
Theorem str_to_int_int_to_str (number : Z) (s : list Z) :
  int_to_str number = Some s -> str_to_int s = Ok number.
Proof.
  unfold int_to_str, int_to_str_try. intros H.
  destruct (Z.lt_ge_cases number 0) as [Hneg|Hpos].
  { exfalso. unfold int_to_bytes_big in H.
    destruct (_ <? 0); [discriminate|].
    destruct (Z.ltb_spec number 0); [discriminate | lia]. }
  rewrite int_to_bytes_big_nonneg in H by assumption. simpl in H.
  destruct (utf8_decode _) as [s'|] eqn:Hd; [|discriminate].
  injection H as ->.
  apply (utf8_decode_encode _ _ _ (Nat.le_refl _)) in Hd.
  unfold str_to_int. rewrite Hd. simpl. f_equal.
  rewrite int_from_bytes_little by assumption.
  pose proof (byte_length_covers number Hpos) as Hc.
  assert (Hl : 0 <= (bit_length number + 7) / 8).
  { unfold bit_length. destruct (number =? 0); [discriminate|].
    pose proof (Z.log2_nonneg (Z.abs number)). apply Z.div_pos; lia. }
  rewrite Z2Nat.id by assumption. apply Z.mod_small. lia.
Qed.

Lemma str_to_int_int_to_str_witness :
  int_to_str 7304553 = Some (lit "oui")
  /\ str_to_int (lit "oui") = Ok 7304553.
Proof.
  split; [reflexivity|].
  exact (str_to_int_int_to_str 7304553 (lit "oui") eq_refl).
Defined.

(** ** The ballot format *)

Lemma split_pair_field (rest : list (list Z)) (tail : list Z) (a : list Z) :
  Forall (fun c => c <> 124) a ->
  forall cur : list Z,
    split_pair 124 124 (a ++ 124 :: 124 :: tail) cur
    = (rev cur ++ a) :: split_pair 124 124 tail [].
Proof.
  induction 1 as [|x a Hx _ IH]; intros cur.
  - simpl. now rewrite app_nil_r.
  - cbn [app split_pair].
    destruct (a ++ 124 :: 124 :: tail) as [|c' text''] eqn:E.
    { destruct a; discriminate. }
    destruct (Z.eqb_spec x 124) as [|_]; [contradiction|].
    cbn [andb]. rewrite IH. cbn [rev]. now rewrite <- app_assoc.
Qed.

Lemma split_pair_last (a : list Z) :
  Forall (fun c => c <> 124) a ->
  forall cur : list Z, split_pair 124 124 a cur = [rev cur ++ a].
Proof.
  induction 1 as [|x a Hx _ IH]; intros cur.
  - simpl. now rewrite app_nil_r.
  - cbn [split_pair]. destruct a as [|c' a'].
    + cbn [split_pair rev]. reflexivity.
    + destruct (Z.eqb_spec x 124) as [|_]; [contradiction|].
      cbn [andb]. rewrite IH. cbn [rev]. now rewrite <- app_assoc.
Qed.

(** A ballot whose fields hold no '|' splits into its fields. *)
Lemma split_sep_ballot (choix n2 salt : list Z) :
  Forall (fun c => c <> 124) choix ->
  Forall (fun c => c <> 124) n2 ->
  Forall (fun c => c <> 124) salt ->
  split_sep (choix ++ sep ++ n2 ++ sep ++ salt) = [choix; n2; salt].
Proof.
  intros Hc Hn Hs. unfold split_sep, sep. cbn [app].
  rewrite (split_pair_field [] _ choix Hc).
  rewrite (split_pair_field [] _ n2 Hn).
  rewrite (split_pair_last salt Hs). reflexivity.
Qed.

Lemma join_sep_cons (a p : list Z) (ps : list (list Z)) :
  join_sep (a :: p :: ps) = a ++ sep ++ join_sep (p :: ps).
Proof. reflexivity. Qed.

(** Joining the parts of a split gives the text back. *)
Lemma split_pair_join (n : nat) :
  forall text cur : list Z,
    (length text <= n)%nat ->
    join_sep (split_pair 124 124 text cur) = rev cur ++ text.
Proof.
  induction n as [|n IH]; intros text cur Hlen.
  - destruct text; [|simpl in Hlen; lia]. simpl. now rewrite app_nil_r.
  - destruct text as [|c text']; [simpl; now rewrite app_nil_r|].
    simpl in Hlen.
    cbn [split_pair]. destruct text' as [|c' text''].
    + cbn [split_pair join_sep rev]. reflexivity.
    + destruct ((c =? 124) && (c' =? 124)) eqn:E.
      * apply andb_true_iff in E as [E1 E2].
        apply Z.eqb_eq in E1. apply Z.eqb_eq in E2. subst c c'.
        simpl in Hlen.
        assert (Hj : join_sep (split_pair 124 124 text'' []) = text'')
          by (rewrite IH by lia; reflexivity).
        destruct (split_pair 124 124 text'' []) as [|p ps] eqn:Es.
        { destruct text'' as [|? [|? ?]]; simpl in Es; try discriminate;
            destruct (_ && _) in Es; discriminate. }
        rewrite join_sep_cons, Hj. unfold sep. reflexivity.
      * rewrite IH by lia. cbn [rev]. now rewrite <- app_assoc.
Qed.

(** ** The registry, loaded and consumed *)

(** X9. After [charger_listes], the valid codes are exactly those listed,
    and a listed code is consumed once however many times it was listed:
    the first [consommer_n1] succeeds, the code is then invalid and a second
    one fails, while the other codes are untouched. *)
Theorem charger_listes_then_consommer (liste_n1 liste_hashed_n2 : list (list Z))
        (old : Commissaire) (t : list Z) :
  let self := snd (charger_listes liste_n1 liste_hashed_n2 old) in
  (fst (verifier_n1 t self) = Ok true <-> t ∈ liste_n1)
  /\ (t ∈ liste_n1 ->
      exists self',
        consommer_n1 t self = (Ok true, self')
        /\ fst (verifier_n1 t self') = Ok false
        /\ consommer_n1 t self' = (Ok false, self')
        /\ forall u, u <> t ->
             fst (verifier_n1 u self') = fst (verifier_n1 u self))
  /\ (t ∉ liste_n1 -> consommer_n1 t self = (Ok false, self)).
Proof.
  cbn [charger_listes modify snd]. unfold verifier_n1, gets, consommer_n1.
  cbn [fst valid_n1 hashed_n2].
  split; [|split].
  - rewrite <- (elem_of_list_to_set (C := gset (list Z))).
    split.
    + intros [= H]. now apply bool_decide_eq_true_1 in H.
    + intros H. now rewrite (bool_decide_eq_true_2 _ H).
  - intros Hin.
    assert (Hin' : t ∈ (list_to_set liste_n1 : gset (list Z)))
      by now apply elem_of_list_to_set.
    rewrite (bool_decide_eq_true_2 _ Hin'). eexists. split; [reflexivity|].
    cbn [valid_n1 hashed_n2].
    assert (Hgone : t ∉ (list_to_set liste_n1 : gset (list Z)) ∖ {[t]}).
    { intros Hx. apply elem_of_difference in Hx as [_ Hx].
      apply Hx, elem_of_singleton_2. reflexivity. }
    rewrite (bool_decide_eq_false_2 _ Hgone).
    split; [reflexivity|]. split; [reflexivity|].
    intros u Hu. f_equal. apply bool_decide_ext.
    rewrite elem_of_difference, elem_of_singleton. tauto.
  - intros Hnot.
    assert (Hnot' : t ∉ (list_to_set liste_n1 : gset (list Z)))
      by (intros H; apply Hnot; now apply elem_of_list_to_set in H).
    now rewrite (bool_decide_eq_false_2 _ Hnot').
Qed.

Lemma charger_listes_then_consommer_witness :
  ([65] ∈ [[65]; [66]; [65]])
  /\ ([67] ∉ [[65]; [66]; [65]])
  /\ exists self',
       consommer_n1 [65]
         (snd (charger_listes [[65]; [66]; [65]] [] Commissaire_init))
       = (Ok true, self')
       /\ consommer_n1 [65] self' = (Ok false, self').
Proof.
  assert (Hin : [65] ∈ [[65]; [66]; [65]]) by (apply list_elem_of_here).
  assert (Hnot : [67] ∉ [[65]; [66]; [65]]).
  { intros H. apply list_elem_of_In in H. simpl in H.
    destruct H as [H | [H | [H | []]]]; discriminate H. }
  split; [exact Hin|]. split; [exact Hnot|].
  destruct (proj1 (proj2 (charger_listes_then_consommer
                            [[65]; [66]; [65]] [] Commissaire_init [65])) Hin)
    as (self' & H1 & _ & H3 & _).
  exists self'. split; [exact H1 | exact H3].
Defined.

(** ** Deposits *)

(** X10. Two deposits under one code N1: the second is always refused and
    changes nothing; the box ends with the first envelope appended when the
    code was valid, and unchanged otherwise. *)
Theorem recevoir_vote_twice (n1 : list Z) (vote1 vote2 : Enveloppe)
        (w : Monde) :
  let '(r1, w1) := recevoir_vote n1 vote1 w in
  let '(r2, w2) := recevoir_vote n1 vote2 w1 in
  r2 = Ok false /\ w2 = w1
  /\ (n1 ∈ valid_n1 (commissaire w) ->
      r1 = Ok true
      /\ urne (anonymiseur w2) = urne (anonymiseur w) ++ [vote1])
  /\ (n1 ∉ valid_n1 (commissaire w) -> r1 = Ok false /\ w2 = w).
Proof.
  rewrite recevoir_vote_run.
  destruct (bool_decide (n1 ∈ valid_n1 (commissaire w))) eqn:Hd.
  - apply bool_decide_eq_true_1 in Hd.
    rewrite recevoir_vote_run. cbn [commissaire set_anonymiseur
      set_commissaire valid_n1].
    assert (Hgone : n1 ∉ valid_n1 (commissaire w) ∖ {[n1]}).
    { intros Hx. apply elem_of_difference in Hx as [_ Hx].
      apply Hx, elem_of_singleton_2. reflexivity. }
    rewrite (bool_decide_eq_false_2 _ Hgone).
    repeat split; try reflexivity; contradiction.
  - apply bool_decide_eq_false_1 in Hd.
    rewrite recevoir_vote_run, (bool_decide_eq_false_2 _ Hd).
    repeat split; try reflexivity; contradiction.
Qed.

(** X11. [recevoir_vote] keeps the number of envelopes in the box plus the
    number of valid codes constant, accepts exactly when the code is valid,
    and touches neither the N2 digests, the keys nor the random source. *)
Theorem recevoir_vote_conserves (n1 : list Z) (vote : Enveloppe) (w : Monde) :
  let '(r, w') := recevoir_vote n1 vote w in
  (length (urne (anonymiseur w')) + size (valid_n1 (commissaire w'))
   = length (urne (anonymiseur w)) + size (valid_n1 (commissaire w)))%nat
  /\ (r = Ok true <-> n1 ∈ valid_n1 (commissaire w))
  /\ hashed_n2 (commissaire w') = hashed_n2 (commissaire w)
  /\ admin w' = admin w /\ decompteur w' = decompteur w
  /\ hasard w' = hasard w.
Proof.
  rewrite recevoir_vote_run.
  destruct (bool_decide (n1 ∈ valid_n1 (commissaire w))) eqn:Hd.
  - apply bool_decide_eq_true_1 in Hd.
    cbn [anonymiseur commissaire set_anonymiseur set_commissaire urne
         valid_n1 hashed_n2 admin decompteur hasard].
    split; [|repeat split; auto].
    rewrite length_app. cbn [length].
    assert (Hs : size (valid_n1 (commissaire w))
                 = S (size (valid_n1 (commissaire w) ∖ {[n1]}))).
    { rewrite (union_difference_L {[n1]} (valid_n1 (commissaire w))) at 1
        by (apply singleton_subseteq_l; exact Hd).
      rewrite size_union by (apply disjoint_difference_r1; reflexivity).
      now rewrite size_singleton. }
    lia.
  - apply bool_decide_eq_false_1 in Hd.
    repeat split; try reflexivity; try discriminate. contradiction.
Qed.

(** ** Blind signing *)

(** X12. [signer_aveugle] is multiplicative: the signature of a product
    modulo n is the product of the signatures modulo n (what lets the client
    remove the blinding factor). *)
Theorem signer_aveugle_multiplicative (a b d n : Z) (w : Monde) :
  admin_private_key (admin w) = (d, n) -> 0 <= d -> 0 < n ->
  exists sa sb sab,
    signer_aveugle a w = (Ok sa, w)
    /\ signer_aveugle b w = (Ok sb, w)
    /\ signer_aveugle ((a * b) mod n) w = (Ok sab, w)
    /\ sab = (sa * sb) mod n.
Proof.
  intros Hkey Hd Hn. unfold signer_aveugle, bind, gets, lift.
  rewrite Hkey, !pow_spec by lia.
  eexists _, _, _. repeat split.
  rewrite Z.mod_pow_l, Z.pow_mul_l. apply Zmult_mod.
Qed.

Lemma signer_aveugle_multiplicative_witness :
  0 <= 2753 /\ 0 < 3233
  /\ exists sa sb sab,
       signer_aveugle 5 monde_exemple = (Ok sa, monde_exemple)
       /\ signer_aveugle 7 monde_exemple = (Ok sb, monde_exemple)
       /\ signer_aveugle ((5 * 7) mod 3233) monde_exemple
          = (Ok sab, monde_exemple)
       /\ sab = (sa * sb) mod 3233.
Proof.
  split; [lia|]. split; [lia|].
  apply (signer_aveugle_multiplicative 5 7 2753 3233 monde_exemple);
    [reflexivity | lia | lia].
Defined.

Section Scrutin.

Variable sha256_hexdigest : list Z -> list Z.

(** ** The tally, envelope by envelope *)

(** The outcome of an envelope depends on the registry through hashed_n2
    only. *)
Lemma depouiller_enveloppe_hashed (d n_self e_admin n_admin : Z)
      (enveloppe : Enveloppe) (w w' : Monde) (i : Issue) :
  hashed_n2 (commissaire w') = hashed_n2 (commissaire w) ->
  depouiller_enveloppe sha256_hexdigest d n_self e_admin n_admin enveloppe w
  = (Ok i, w) ->
  depouiller_enveloppe sha256_hexdigest d n_self e_admin n_admin enveloppe w'
  = (Ok i, w').
Proof.
  intros Hh. destruct enveloppe as [m_int_chiffre s_int_chiffre].
  unfold depouiller_enveloppe, try_except, depouiller_try, bind, lift, ret.
  destruct (pow m_int_chiffre d n_self) as [m_int | ex |];
    [|intros [= <-]; reflexivity | discriminate].
  destruct (pow s_int_chiffre d n_self) as [s_int | ex |];
    [|intros [= <-]; reflexivity | discriminate].
  destruct (int_to_str m_int) as [[|c message]|];
    [intros [= <-]; reflexivity | | intros [= <-]; reflexivity].
  destruct (split_sep (c :: message)) as [|choix_vote [|n2_code [|alea [|]]]];
    try (intros [= <-]; reflexivity).
  destruct (pow s_int e_admin n_admin) as [verification | ex |];
    [|intros [= <-]; reflexivity | discriminate].
  destruct (negb (verification =? m_int)); [intros [= <-]; reflexivity|].
  unfold sur_commissaire, verifier_n2_hash, hash_sha256, bind, lift, gets.
  destruct (utf8_encode n2_code) as [bs | ex |]; simpl;
    [| intros [= <-]; now rewrite set_commissaire_same | discriminate].
  rewrite Hh, !set_commissaire_same.
  destruct (bool_decide _); simpl; intros [= <-]; reflexivity.
Qed.

(** The tally of a box whose envelopes have the outcomes [issues]. *)
Lemma depouiller_run (admin_pub_key : Key) (w : Monde) (issues : list Issue) :
  Forall2 (fun enveloppe i =>
             depouiller_enveloppe sha256_hexdigest
               (fst (dec_private_key (decompteur w)))
               (snd (dec_private_key (decompteur w)))
               (fst admin_pub_key) (snd admin_pub_key) enveloppe w
             = (Ok i, w))
          (urne (anonymiseur w)) issues ->
  depouiller sha256_hexdigest admin_pub_key w
  = (Ok (Counter (omap choix_valide issues), List.map journal issues),
     set_decompteur
       (mkDecompteur (dec_public_key (decompteur w))
                     (dec_private_key (decompteur w))
                     (Counter (omap choix_valide issues))) w).
Proof.
  intros Hi. unfold depouiller. destruct admin_pub_key as [e_admin n_admin].
  destruct (dec_private_key (decompteur w)) as [d n_self] eqn:Hkey.
  unfold bind at 1. unfold gets at 1. rewrite Hkey.
  unfold bind at 1. unfold gets at 1.
  rewrite (bind_step _ _ _ _ _
             (depouiller_boucle_spec sha256_hexdigest d n_self e_admin n_admin
                w _ issues Hi [] [])).
  simpl. unfold bind, modify, gets, ret. simpl. rewrite Hkey. reflexivity.
Qed.

Lemma depouiller_outcomes (d n_self e_admin n_admin : Z) (w : Monde)
      (envs : list Enveloppe) :
  exists issues : list Issue,
    Forall2 (fun enveloppe i =>
               depouiller_enveloppe sha256_hexdigest d n_self e_admin
                                    n_admin enveloppe w = (Ok i, w))
            envs issues.
Proof.
  induction envs as [|enveloppe envs [issues IH]].
  - exists []. constructor.
  - destruct (depouiller_enveloppe_total sha256_hexdigest d n_self e_admin
                n_admin enveloppe w) as (i & Hi & _).
    exists (i :: issues). now constructor.
Qed.

(** X13. The tally of a box is the tally of its parts: for a box
    urne1 ++ urne2, the log is the log of urne1 followed by the log of
    urne2, and every count is the sum of the two counts. *)
Theorem depouiller_additive (admin_pub_key : Key) (w : Monde)
        (urne1 urne2 : list Enveloppe) :
  exists (res1 res2 res : gmap (list Z) Z) (logs1 logs2 : list (list Z)),
    fst (depouiller sha256_hexdigest admin_pub_key
           (set_anonymiseur (mkAnonymiseur urne1) w)) = Ok (res1, logs1)
    /\ fst (depouiller sha256_hexdigest admin_pub_key
              (set_anonymiseur (mkAnonymiseur urne2) w)) = Ok (res2, logs2)
    /\ fst (depouiller sha256_hexdigest admin_pub_key
              (set_anonymiseur (mkAnonymiseur (urne1 ++ urne2)) w))
       = Ok (res, logs1 ++ logs2)
    /\ forall c : list Z,
         default 0 (res !! c) = default 0 (res1 !! c) + default 0 (res2 !! c).
Proof.
  set (d := fst (dec_private_key (decompteur w))).
  set (n := snd (dec_private_key (decompteur w))).
  set (W := fun u => set_anonymiseur (mkAnonymiseur u) w).
  assert (Hany : forall u u' envs issues,
             Forall2 (fun enveloppe i =>
                        depouiller_enveloppe sha256_hexdigest d n
                          (fst admin_pub_key) (snd admin_pub_key) enveloppe
                          (W u) = (Ok i, W u)) envs issues ->
             Forall2 (fun enveloppe i =>
                        depouiller_enveloppe sha256_hexdigest d n
                          (fst admin_pub_key) (snd admin_pub_key) enveloppe
                          (W u') = (Ok i, W u')) envs issues).
  { intros u u' envs issues H. eapply Forall2_impl; [exact H|].
    intros env i Hi. eapply depouiller_enveloppe_hashed; [|exact Hi].
    reflexivity. }
  destruct (depouiller_outcomes d n (fst admin_pub_key) (snd admin_pub_key)
              (W urne1) urne1) as [issues1 H1].
  destruct (depouiller_outcomes d n (fst admin_pub_key) (snd admin_pub_key)
              (W urne2) urne2) as [issues2 H2].
  assert (H12 : Forall2 (fun enveloppe i =>
                        depouiller_enveloppe sha256_hexdigest d n
                          (fst admin_pub_key) (snd admin_pub_key) enveloppe
                          (W (urne1 ++ urne2)) = (Ok i, W (urne1 ++ urne2)))
                  (urne1 ++ urne2) (issues1 ++ issues2)).
  { apply Forall2_app; [exact (Hany _ _ _ _ H1) | exact (Hany _ _ _ _ H2)]. }
  exists (Counter (omap choix_valide issues1)),
         (Counter (omap choix_valide issues2)),
         (Counter (omap choix_valide (issues1 ++ issues2))),
         (List.map journal issues1), (List.map journal issues2).
  pose proof (depouiller_run admin_pub_key (W urne1) issues1 H1) as R1.
  pose proof (depouiller_run admin_pub_key (W urne2) issues2 H2) as R2.
  pose proof (depouiller_run admin_pub_key (W (urne1 ++ urne2)) _ H12) as R.
  unfold W in R1, R2, R. rewrite R1, R2, R.
  cbn [fst]. rewrite List.map_app.
  repeat split. intros c.
  rewrite !(Counter_count), omap_app, filter_app, length_app. lia.
Qed.

(** X14. An envelope is counted for a choice only if it decrypts, under
    the Decompteur's private key, to a text choix||N2||alea and to a
    signature that the Administrateur's public key maps to that text, and
    the digest of N2 is registered; the tally step leaves the state as it
    is. *)
Theorem depouiller_enveloppe_accepted (d n_self e_admin n_admin : Z)
        (m_int_chiffre s_int_chiffre : Z) (w w' : Monde) (choix : list Z) :
  depouiller_enveloppe sha256_hexdigest d n_self e_admin n_admin
                       (m_int_chiffre, s_int_chiffre) w
  = (Ok (Valide choix), w') ->
  exists (m_int s_int : Z) (n2 alea bs : list Z),
    pow m_int_chiffre d n_self = Ok m_int
    /\ pow s_int_chiffre d n_self = Ok s_int
    /\ int_to_str m_int = Some (choix ++ sep ++ n2 ++ sep ++ alea)
    /\ pow s_int e_admin n_admin = Ok m_int
    /\ utf8_encode n2 = Ok bs
    /\ sha256_hexdigest bs ∈ hashed_n2 (commissaire w)
    /\ w' = w.
Proof.
  unfold depouiller_enveloppe, try_except, depouiller_try, bind, lift, ret.
  destruct (pow m_int_chiffre d n_self) as [m_int | ex |] eqn:Hm;
    try discriminate.
  destruct (pow s_int_chiffre d n_self) as [s_int | ex |] eqn:Hs;
    try discriminate.
  destruct (int_to_str m_int) as [[|c message]|] eqn:Hstr; try discriminate.
  pose proof (split_pair_join _ (c :: message) [] (Nat.le_refl _)) as Hj.
  fold (split_sep (c :: message)) in Hj.
  destruct (split_sep (c :: message)) as [|choix_vote [|n2_code [|alea [|]]]];
    try discriminate.
  destruct (pow s_int e_admin n_admin) as [verification | ex |] eqn:Hv;
    try discriminate.
  destruct (Z.eqb_spec verification m_int) as [->|]; [|discriminate].
  cbn [negb].
  unfold sur_commissaire, verifier_n2_hash, hash_sha256, bind, lift, gets.
  destruct (utf8_encode n2_code) as [bs | ex |] eqn:Hbs; simpl;
    try discriminate.
  rewrite set_commissaire_same.
  destruct (bool_decide _) eqn:Hd; simpl; [|discriminate].
  intros [= <- <-]. apply bool_decide_eq_true_1 in Hd.
  exists m_int, s_int, n2_code, alea, bs.
  repeat split; try reflexivity; try assumption.
  rewrite Hstr. f_equal. symmetry. exact Hj.
Qed.

End Scrutin.

Example enveloppe_exemple_cast :
  urne (anonymiseur (snd (submit_vote 3 (lit "A1") (lit "N2") (lit "A")
                            monde_exemple_grand)))
  = [enveloppe_exemple].
Proof. vm_compute. reflexivity. Qed.

Lemma depouiller_enveloppe_accepted_witness :
  depouiller_enveloppe empreinte_test
    (fst (dec_private_key (decompteur monde_exemple_grand)))
    (snd (dec_private_key (decompteur monde_exemple_grand)))
    (fst (admin_public_key (admin monde_exemple_grand)))
    (snd (admin_public_key (admin monde_exemple_grand)))
    enveloppe_exemple monde_exemple_grand
  = (Ok (Valide (lit "A")), monde_exemple_grand)
  /\ exists (m_int s_int : Z) (n2 alea bs : list Z),
       pow (fst enveloppe_exemple)
           (fst (dec_private_key (decompteur monde_exemple_grand)))
           (snd (dec_private_key (decompteur monde_exemple_grand)))
       = Ok m_int
       /\ pow (snd enveloppe_exemple)
              (fst (dec_private_key (decompteur monde_exemple_grand)))
              (snd (dec_private_key (decompteur monde_exemple_grand)))
          = Ok s_int
       /\ int_to_str m_int = Some (lit "A" ++ sep ++ n2 ++ sep ++ alea)
       /\ pow s_int (fst (admin_public_key (admin monde_exemple_grand)))
              (snd (admin_public_key (admin monde_exemple_grand)))
          = Ok m_int
       /\ utf8_encode n2 = Ok bs
       /\ empreinte_test bs ∈ hashed_n2 (commissaire monde_exemple_grand)
       /\ monde_exemple_grand = monde_exemple_grand.
Proof.
  assert (H : depouiller_enveloppe empreinte_test
    (fst (dec_private_key (decompteur monde_exemple_grand)))
    (snd (dec_private_key (decompteur monde_exemple_grand)))
    (fst (admin_public_key (admin monde_exemple_grand)))
    (snd (admin_public_key (admin monde_exemple_grand)))
    enveloppe_exemple monde_exemple_grand
  = (Ok (Valide (lit "A")), monde_exemple_grand))
    by (vm_compute; reflexivity).
  split; [exact H|].
  exact (depouiller_enveloppe_accepted empreinte_test _ _ _ _ _ _ _ _ _ H).
Defined.

(** ** Random tokens *)

Lemma hex_digit_char (d : Z) : 0 <= d < 16 -> is_hex_char (hex_digit d).
Proof.
  intros Hd. unfold hex_digit, is_hex_char.
  destruct (Z.ltb_spec d 10); lia.
Qed.

Lemma hex_of_bytes_chars (bs : list Z) :
  Forall is_byte bs ->
  Forall is_hex_char (hex_of_bytes bs)
  /\ length (hex_of_bytes bs) = (2 * length bs)%nat.
Proof.
  induction 1 as [|b bs Hb _ [IH1 IH2]]; [split; [constructor | reflexivity]|].
  unfold is_byte in Hb.
  change (hex_of_bytes (b :: bs))
    with (hex_digit (b / 16) :: hex_digit (b mod 16) :: hex_of_bytes bs).
  split.
  - constructor; [|constructor; [|exact IH1]]; apply hex_digit_char.
    + split; [apply Z.div_pos; lia | apply Z.div_lt_upper_bound; lia].
    + apply Z.mod_pos_bound. lia.
  - cbn [length]. rewrite IH2. lia.
Qed.

Lemma bytes_little_bytes (len : nat) :
  forall number : Z,
    Forall is_byte (bytes_little len number)
    /\ length (bytes_little len number) = len.
Proof.
  induction len as [|len IH]; intros number; [split; [constructor | reflexivity]|].
  cbn [bytes_little]. destruct (IH (number / 256)) as [IH1 IH2]. split.
  - constructor; [|exact IH1]. unfold is_byte. apply Z.mod_pos_bound. lia.
  - cbn [length]. now rewrite IH2.
Qed.

Lemma token_hex_Ok (nbytes : Z) (t t' : list Z) (s : list Z) :
  token_hex nbytes t = (Ok s, t') ->
  Forall is_hex_char s /\ length s = (2 * Z.to_nat nbytes)%nat
  /\ exists v, t = v :: t'.
Proof.
  unfold token_hex. intros H. apply bind_Ok in H as (v & t1 & Hv & H).
  unfold ret in H. injection H as <- <-.
  apply randbits_Ok in Hv as (_ & _ & v0 & -> & _).
  destruct (bytes_little_bytes (Z.to_nat nbytes) v) as [Hb Hl].
  destruct (hex_of_bytes_chars (rev (bytes_little (Z.to_nat nbytes) v)))
    as [Hc Hn]; [now apply List.Forall_rev|].
  rewrite length_rev, Hl in Hn. eauto.
Qed.

(** ** The voting software, case by case *)

Lemma submit_vote_signature_range (e_admin n_admin m_int k signature : Z)
      (w w' : Monde) :
  0 < n_admin ->
  submit_vote_signature e_admin n_admin m_int k w = (Ok signature, w') ->
  0 <= signature < n_admin.
Proof.
  intros Hn H. unfold submit_vote_signature in H.
  apply bind_Ok in H as (blind_factor & w1 & _ & H).
  apply bind_Ok in H as (s_prime & w2 & _ & H).
  apply bind_Ok in H as (k_inv & w3 & _ & H).
  unfold ret in H. injection H as <- _.
  apply Z.mod_pos_bound. exact Hn.
Qed.

(** What a run of [submit_vote] can be: refused at the first step, stopped
    between the first step and the deposit, or carried through. *)
Lemma submit_vote_inv (fuel : nat) (n1 n2 choix : list Z) (w w' : Monde)
      (r : Res Reponse) :
  submit_vote fuel n1 n2 choix w = (r, w') ->
  ((n1 ∉ valid_n1 (commissaire w)) /\ r = Ok ErreurN1 /\ w' = w)
  \/ (n1 ∈ valid_n1 (commissaire w)
      /\ r <> Ok Redirection /\ r <> Ok ErreurN1 /\ r <> Ok ErreurDepot
      /\ exists t', w' = set_hasard t' w)
  \/ (n1 ∈ valid_n1 (commissaire w) /\ r = Ok Redirection
      /\ exists (salt t t' : list Z) (m_int k signature em es : Z),
           token_hex 8 (hasard w) = (Ok salt, t)
           /\ str_to_int (choix ++ sep ++ n2 ++ sep ++ salt) = Ok m_int
           /\ submit_vote_k fuel (snd (admin_public_key (admin w))) t
              = (Ok k, t')
           /\ submit_vote_signature (fst (admin_public_key (admin w)))
                (snd (admin_public_key (admin w))) m_int k (set_hasard t' w)
              = (Ok signature, set_hasard t' w)
           /\ pow signature (fst (admin_public_key (admin w)))
                  (snd (admin_public_key (admin w))) = Ok m_int
           /\ pow m_int (fst (dec_public_key (decompteur w)))
                  (snd (dec_public_key (decompteur w))) = Ok em
           /\ pow signature (fst (dec_public_key (decompteur w)))
                  (snd (dec_public_key (decompteur w))) = Ok es
           /\ w' = set_anonymiseur
                     (mkAnonymiseur (urne (anonymiseur w) ++ [(em, es)]))
                     (set_commissaire
                        (mkCommissaire (valid_n1 (commissaire w) ∖ {[n1]})
                                       (hashed_n2 (commissaire w)))
                        (set_hasard t' w))).
Proof.
  intros H. unfold submit_vote in H.
  rewrite (bind_step _ _ _ _ _ (verifier_eligibilite_run n1 w)) in H.
  destruct (bool_decide (n1 ∈ valid_n1 (commissaire w))) eqn:Hel;
    cbn [negb] in H.
  2:{ left. apply bool_decide_eq_false_1 in Hel. injection H as <- <-. auto. }
  right. pose proof (bool_decide_eq_true_1 _ Hel) as Hin.
  assert (Hstop : forall (ex : Res Reponse) (t0 : list Z),
             ex <> Ok Redirection -> ex <> Ok ErreurN1 ->
             ex <> Ok ErreurDepot ->
             r = ex /\ w' = set_hasard t0 w ->
             n1 ∈ valid_n1 (commissaire w)
             /\ r <> Ok Redirection /\ r <> Ok ErreurN1
             /\ r <> Ok ErreurDepot /\ exists t', w' = set_hasard t' w).
  { intros ex t0 H1 H2 H3 [-> ->]. eauto 10. }
  apply bind_inv in H. unfold tirer at 1 in H.
  destruct (token_hex 8 (hasard w)) as [[salt | ex |] t] eqn:Hsalt;
    [|left; eapply Hstop; [| | |exact H]; discriminate ..].
  apply bind_inv in H. unfold lift at 1 in H.
  destruct (str_to_int (choix ++ sep ++ n2 ++ sep ++ salt))
    as [m_int | ex |] eqn:Hm;
    [|left; eapply Hstop; [| | |exact H]; discriminate ..].
  apply bind_inv in H. unfold gets at 1 in H.
  cbn [admin set_hasard] in H.
  destruct (admin_public_key (admin w)) as [e_admin n_admin].
  cbn [fst snd].
  apply bind_inv in H. unfold tirer at 1 in H.
  cbn [hasard set_hasard] in H.
  destruct (submit_vote_k fuel n_admin t) as [[k | ex |] t1] eqn:Hk;
    [|left; eapply Hstop; [| | |exact H]; discriminate ..].
  apply bind_inv in H.
  destruct (submit_vote_signature e_admin n_admin m_int k
              (set_hasard t1 (set_hasard t w))) as [rs w2] eqn:Hsig.
  pose proof (submit_vote_signature_frame _ _ _ _ _ _ _ Hsig) as ->.
  change (set_hasard t1 (set_hasard t w)) with (set_hasard t1 w) in *.
  destruct rs as [signature | ex |];
    [|left; eapply Hstop; [| | |exact H]; discriminate ..].
  apply bind_inv in H. unfold lift at 1 in H.
  destruct (pow signature e_admin n_admin) as [verification | ex |] eqn:Hv;
    [|left; eapply Hstop; [| | |exact H]; discriminate ..].
  destruct (Z.eqb_spec verification m_int) as [->|Hne]; cbn [negb] in H.
  2:{ left. injection H as <- <-. eapply Hstop; [| | |split; reflexivity];
      discriminate. }
  apply bind_inv in H. unfold gets at 1 in H.
  cbn [decompteur set_hasard] in H.
  destruct (dec_public_key (decompteur w)) as [e_teller n_teller].
  cbn [fst snd].
  apply bind_inv in H. unfold lift at 1 in H.
  destruct (pow m_int e_teller n_teller) as [em | ex |] eqn:Hem;
    [|left; eapply Hstop; [| | |exact H]; discriminate ..].
  apply bind_inv in H. unfold lift at 1 in H.
  destruct (pow signature e_teller n_teller) as [es | ex |] eqn:Hes;
    [|left; eapply Hstop; [| | |exact H]; discriminate ..].
  apply bind_inv in H. rewrite recevoir_vote_run in H.
  cbn [commissaire set_hasard] in H. rewrite Hel in H.
  injection H as <- <-. right.
  split; [exact Hin|]. split; [reflexivity|].
  exists salt, t, t1, m_int, k, signature, em, es.
  repeat split; assumption || reflexivity.
Qed.


(** X16. A code N1 that has carried a vote is refused from then on: after
    a cast that redirected, every further [submit_vote] under the same N1,
    whatever the choice and the code N2, answers with the N1 error and
    leaves the state as it is. *)
Theorem submit_vote_twice (fuel fuel' : nat) (n1 n2 choix n2' choix' : list Z)
        (w w1 : Monde) :
  submit_vote fuel n1 n2 choix w = (Ok Redirection, w1) ->
  submit_vote fuel' n1 n2' choix' w1 = (Ok ErreurN1, w1).
Proof.
  intros H.
  apply submit_vote_inv in H
    as [(_ & [=] & _) | [(_ & H1 & _) | (_ & _ & salt & t & t' & m_int & k
                            & signature & em & es & _ & _ & _ & _ & _ & _ & _
                            & ->)]];
    [now contradiction H1|].
  unfold submit_vote.
  rewrite (bind_step _ _ _ _ _ (verifier_eligibilite_run n1 _)).
  cbn [commissaire set_anonymiseur set_commissaire valid_n1].
  rewrite bool_decide_eq_false_2; [reflexivity|].
  intros Hin. apply elem_of_difference in Hin as [_ Hin].
  apply Hin. now apply elem_of_singleton_2.
Qed.

Lemma submit_vote_twice_witness :
  fst (submit_vote 3 (lit "A1") (lit "N2") (lit "A") monde_exemple_grand)
  = Ok Redirection
  /\ fst (submit_vote 0 (lit "A1") (lit "N2") (lit "B")
            (snd (submit_vote 3 (lit "A1") (lit "N2") (lit "A")
                    monde_exemple_grand)))
     = Ok ErreurN1.
Proof.
  assert (Hf : fst (submit_vote 3 (lit "A1") (lit "N2") (lit "A")
                      monde_exemple_grand) = Ok Redirection)
    by (vm_compute; reflexivity).
  split; [exact Hf|].
  rewrite (submit_vote_twice 3 0 (lit "A1") (lit "N2") (lit "A") (lit "N2")
             (lit "B") monde_exemple_grand
             (snd (submit_vote 3 (lit "A1") (lit "N2") (lit "A")
                     monde_exemple_grand)));
    [reflexivity|].
  rewrite <- Hf. apply surjective_pairing.
Defined.

(** ** From the cast to the count *)

Lemma int_to_str_of_str (s : list Z) (m : Z) :
  head s <> Some 0 -> str_to_int s = Ok m -> int_to_str m = Some s.
Proof.
  intros Hhd Hm. unfold str_to_int in Hm.
  destruct (utf8_encode s) as [bs | |] eqn:He; simpl in Hm; try discriminate.
  injection Hm as <-.
  apply utf8_round_trip in He as (Hd & Hb & Hz).
  unfold int_to_str, int_to_str_try.
  rewrite int_to_bytes_from_bytes by auto. simpl. now rewrite Hd.
Qed.

Lemma Counter_snoc (items : list (list Z)) (c x : list Z) :
  default 0 (Counter (items ++ [x]) !! c)
  = default 0 (Counter items !! c) + (if decide (c = x) then 1 else 0).
Proof.
  rewrite !Counter_count, filter_app, length_app.
  rewrite filter_cons, filter_nil.
  destruct (decide (x = c)) as [->|Hne].
  - destruct (decide (c = c)); [|congruence]. cbn [length]. lia.
  - destruct (decide (c = x)); [congruence|]. cbn [length]. lia.
Qed.

Section Bout_en_bout.

Variable sha256_hexdigest : list Z -> list Z.

(** The envelope that [submit_vote] seals is accepted by the tally. *)
Lemma depouiller_enveloppe_scellee (p q e_teller d_teller e_admin n_admin : Z)
      (choix n2 salt h : list Z) (m_int signature em es : Z) (w : Monde) :
  Z.prime p -> Z.prime q -> p <> q ->
  0 <= e_teller -> 0 <= d_teller ->
  (e_teller * d_teller) mod ((p - 1) * (q - 1)) = 1 ->
  0 < n_admin <= p * q ->
  Forall (fun c => c <> 124) choix -> Forall (fun c => c <> 124) n2 ->
  Forall (fun c => c <> 124) salt ->
  head choix <> Some 0 ->
  hash_sha256 sha256_hexdigest n2 = Ok h -> h ∈ hashed_n2 (commissaire w) ->
  str_to_int (choix ++ sep ++ n2 ++ sep ++ salt) = Ok m_int ->
  0 <= signature < n_admin ->
  pow signature e_admin n_admin = Ok m_int ->
  pow m_int e_teller (p * q) = Ok em ->
  pow signature e_teller (p * q) = Ok es ->
  depouiller_enveloppe sha256_hexdigest d_teller (p * q) e_admin n_admin
                       (em, es) w
  = (Ok (Valide choix), w).
Proof.
  intros Hp Hq Hpq He Hd Hed Hn Hc Hn2 Hs Hhd Hh Hin Hm Hsig Hv Hem Hes.
  pose proof (pow_range _ _ _ _ (proj1 Hn) Hv) as Hmr.
  assert (Hm1 : pow em d_teller (p * q) = Ok m_int).
  { pose proof (rsa_pow_pow p q e_teller d_teller m_int Hp Hq Hpq He Hd Hed
                  ltac:(lia)) as R.
    rewrite Hem in R. exact R. }
  assert (Hs1 : pow es d_teller (p * q) = Ok signature).
  { pose proof (rsa_pow_pow p q e_teller d_teller signature Hp Hq Hpq He Hd
                  Hed ltac:(lia)) as R.
    rewrite Hes in R. exact R. }
  assert (Hstr : int_to_str m_int = Some (choix ++ sep ++ n2 ++ sep ++ salt)).
  { apply int_to_str_of_str; [|exact Hm].
    destruct choix as [|c choix']; [discriminate | exact Hhd]. }
  unfold depouiller_enveloppe, try_except, depouiller_try, bind, lift, ret.
  rewrite Hm1, Hs1, Hstr.
  destruct (choix ++ sep ++ n2 ++ sep ++ salt) as [|c0 message] eqn:Hmsg.
  { destruct choix; discriminate. }
  rewrite <- Hmsg, (split_sep_ballot choix n2 salt Hc Hn2 Hs), Hv.
  rewrite Z.eqb_refl. cbn [negb].
  unfold sur_commissaire, verifier_n2_hash, bind, lift, gets. rewrite Hh.
  rewrite (bool_decide_eq_true_2 _ Hin). cbn [negb].
  now rewrite set_commissaire_same.
Qed.

(** X17. A vote that was cast is counted.  Let the Decompteur's keys be
    an RSA pair over two distinct primes with a modulus no smaller than the
    Administrateur's, the choice and the code N2 hold no '|', the choice not
    start with the character of code 0, and the digest of N2 be registered.
    If [submit_vote] redirects, the next tally logs the earlier envelopes as
    before, then a success for this choice, and counts this choice once
    more than the tally before the cast (other counts unchanged). *)
Theorem submit_vote_counted (fuel : nat) (n1 n2 choix h : list Z)
        (w w1 : Monde) (p q e_teller d_teller : Z) :
  Z.prime p -> Z.prime q -> p <> q ->
  dec_public_key (decompteur w) = (e_teller, p * q) ->
  dec_private_key (decompteur w) = (d_teller, p * q) ->
  0 <= e_teller -> 0 <= d_teller ->
  (e_teller * d_teller) mod ((p - 1) * (q - 1)) = 1 ->
  0 < snd (admin_public_key (admin w)) <= p * q ->
  Forall (fun c => c <> 124) choix -> Forall (fun c => c <> 124) n2 ->
  head choix <> Some 0 ->
  hash_sha256 sha256_hexdigest n2 = Ok h -> h ∈ hashed_n2 (commissaire w) ->
  submit_vote fuel n1 n2 choix w = (Ok Redirection, w1) ->
  exists (res res1 : gmap (list Z) Z) (logs : list (list Z)),
    fst (route_depouiller sha256_hexdigest w) = Ok (res, logs)
    /\ fst (route_depouiller sha256_hexdigest w1)
       = Ok (res1, logs ++ [journal (Valide choix)])
    /\ forall c : list Z,
         default 0 (res1 !! c)
         = default 0 (res !! c) + (if decide (c = choix) then 1 else 0).
Proof.
  intros Hp Hq Hpq Hpub Hpriv He Hd Hed Hn Hc Hn2 Hhd Hh Hin H.
  apply submit_vote_inv in H
    as [(_ & [=] & _) | [(_ & H1 & _) | (_ & _ & salt & t & t' & m_int & k
                            & signature & em & es & Hsalt & Hm & _ & Hsig
                            & Hv & Hem & Hes & ->)]];
    [now contradiction H1|].
  rewrite Hpub in Hem, Hes. cbn [fst snd] in Hem, Hes.
  destruct (admin_public_key (admin w)) as [e_admin n_admin] eqn:Hadm.
  cbn [fst snd] in *.
  apply submit_vote_signature_range in Hsig; [|lia].
  apply token_hex_Ok in Hsalt as (Hchars & _ & _).
  assert (Hs : Forall (fun c => c <> 124) salt).
  { eapply Forall_impl; [exact Hchars|]. unfold is_hex_char. intros c; lia. }
  destruct (depouiller_outcomes sha256_hexdigest d_teller (p * q) e_admin
              n_admin w (urne (anonymiseur w))) as [issues Hi].
  set (w1 := set_anonymiseur _ _).
  assert (Hi1 : Forall2 (fun enveloppe i =>
                  depouiller_enveloppe sha256_hexdigest d_teller (p * q)
                    e_admin n_admin enveloppe w1 = (Ok i, w1))
                  (urne (anonymiseur w) ++ [(em, es)])
                  (issues ++ [Valide choix])).
  { apply Forall2_app.
    - eapply Forall2_impl; [exact Hi|]. intros env i Henv.
      eapply depouiller_enveloppe_hashed; [|exact Henv]. reflexivity.
    - constructor; [|constructor].
      apply (depouiller_enveloppe_scellee p q e_teller d_teller e_admin
               n_admin choix n2 salt h m_int signature em es w1);
        assumption. }
  exists (Counter (omap choix_valide issues)),
         (Counter (omap choix_valide (issues ++ [Valide choix]))),
         (List.map journal issues).
  split; [|split].
  - unfold route_depouiller, bind at 1, gets at 1. rewrite Hadm.
    rewrite (depouiller_run sha256_hexdigest (e_admin, n_admin) w issues);
      [reflexivity|].
    rewrite Hpriv. exact Hi.
  - unfold route_depouiller, bind at 1, gets at 1.
    change (admin_public_key (admin w1)) with (admin_public_key (admin w)).
    rewrite Hadm.
    rewrite (depouiller_run sha256_hexdigest (e_admin, n_admin) w1
               (issues ++ [Valide choix])).
    + cbn [fst]. now rewrite List.map_app.
    + change (dec_private_key (decompteur w1))
        with (dec_private_key (decompteur w)).
      rewrite Hpriv. exact Hi1.
  - intros c. rewrite omap_app. cbn [omap choix_valide].
    apply Counter_snoc.
Qed.

End Bout_en_bout.

Lemma prime_proth_5_127 : Z.prime (5 * 2 ^ 127 + 1).
Proof.
  apply (proth 5 3 126); [vm_compute; split; reflexivity|].
  rewrite <- pow_nonneg_mod_spec by (vm_compute; discriminate).
  vm_compute. reflexivity.
Qed.

Lemma prime_proth_7_92 : Z.prime (7 * 2 ^ 92 + 1).
Proof.
  apply (proth 7 3 91); [vm_compute; split; reflexivity|].
  rewrite <- pow_nonneg_mod_spec by (vm_compute; discriminate).
  vm_compute. reflexivity.
Qed.

Lemma submit_vote_counted_witness :
  Z.prime (5 * 2 ^ 127 + 1) /\ Z.prime (7 * 2 ^ 92 + 1)
  /\ fst (submit_vote 3 (lit "A1") (lit "N2") (lit "A") monde_exemple_proth)
     = Ok Redirection
  /\ exists (res res1 : gmap (list Z) Z) (logs : list (list Z)),
       fst (route_depouiller empreinte_test monde_exemple_proth)
       = Ok (res, logs)
       /\ fst (route_depouiller empreinte_test
                 (snd (submit_vote 3 (lit "A1") (lit "N2") (lit "A")
                         monde_exemple_proth)))
          = Ok (res1, logs ++ [journal (Valide (lit "A"))])
       /\ forall c : list Z,
            default 0 (res1 !! c)
            = default 0 (res !! c)
              + (if decide (c = lit "A") then 1 else 0).
Proof.
  assert (Hf : fst (submit_vote 3 (lit "A1") (lit "N2") (lit "A")
                      monde_exemple_proth) = Ok Redirection)
    by (vm_compute; reflexivity).
  split; [exact prime_proth_5_127|]. split; [exact prime_proth_7_92|].
  split; [exact Hf|].
  apply (submit_vote_counted empreinte_test 3 (lit "A1") (lit "N2") (lit "A")
           (empreinte_test (lit "N2")) monde_exemple_proth _
           (5 * 2 ^ 127 + 1) (7 * 2 ^ 92 + 1) 65537
           (Z.invmod 65537 ((5 * 2 ^ 127) * (7 * 2 ^ 92)))).
  - exact prime_proth_5_127.
  - exact prime_proth_7_92.
  - intros H. vm_compute in H. discriminate.
  - reflexivity.
  - vm_compute. reflexivity.
  - lia.
  - vm_compute. discriminate.
  - vm_compute. reflexivity.
  - vm_compute. split; [reflexivity | discriminate].
  - repeat constructor; vm_compute; discriminate.
  - repeat constructor; vm_compute; discriminate.
  - discriminate.
  - vm_compute. reflexivity.
  - unfold monde_exemple_proth, monde_exemple_grand.
    cbn [commissaire set_decompteur hashed_n2]. now apply elem_of_singleton_2.
  - rewrite <- Hf. apply surjective_pairing.
Defined.

(** ** Starting an election *)

Lemma upper_hex (s : list Z) :
  Forall is_hex_char s ->
  Forall is_code_char (upper s) /\ length (upper s) = length s.
Proof.
  intros H. split; [|apply length_map].
  unfold upper. apply List.Forall_map. eapply Forall_impl; [exact H|].
  intros c Hc. unfold is_hex_char in Hc. unfold is_code_char.
  destruct (Z.leb_spec 97 c), (Z.leb_spec c 122); cbn [andb]; lia.
Qed.

Lemma tirer_token_hex (nbytes v : Z) (t : list Z) (w : Monde) :
  0 <= nbytes -> hasard w = v :: t ->
  exists s : list Z,
    tirer (token_hex nbytes) w = (Ok s, set_hasard t w)
    /\ Forall is_hex_char s /\ length s = (2 * Z.to_nat nbytes)%nat.
Proof.
  intros Hn Ht. unfold tirer. rewrite Ht.
  destruct (token_hex nbytes (v :: t)) as [r t'] eqn:H.
  assert (Hr : exists s, r = Ok s /\ t' = t).
  { unfold token_hex, bind, randbits, ret in H.
    destruct (Z.ltb_spec (8 * nbytes) 0); [lia|].
    injection H as <- <-. eauto. }
  destruct Hr as (s & -> & ->). exists s. split; [reflexivity|].
  apply token_hex_Ok in H as (H1 & H2 & _). auto.
Qed.

Lemma code_scalar (s : list Z) :
  Forall is_code_char s -> Forall (fun c => is_scalar c = true) s.
Proof.
  intros H. eapply Forall_impl; [exact H|]. intros c Hc.
  unfold is_code_char in Hc. unfold is_scalar, is_surrogate.
  destruct (Z.leb_spec 0 c), (Z.leb_spec c 1114111), (Z.leb_spec 55296 c);
    cbn [andb negb]; try reflexivity; lia.
Qed.

Section Initialisation_proprietes.

Variable sha256_hexdigest : list Z -> list Z.

Lemma init_scrutin_boucle_run (ids : list Z) :
  forall (voters : list Voter) (n1_list n2_hashed_list : list (list Z))
         (w : Monde),
    (2 * length ids <= length (hasard w))%nat ->
    exists (crees : list Voter) (hs : list (list Z)),
      init_scrutin_boucle sha256_hexdigest ids voters n1_list n2_hashed_list w
      = (Ok (voters ++ crees, n1_list ++ List.map voter_n1 crees,
             n2_hashed_list ++ hs),
         set_hasard (drop (2 * length ids) (hasard w)) w)
      /\ List.map voter_id crees = ids
      /\ Forall2 (voter_cree sha256_hexdigest) crees hs.
Proof.
  induction ids as [|i ids IH]; intros voters n1_list n2_hashed_list w Hlen.
  - exists [], []. cbn [init_scrutin_boucle List.map length Nat.mul drop].
    rewrite !app_nil_r. unfold ret. destruct w; repeat split. constructor.
  - cbn [length] in Hlen.
    destruct (hasard w) as [|v1 [|v2 t]] eqn:Ht; cbn [length] in Hlen;
      [lia | lia |].
    cbn [init_scrutin_boucle].
    destruct (tirer_token_hex 6 v1 (v2 :: t) w ltac:(lia) Ht)
      as (t1 & Ht1 & Hc1 & Hl1).
    rewrite (bind_step _ _ _ _ _ Ht1).
    destruct (tirer_token_hex 6 v2 t (set_hasard (v2 :: t) w) ltac:(lia)
                eq_refl) as (t2 & Ht2 & Hc2 & Hl2).
    rewrite (bind_step _ _ _ _ _ Ht2).
    change (set_hasard t (set_hasard (v2 :: t) w)) with (set_hasard t w).
    destruct (upper_hex t1 Hc1) as [Hu1 Hn1].
    destruct (upper_hex t2 Hc2) as [Hu2 Hn2].
    destruct (utf8_encode_scalar (upper t2) (code_scalar _ Hu2)) as [bs Hbs].
    assert (Hh : hash_sha256 sha256_hexdigest (upper t2)
                 = Ok (sha256_hexdigest bs))
      by (unfold hash_sha256; now rewrite Hbs).
    unfold bind at 1, lift at 1. rewrite Hh.
    destruct (IH (voters ++ [mkVoter i (lit "Citoyen " ++ str_int i)
                               (upper t1) (upper t2) false])
                 (n1_list ++ [upper t1])
                 (n2_hashed_list ++ [sha256_hexdigest bs])
                 (set_hasard t w))
      as (crees & hs & Hrun & Hids & Hcrees).
    { cbn [hasard set_hasard]. lia. }
    exists (mkVoter i (lit "Citoyen " ++ str_int i) (upper t1) (upper t2)
                    false :: crees), (sha256_hexdigest bs :: hs).
    rewrite Hrun. cbn [hasard set_hasard List.map voter_n1 voter_id].
    rewrite <- !app_assoc. cbn [app].
    cbn [length].
    replace (2 * S (length ids))%nat with (S (S (2 * length ids))) by lia.
    cbn [drop]. split; [reflexivity|]. split; [now rewrite Hids|].
    constructor; [|exact Hcrees].
    unfold voter_cree.
    cbn [voter_has_voted voter_name voter_id voter_n1 voter_n2].
    rewrite Hn1, Hn2, Hl1, Hl2. repeat split; assumption || reflexivity.
Qed.

(** X18. What [init_scrutin] sets up, given the ten draws it makes: five
    voters numbered 1 to 5 who have not voted, each with two codes of twelve
    characters among 0-9 and A-F; every voter's N1 is valid and the digest
    of every voter's N2 is registered; the valid codes are exactly the
    voters' N1 (the previous registry is replaced); the box is empty; the
    keys and the results of the Decompteur are as before. *)
Theorem init_scrutin_voters (w : Monde) :
  (10 <= length (hasard w))%nat ->
  exists (voters : list Voter) (w' : Monde),
    init_scrutin sha256_hexdigest w = (Ok voters, w')
    /\ List.map voter_id voters = [1; 2; 3; 4; 5]
    /\ Forall (fun v =>
                 (exists h, voter_cree sha256_hexdigest v h /\ h ∈ hashed_n2 (commissaire w'))
                 /\ voter_n1 v ∈ valid_n1 (commissaire w'))
              voters
    /\ valid_n1 (commissaire w') = list_to_set (List.map voter_n1 voters)
    /\ urne (anonymiseur w') = []
    /\ admin w' = admin w /\ decompteur w' = decompteur w
    /\ hasard w' = drop 10 (hasard w).
Proof.
  intros Hlen.
  destruct (init_scrutin_boucle_run (seqZ 1 5) [] [] [] w Hlen)
    as (voters & hs & Hrun & Hids & Hcrees).
  cbn [app] in Hrun.
  exists voters. eexists. split.
  { unfold init_scrutin. rewrite (bind_step _ _ _ _ _ Hrun).
    unfold bind, sur_commissaire, charger_listes, modify, ret. reflexivity. }
  cbn [commissaire anonymiseur admin decompteur hasard set_anonymiseur
       set_commissaire set_hasard valid_n1 hashed_n2 urne].
  split; [exact Hids|]. split; [|repeat split].
  clear Hrun Hids. apply Forall_forall. intros v Hv. split.
  - apply list_elem_of_lookup_1 in Hv as [k Hk].
    destruct (Forall2_lookup_l _ _ _ _ _ Hcrees Hk) as (h & Hh & Hc).
    exists h. split; [exact Hc|].
    apply elem_of_list_to_set. eapply list_elem_of_lookup_2. exact Hh.
  - apply elem_of_list_to_set, list_elem_of_In, in_map.
    now apply list_elem_of_In.
Qed.

End Initialisation_proprietes.

Lemma init_scrutin_voters_witness :
  (10 <= length (hasard monde_exemple_tirages))%nat
  /\ exists (voters : list Voter) (w' : Monde),
       init_scrutin empreinte_test monde_exemple_tirages = (Ok voters, w')
       /\ List.map voter_id voters = [1; 2; 3; 4; 5]
       /\ List.map voter_name voters
          = [lit "Citoyen 1"; lit "Citoyen 2"; lit "Citoyen 3";
             lit "Citoyen 4"; lit "Citoyen 5"]
       /\ List.map voter_n1 voters
          = [lit "000000000001"; lit "000000000003"; lit "000000000005";
             lit "000000000007"; lit "000000000009"]
       /\ urne (anonymiseur w') = [] /\ hasard w' = [].
Proof.
  split; [simpl; lia|].
  destruct (init_scrutin_voters empreinte_test monde_exemple_tirages)
    as (voters & w' & Hrun & Hids & _ & _ & Hurne & _ & _ & Ht);
    [simpl; lia|].
  exists voters, w'. split; [exact Hrun|]. split; [exact Hids|].
  assert (Hv : fst (init_scrutin empreinte_test monde_exemple_tirages)
               = Ok voters) by now rewrite Hrun.
  vm_compute in Hv. injection Hv as <-.
  split; [vm_compute; reflexivity|]. split; [vm_compute; reflexivity|].
  split; [exact Hurne | exact Ht].
Defined.
